(** * The MBE container codec: parser and generator

    A shallow embedding of [services/mbeGenerator.ts] and
    [services/mbeParser.ts] together with the model types of [types.ts]
    and the constants of [constants.ts].

    Conventions.
    - A byte is a [Z] in [0, 256); a buffer ([ArrayBuffer], [Uint8Array],
      [DataView]) is a [list Z].
    - A JavaScript string is the list of its UTF-16 code units.
    - A JavaScript number that holds an integer is a [Z].  Offsets, lengths
      and counts of the codec are such numbers.
    - [console.warn] is a writer effect: every function that may warn
      returns the list of warnings it logged. *)

From stdpp Require Import base numbers list gmap.
From Stdlib Require Import ZArith Lia.

Open Scope Z_scope.

(** ** Bytes and little-endian integers *)

Definition byte_ok (b : Z) : Prop := 0 <= b < 256.

Definition buffer_ok (buf : list Z) : Prop := Forall byte_ok buf.

Definition byteLength (buf : list Z) : Z := Z.of_nat (length buf).

(** [DataView.setUint32(0, value, true)]: the low 32 bits, least
    significant byte first. *)
Definition le32 (value : Z) : list Z :=
  let v := value mod 2 ^ 32 in
  [ v mod 256; (v / 256) mod 256; (v / 65536) mod 256; (v / 16777216) mod 256 ].

(** Reinterpretation of an unsigned 32-bit value as a signed one. *)
Definition toInt32 (u : Z) : Z :=
  if u <? 2 ^ 31 then u else u - 2 ^ 32.

Definition byteAt (buf : list Z) (offset : Z) : Z :=
  default 0 (buf !! Z.to_nat offset).

Definition le32_value (buf : list Z) (offset : Z) : Z :=
  byteAt buf offset
  + 256 * byteAt buf (offset + 1)
  + 65536 * byteAt buf (offset + 2)
  + 16777216 * byteAt buf (offset + 3).

(** Slice [buf[offset .. offset + len)]. *)
Definition slice (buf : list Z) (offset len : Z) : list Z :=
  take (Z.to_nat len) (drop (Z.to_nat offset) buf).

(** ** JavaScript strings and the platform's UTF-8 codec *)

Abbreviation jsstring := (list Z).

Definition isHighSurrogate (u : Z) : bool := (0xD800 <=? u) && (u <=? 0xDBFF).
Definition isLowSurrogate (u : Z) : bool := (0xDC00 <=? u) && (u <=? 0xDFFF).

(** Conversion of a string to a sequence of Unicode scalar values: a
    surrogate pair becomes one scalar, a lone surrogate U+FFFD. *)
Fixpoint toScalars (s : jsstring) : list Z :=
  match s with
  | [] => []
  | u :: rest =>
      if isHighSurrogate u then
        match rest with
        | l :: rest' =>
            if isLowSurrogate l
            then (0x10000 + (u - 0xD800) * 0x400 + (l - 0xDC00)) :: toScalars rest'
            else 0xFFFD :: toScalars rest
        | [] => [0xFFFD]
        end
      else if isLowSurrogate u then 0xFFFD :: toScalars rest
      else u :: toScalars rest
  end.

Definition utf8_of_scalar (c : Z) : list Z :=
  if c <? 0x80 then [c]
  else if c <? 0x800 then [0xC0 + c / 64; 0x80 + c mod 64]
  else if c <? 0x10000 then
    [0xE0 + c / 4096; 0x80 + (c / 64) mod 64; 0x80 + c mod 64]
  else
    [0xF0 + c / 262144; 0x80 + (c / 4096) mod 64;
     0x80 + (c / 64) mod 64; 0x80 + c mod 64].

(** [new TextEncoder().encode(s)]. *)
Definition TextEncoder_encode (s : jsstring) : list Z :=
  concat (map utf8_of_scalar (toScalars s)).

(** State of the UTF-8 decoder of the Encoding standard. *)
Record utf8_state := {
  u8_codePoint : Z;
  u8_bytesSeen : Z;
  u8_bytesNeeded : Z;
  u8_lower : Z;
  u8_upper : Z
}.

Definition utf8_init : utf8_state :=
  {| u8_codePoint := 0; u8_bytesSeen := 0; u8_bytesNeeded := 0;
     u8_lower := 0x80; u8_upper := 0xBF |}.

(** A lead byte handled in the initial state: the scalars emitted and the
    next state. *)
Definition utf8_lead (b : Z) : list Z * utf8_state :=
  if (0 <=? b) && (b <=? 0x7F) then ([b], utf8_init)
  else if (0xC2 <=? b) && (b <=? 0xDF) then
    ([], {| u8_codePoint := Z.land b 0x1F; u8_bytesSeen := 0;
            u8_bytesNeeded := 1; u8_lower := 0x80; u8_upper := 0xBF |})
  else if (0xE0 <=? b) && (b <=? 0xEF) then
    ([], {| u8_codePoint := Z.land b 0xF; u8_bytesSeen := 0;
            u8_bytesNeeded := 2;
            u8_lower := if b =? 0xE0 then 0xA0 else 0x80;
            u8_upper := if b =? 0xED then 0x9F else 0xBF |})
  else if (0xF0 <=? b) && (b <=? 0xF4) then
    ([], {| u8_codePoint := Z.land b 0x7; u8_bytesSeen := 0;
            u8_bytesNeeded := 3;
            u8_lower := if b =? 0xF0 then 0x90 else 0x80;
            u8_upper := if b =? 0xF4 then 0x8F else 0xBF |})
  else ([0xFFFD], utf8_init).

Definition utf8_step (st : utf8_state) (b : Z) : list Z * utf8_state :=
  if u8_bytesNeeded st =? 0 then utf8_lead b
  else if negb ((u8_lower st <=? b) && (b <=? u8_upper st)) then
    (* the byte is put back and read again in the initial state *)
    let '(out, st') := utf8_lead b in (0xFFFD :: out, st')
  else
    let cp := Z.lor (Z.shiftl (u8_codePoint st) 6) (Z.land b 0x3F) in
    if u8_bytesSeen st + 1 =? u8_bytesNeeded st then ([cp], utf8_init)
    else ([], {| u8_codePoint := cp; u8_bytesSeen := u8_bytesSeen st + 1;
                 u8_bytesNeeded := u8_bytesNeeded st;
                 u8_lower := 0x80; u8_upper := 0xBF |}).

Fixpoint utf8_run (st : utf8_state) (bytes : list Z) : list Z :=
  match bytes with
  | [] => if u8_bytesNeeded st =? 0 then [] else [0xFFFD]
  | b :: rest => let '(out, st') := utf8_step st b in out ++ utf8_run st' rest
  end.

Definition utf16_of_scalar (c : Z) : jsstring :=
  if c <? 0x10000 then [c]
  else [0xD800 + (c - 0x10000) / 0x400; 0xDC00 + (c - 0x10000) mod 0x400].

(** [new TextDecoder('utf-8', { fatal: false, ignoreBOM: true }).decode(b)].
    A decoder that is not fatal replaces malformed input by U+FFFD and
    never throws, so the [catch] arms of [readString] are never entered. *)
Definition TextDecoder_decode (bytes : list Z) : jsstring :=
  concat (map utf16_of_scalar (utf8_run utf8_init bytes)).

(** A string is encodable in UTF-8 when encoding loses nothing. *)
Definition utf8_encodable (s : jsstring) : Prop :=
  TextDecoder_decode (TextEncoder_encode s) = s.

(** ** constants.ts *)

Definition EXPA_MAGIC_BYTES : list Z := [0x45; 0x58; 0x50; 0x41].
Definition CHNK_MAGIC_BYTES : list Z := [0x43; 0x48; 0x4E; 0x4B].

(** ** types.ts *)

Inductive ColumnType := INT | STR | STRID.

Definition ColumnType_value (t : ColumnType) : Z :=
  match t with INT => 2 | STR => 7 | STRID => 8 end.

Inductive TypeName := tn_int | tn_str | tn_strID.

Record MbeColumn := {
  col_type : ColumnType;
  col_typeName : TypeName
}.

(** A cell is [number | string]. *)
Inductive cell :=
| CellNum (n : Z)
| CellStr (s : jsstring).

Record MbeRow := {
  row_id : jsstring;
  row_cells : list cell
}.

Record MbeSheet := {
  sheet_name : jsstring;
  sheet_columns : list MbeColumn;
  sheet_rows : list MbeRow;
  parsedExpaAreaSizePerRow : Z
}.

Record MbeFile := {
  sheets : list MbeSheet
}.

#[global] Instance ColumnType_eq_dec : EqDecision ColumnType.
Proof. solve_decision. Defined.
#[global] Instance TypeName_eq_dec : EqDecision TypeName.
Proof. solve_decision. Defined.
#[global] Instance MbeColumn_eq_dec : EqDecision MbeColumn.
Proof. solve_decision. Defined.
#[global] Instance cell_eq_dec : EqDecision cell.
Proof. solve_decision. Defined.

(** ** mbeGenerator.ts: [ArrayBufferWriter] *)

(** The writer keeps the pushed [Uint8Array]s.  Next to each one the model
    records which writer method pushed it; [toArrayBuffer] does not look
    at that tag. *)
Inductive chunk_kind := RawBytes | Uint32Field | Int32Field.

Record chunk := {
  chunk_kind_of : chunk_kind;
  chunk_bytes : list Z
}.

Record ArrayBufferWriter := {
  buffers : list chunk;
  currentOffset : Z
}.

Definition newWriter : ArrayBufferWriter :=
  {| buffers := []; currentOffset := 0 |}.

Definition getCurrentOffset (w : ArrayBufferWriter) : Z := currentOffset w.

Definition pushChunk (w : ArrayBufferWriter) (k : chunk_kind) (bytes : list Z)
  : ArrayBufferWriter :=
  {| buffers := buffers w ++ [ {| chunk_kind_of := k; chunk_bytes := bytes |} ];
     currentOffset := currentOffset w + byteLength bytes |}.

Definition writeBytes (w : ArrayBufferWriter) (bytes : list Z) : ArrayBufferWriter :=
  pushChunk w RawBytes bytes.

Definition writeUint32 (w : ArrayBufferWriter) (value : Z) : ArrayBufferWriter :=
  pushChunk w Uint32Field (le32 value).

Definition writeInt32 (w : ArrayBufferWriter) (value : Z) : ArrayBufferWriter :=
  pushChunk w Int32Field (le32 value).

Definition toArrayBuffer (w : ArrayBufferWriter) : list Z :=
  concat (map chunk_bytes (buffers w)).

(** ** mbeGenerator.ts: [generateMbeFile] *)

Record SheetStructureInfo := {
  originalName : jsstring;
  encodedNameBytes : list Z;
  columnTypes : list ColumnType;
  expaAreaSizePerRow : Z;
  rowCount : Z
}.

Record ChnkRawString := {
  targetExpaAbsoluteFileOffset : Z;
  encodedBytes : list Z
}.

Inductive GenWarning :=
| MismatchExpaStart (expected got : Z).

Definition isStringType (t : ColumnType) : bool :=
  match t with INT => false | STR | STRID => true end.

Definition cellWidth (t : ColumnType) : Z :=
  match t with INT => 4 | _ => 8 end.

Definition calculatedExpaAreaSizePerRow (columns : list MbeColumn) : Z :=
  fold_left (fun acc column => acc + cellWidth (col_type column)) columns 0.

(** The padding loop, written three times in the source (dry run, real
    header, pool entry).  [base] is the writer offset plus the width of
    the fields written before the data (4 for a name, 8 for a pool
    entry); the result is the final length of the data with its padding. *)
Fixpoint paddingLoop (candidates : list Z) (base sLen dflt : Z) : Z :=
  match candidates with
  | [] => dflt
  | totalNulls :: rest =>
      let prospective := sLen + totalNulls in
      if (base + prospective) mod 4 =? 0 then prospective
      else paddingLoop rest base sLen dflt
  end.

Definition lengthWithPadding (base sLen : Z) : Z :=
  paddingLoop [2; 3; 4; 5] base sLen (sLen + 2).

(** [new Uint8Array(finalLength)] with [set(encoded, 0)]. *)
Definition paddedBytes (finalLength : Z) (encoded : list Z) : list Z :=
  encoded ++ replicate (Z.to_nat (finalLength - byteLength encoded)) 0.

Definition undefined_string : jsstring :=
  [117; 110; 100; 101; 102; 105; 110; 101; 100].

Definition row_prefix : jsstring := [114; 111; 119; 45].
Definition dash : jsstring := [45].

Section Generator.

(** Coercions of the platform that the codec applies to a cell of the
    other kind: [Number(s)] followed by the conversion to a 32-bit
    integer of [setInt32], and [String(n)]. *)
Variable Number_of_string : jsstring -> Z.
Variable String_of_number : Z -> jsstring.

(** [String(cellValue)]; a missing cell is [undefined]. *)
Definition cellString (cellValue : option cell) : jsstring :=
  match cellValue with
  | Some (CellStr s) => s
  | Some (CellNum n) => String_of_number n
  | None => undefined_string
  end.

(** [Number(cellValue)] as [writeInt32] stores it; [Number(undefined)] is
    NaN, stored as 0. *)
Definition cellNumber (cellValue : option cell) : Z :=
  match cellValue with
  | Some (CellNum n) => n
  | Some (CellStr s) => Number_of_string s
  | None => 0
  end.

(** Phase 1. *)
Definition structureInfo (sheet : MbeSheet) : SheetStructureInfo :=
  {| originalName := sheet_name sheet;
     encodedNameBytes := TextEncoder_encode (sheet_name sheet);
     columnTypes := map col_type (sheet_columns sheet);
     expaAreaSizePerRow := calculatedExpaAreaSizePerRow (sheet_columns sheet);
     rowCount := Z.of_nat (length (sheet_rows sheet)) |}.

Definition writeColumnTypes (w : ArrayBufferWriter) (types : list ColumnType)
  : ArrayBufferWriter :=
  fold_left (fun w t => writeUint32 w (ColumnType_value t)) types w.

(** Sub-phase 2.1: one iteration of the dry run. *)
Definition preliminarySheet (w : ArrayBufferWriter) (info : SheetStructureInfo)
  : ArrayBufferWriter :=
  let sLen := byteLength (encodedNameBytes info) in
  let finalLen := lengthWithPadding (getCurrentOffset w + 4) sLen in
  let w := writeUint32 w finalLen in
  let w := writeBytes w (replicate (Z.to_nat finalLen) 0) in
  let w := writeUint32 w (Z.of_nat (length (columnTypes info))) in
  let w := writeColumnTypes w (columnTypes info) in
  let w := writeUint32 w (expaAreaSizePerRow info) in
  writeUint32 w (rowCount info).

Definition preliminaryHeaderWriter (infos : list SheetStructureInfo)
  : ArrayBufferWriter :=
  let w := writeBytes newWriter EXPA_MAGIC_BYTES in
  let w := writeUint32 w (Z.of_nat (length infos)) in
  fold_left preliminarySheet infos w.

(** Sub-phase 2.2: the real header of one sheet. *)
Definition writeSheetHeader (w : ArrayBufferWriter) (info : SheetStructureInfo)
  : ArrayBufferWriter :=
  let sLen := byteLength (encodedNameBytes info) in
  let finalLen := lengthWithPadding (getCurrentOffset w + 4) sLen in
  let w := writeUint32 w finalLen in
  let w := writeBytes w (paddedBytes finalLen (encodedNameBytes info)) in
  let w := writeUint32 w (Z.of_nat (length (columnTypes info))) in
  let w := writeColumnTypes w (columnTypes info) in
  let w := writeUint32 w (expaAreaSizePerRow info) in
  writeUint32 w (rowCount info).

(** The loop over the columns of one row that collects pool strings;
    [c] is the column index, [offset] is
    [currentCellAbsoluteExpaOffset]. *)
Fixpoint collectCells (columns : list MbeColumn) (c : nat) (cells : list cell)
    (offset : Z) (chnkRawStrings : list ChnkRawString) : list ChnkRawString :=
  match columns with
  | [] => chnkRawStrings
  | column :: columns' =>
      let cellValue := cells !! c in
      let chnkRawStrings' :=
        if isStringType (col_type column) then
          let strValue := cellString cellValue in
          if decide (strValue = []) then chnkRawStrings
          else chnkRawStrings ++
                 [ {| targetExpaAbsoluteFileOffset := offset;
                      encodedBytes := TextEncoder_encode strValue |} ]
        else chnkRawStrings in
      collectCells columns' (S c) cells
        (offset + (if decide (col_type column = INT) then 4 else 8))
        chnkRawStrings'
  end.

(** The loop over the rows of one sheet; [r] is the row index. *)
Fixpoint collectRows (columns : list MbeColumn) (areaSize sheetExpaDataStart : Z)
    (r : Z) (rows : list MbeRow) (chnkRawStrings : list ChnkRawString)
  : list ChnkRawString :=
  match rows with
  | [] => chnkRawStrings
  | row :: rows' =>
      collectRows columns areaSize sheetExpaDataStart (r + 1) rows'
        (collectCells columns 0 (row_cells row)
           (sheetExpaDataStart + r * areaSize) chnkRawStrings)
  end.

Record Phase2State := {
  p2_writer : ArrayBufferWriter;
  p2_chnkRawStrings : list ChnkRawString;
  p2_sheetExpaDataStartOffsets : list Z;
  p2_runningExpaOffsetTracker : Z
}.

Definition phase2Sheet (st : Phase2State) (si : MbeSheet * SheetStructureInfo)
  : Phase2State :=
  let '(sheet, info) := si in
  let w := writeSheetHeader (p2_writer st) info in
  let sheetExpaDataStart := p2_runningExpaOffsetTracker st in
  {| p2_writer := w;
     p2_chnkRawStrings :=
       collectRows (sheet_columns sheet) (expaAreaSizePerRow info)
         sheetExpaDataStart 0 (sheet_rows sheet) (p2_chnkRawStrings st);
     p2_sheetExpaDataStartOffsets :=
       p2_sheetExpaDataStartOffsets st ++ [sheetExpaDataStart];
     p2_runningExpaOffsetTracker :=
       p2_runningExpaOffsetTracker st
       + expaAreaSizePerRow info * rowCount info |}.

(** Phase 3: the structural cells of one row. *)
Fixpoint writeRowCells (w : ArrayBufferWriter) (columns : list MbeColumn)
    (c : nat) (cells : list cell) : ArrayBufferWriter :=
  match columns with
  | [] => w
  | column :: columns' =>
      let cellValue := cells !! c in
      let w' :=
        match col_type column with
        | INT => writeInt32 w (cellNumber cellValue)
        | STR | STRID => writeUint32 (writeUint32 w 0) 0
        end in
      writeRowCells w' columns' (S c) cells
  end.

Definition writeSheetRows (w : ArrayBufferWriter) (sheet : MbeSheet)
  : ArrayBufferWriter :=
  fold_left (fun w row => writeRowCells w (sheet_columns sheet) 0 (row_cells row))
    (sheet_rows sheet) w.

(** [chnkRawStrings.sort((a, b) => a.target - b.target)]: the sort of the
    platform is stable, so its result is that of a stable insertion
    sort. *)
Fixpoint insertByOffset (e : ChnkRawString) (l : list ChnkRawString)
  : list ChnkRawString :=
  match l with
  | [] => [e]
  | x :: l' =>
      if targetExpaAbsoluteFileOffset e <=? targetExpaAbsoluteFileOffset x
      then e :: x :: l'
      else x :: insertByOffset e l'
  end.

Definition sortByOffset (l : list ChnkRawString) : list ChnkRawString :=
  foldr insertByOffset [] l.

(** Phase 4: one pool entry. *)
Definition writeChnkEntry (w : ArrayBufferWriter) (rawEntry : ChnkRawString)
  : ArrayBufferWriter :=
  let sLen := byteLength (encodedBytes rawEntry) in
  let finalLen := lengthWithPadding (getCurrentOffset w + 8) sLen in
  let w := writeUint32 w (targetExpaAbsoluteFileOffset rawEntry) in
  let w := writeUint32 w finalLen in
  writeBytes w (paddedBytes finalLen (encodedBytes rawEntry)).

Definition writeChnkBlock (w : ArrayBufferWriter) (chnkRawStrings : list ChnkRawString)
  : ArrayBufferWriter :=
  if 0 <? Z.of_nat (length chnkRawStrings) then
    let w := writeBytes w CHNK_MAGIC_BYTES in
    let w := writeUint32 w (Z.of_nat (length chnkRawStrings)) in
    fold_left writeChnkEntry (sortByOffset chnkRawStrings) w
  else w.

(** Everything [generateMbeFile] computes, kept for the statements below. *)
Record GeneratorRun := {
  run_totalHeaderSize : Z;
  run_headerWriter : ArrayBufferWriter;     (* the writer when phase 2 ends *)
  run_chnkRawStrings : list ChnkRawString;  (* as collected, before the sort *)
  run_sheetExpaDataStartOffsets : list Z;
  run_warnings : list GenWarning;
  run_expaWriter : ArrayBufferWriter;       (* the writer when phase 3 ends *)
  run_writer : ArrayBufferWriter            (* the writer at the end *)
}.

Definition generateMbeFile_run (mbeFile : MbeFile) : GeneratorRun :=
  let sheetStructureInfos := map structureInfo (sheets mbeFile) in
  let writer := writeBytes newWriter EXPA_MAGIC_BYTES in
  let writer := writeUint32 writer (Z.of_nat (length (sheets mbeFile))) in
  let totalHeaderSize :=
    getCurrentOffset (preliminaryHeaderWriter sheetStructureInfos) in
  let expaDataMasterStartOffset := totalHeaderSize in
  let st :=
    fold_left phase2Sheet (zip (sheets mbeFile) sheetStructureInfos)
      {| p2_writer := writer; p2_chnkRawStrings := [];
         p2_sheetExpaDataStartOffsets := [];
         p2_runningExpaOffsetTracker := expaDataMasterStartOffset |} in
  let writer := p2_writer st in
  let warnings :=
    if decide (getCurrentOffset writer = expaDataMasterStartOffset) then []
    else [MismatchExpaStart expaDataMasterStartOffset (getCurrentOffset writer)] in
  let expaWriter := fold_left writeSheetRows (sheets mbeFile) writer in
  {| run_totalHeaderSize := totalHeaderSize;
     run_headerWriter := writer;
     run_chnkRawStrings := p2_chnkRawStrings st;
     run_sheetExpaDataStartOffsets := p2_sheetExpaDataStartOffsets st;
     run_warnings := warnings;
     run_expaWriter := expaWriter;
     run_writer := writeChnkBlock expaWriter (p2_chnkRawStrings st) |}.

Definition generateMbeFile (mbeFile : MbeFile) : list Z :=
  toArrayBuffer (run_writer (generateMbeFile_run mbeFile)).


End Generator.

(** ** mbeParser.ts *)

Inductive ParseError :=
| InvalidMagic
| UnknownColumnType (typeVal : Z) (sheetName : jsstring) (j : Z)
| InternalError (sheetName : jsstring)
| RangeError.

Inductive Warning :=
| ReadStringOutOfBounds (offset len viewLength : Z)
| ChnkMagicNotFound (searchedFrom : Z)
| ChnkHeaderTruncated (entry numChnkEntries : Z)
| ChnkTextBeyondEof (entry numChnkEntries target len dataOffset viewLength : Z)
| IntReadOutOfBounds (sheetName : jsstring) (r c offset : Z).

Inductive outcome (A : Type) :=
| Returned (a : A)
| Threw (e : ParseError).
Arguments Returned {A} a.
Arguments Threw {A} e.

(** A computation of the parser: the warnings it logged, in order, and
    how it ended. *)
Definition M (A : Type) : Type := list Warning * outcome A.

Definition ret {A} (a : A) : M A := ([], Returned a).
Definition throw {A} (e : ParseError) : M A := ([], Threw e).
Definition warn (w : Warning) : M unit := ([w], Returned tt).

Definition bind {A B} (m : M A) (k : A -> M B) : M B :=
  match m with
  | (log, Returned a) => let '(log', r) := k a in (log ++ log', r)
  | (log, Threw e) => (log, Threw e)
  end.

Notation "x <<- m ;; k" := (bind m (fun x => k))
  (at level 100, m at next level, right associativity).
Notation "m ;;; k" := (bind m (fun _ => k))
  (at level 100, right associativity).

(** [DataView] getters throw a [RangeError] outside the view. *)
Definition inView (buf : list Z) (offset width : Z) : bool :=
  (0 <=? offset) && (offset + width <=? byteLength buf).

Definition getUint8 (view : list Z) (offset : Z) : M Z :=
  if inView view offset 1 then ret (byteAt view offset) else throw RangeError.

Definition getUint32 (view : list Z) (offset : Z) : M Z :=
  if inView view offset 4 then ret (le32_value view offset) else throw RangeError.

Definition getInt32 (view : list Z) (offset : Z) : M Z :=
  if inView view offset 4 then ret (toInt32 (le32_value view offset))
  else throw RangeError.

(** The scan of [readString] for the first NUL: the index found, or the
    length of the buffer. *)
Fixpoint actualLength (buffer : list Z) : Z :=
  match buffer with
  | [] => 0
  | b :: rest => if b =? 0 then 0 else 1 + actualLength rest
  end.

Definition readString (view : list Z) (offset len : Z) : M jsstring :=
  if len =? 0 then ret []
  else if (offset <? 0) || (byteLength view <? offset + len) then
    warn (ReadStringOutOfBounds offset len (byteLength view)) ;;; ret []
  else
    let effectiveLength := Z.min len (byteLength view - offset) in
    if effectiveLength <=? 0 then ret []
    else
      let buffer := slice view offset effectiveLength in
      let relevantBuffer := take (Z.to_nat (actualLength buffer)) buffer in
      ret (TextDecoder_decode relevantBuffer).

(** The inner loop of [findMagic]: does [magicBytes] match at [i]? *)
Fixpoint magicAt (view magicBytes : list Z) (i : Z) : M bool :=
  match magicBytes with
  | [] => ret true
  | m :: rest =>
      b <<- getUint8 view i ;;
      if b =? m then magicAt view rest (i + 1) else ret false
  end.

(** The outer loop of [findMagic], with the number of positions left to
    try. *)
Fixpoint findMagicLoop (positions : nat) (view magicBytes : list Z) (i : Z) : M Z :=
  match positions with
  | O => ret (-1)
  | S positions' =>
      found <<- magicAt view magicBytes i ;;
      if found : bool then ret i
      else findMagicLoop positions' view magicBytes (i + 1)
  end.

Definition findMagic (view magicBytes : list Z) (startOffset : Z) : M Z :=
  findMagicLoop
    (Z.to_nat (byteLength view - byteLength magicBytes - startOffset + 1))
    view magicBytes startOffset.

Record SheetHeader := {
  h_name : jsstring;
  h_columns : list MbeColumn;
  h_expaAreaSizePerRow : Z;
  h_expaRowCount : Z;
  h_sheetExpaDataStartOffset : option Z
}.

Record ChnkEntry := {
  chnk_text : jsstring;
  originalChnkLength : Z
}.

Fixpoint verifyMagic (view magicBytes : list Z) (i : Z) : M unit :=
  match magicBytes with
  | [] => ret tt
  | m :: rest =>
      b <<- getUint8 view i ;;
      if b =? m then verifyMagic view rest (i + 1) else throw InvalidMagic
  end.

Definition columnOfType (typeVal : Z) (sheetName : jsstring) (j : Z) : M MbeColumn :=
  if typeVal =? 2 then ret {| col_type := INT; col_typeName := tn_int |}
  else if typeVal =? 7 then ret {| col_type := STR; col_typeName := tn_str |}
  else if typeVal =? 8 then ret {| col_type := STRID; col_typeName := tn_strID |}
  else throw (UnknownColumnType typeVal sheetName j).

(** The loop over the column tags of one header; [n] iterations are left,
    [j] is the column index. *)
Fixpoint readColumns (n : nat) (view : list Z) (sheetName : jsstring) (j : Z)
    (currentGlobalOffset : Z) (columns : list MbeColumn) : M (list MbeColumn * Z) :=
  match n with
  | O => ret (columns, currentGlobalOffset)
  | S n' =>
      typeVal <<- getUint32 view currentGlobalOffset ;;
      column <<- columnOfType typeVal sheetName j ;;
      readColumns n' view sheetName (j + 1) (currentGlobalOffset + 4)
        (columns ++ [column])
  end.

Definition readSheetHeader (view : list Z) (currentGlobalOffset : Z)
  : M (SheetHeader * Z) :=
  sheetNameLength <<- getUint32 view currentGlobalOffset ;;
  let currentGlobalOffset := currentGlobalOffset + 4 in
  sheetName <<- readString view currentGlobalOffset sheetNameLength ;;
  let currentGlobalOffset := currentGlobalOffset + sheetNameLength in
  columnCount <<- getUint32 view currentGlobalOffset ;;
  let currentGlobalOffset := currentGlobalOffset + 4 in
  read <<- readColumns (Z.to_nat columnCount) view sheetName 0 currentGlobalOffset [] ;;
  let '(columns, currentGlobalOffset) := read in
  expaAreaSizePerRow <<- getUint32 view currentGlobalOffset ;;
  let currentGlobalOffset := currentGlobalOffset + 4 in
  expaRowCount <<- getUint32 view currentGlobalOffset ;;
  let currentGlobalOffset := currentGlobalOffset + 4 in
  ret ({| h_name := sheetName; h_columns := columns;
          h_expaAreaSizePerRow := expaAreaSizePerRow;
          h_expaRowCount := expaRowCount;
          h_sheetExpaDataStartOffset := None |},
       currentGlobalOffset).

(** Pass 1; [n] sheets are left to read. *)
Fixpoint readSheetHeaders (n : nat) (view : list Z) (currentGlobalOffset : Z)
    (sheetHeaderData : list SheetHeader) : M (list SheetHeader * Z) :=
  match n with
  | O => ret (sheetHeaderData, currentGlobalOffset)
  | S n' =>
      read <<- readSheetHeader view currentGlobalOffset ;;
      let '(header, currentGlobalOffset) := read in
      readSheetHeaders n' view currentGlobalOffset (sheetHeaderData ++ [header])
  end.

(** The loop that assigns [sheetExpaDataStartOffset]. *)
Fixpoint assignStartOffsets (sheetHeaderData : list SheetHeader)
    (runningExpaOffset : Z) : list SheetHeader * Z :=
  match sheetHeaderData with
  | [] => ([], runningExpaOffset)
  | h :: rest =>
      let h' := {| h_name := h_name h; h_columns := h_columns h;
                   h_expaAreaSizePerRow := h_expaAreaSizePerRow h;
                   h_expaRowCount := h_expaRowCount h;
                   h_sheetExpaDataStartOffset := Some runningExpaOffset |} in
      let '(rest', final) :=
        assignStartOffsets rest
          (runningExpaOffset + h_expaAreaSizePerRow h * h_expaRowCount h) in
      (h' :: rest', final)
  end.

(** Pass 2: the loop over the pool entries; [n] entries are left, [i] is
    the entry index. *)
Fixpoint readChnkEntries (n : nat) (view : list Z) (numChnkEntries i chnkOffset : Z)
    (chnkLookupMap : gmap Z ChnkEntry) : M (gmap Z ChnkEntry) :=
  match n with
  | O => ret chnkLookupMap
  | S n' =>
      if byteLength view <? chnkOffset + 8 then
        warn (ChnkHeaderTruncated (i + 1) numChnkEntries) ;;;
        ret chnkLookupMap
      else
        targetExpaCellAbsoluteFileOffset <<- getUint32 view chnkOffset ;;
        textLengthIncludingNulls <<- getUint32 view (chnkOffset + 4) ;;
        let textActualDataFileOffset := chnkOffset + 8 in
        if byteLength view <? textActualDataFileOffset + textLengthIncludingNulls then
          warn (ChnkTextBeyondEof (i + 1) numChnkEntries
                  targetExpaCellAbsoluteFileOffset textLengthIncludingNulls
                  textActualDataFileOffset (byteLength view)) ;;;
          let chnkOffset := chnkOffset + (8 + textLengthIncludingNulls) in
          let chnkOffset :=
            if byteLength view <? chnkOffset then byteLength view else chnkOffset in
          readChnkEntries n' view numChnkEntries (i + 1) chnkOffset chnkLookupMap
        else
          text <<- readString view textActualDataFileOffset textLengthIncludingNulls ;;
          readChnkEntries n' view numChnkEntries (i + 1)
            (chnkOffset + (8 + textLengthIncludingNulls))
            (<[ targetExpaCellAbsoluteFileOffset :=
                  {| chnk_text := text;
                     originalChnkLength := textLengthIncludingNulls |} ]>
               chnkLookupMap)
  end.

Definition readChnk (view : list Z) (chnkSearchStartOffset : Z)
  : M (gmap Z ChnkEntry) :=
  chnkMagicOffset <<- findMagic view CHNK_MAGIC_BYTES chnkSearchStartOffset ;;
  if chnkMagicOffset =? -1 then
    warn (ChnkMagicNotFound chnkSearchStartOffset) ;;; ret ∅
  else
    let chnkOffset := chnkMagicOffset + byteLength CHNK_MAGIC_BYTES in
    numChnkEntries <<- getUint32 view chnkOffset ;;
    readChnkEntries (Z.to_nat numChnkEntries) view numChnkEntries 0
      (chnkOffset + 4) ∅.

(** Pass 3: the loop over the columns of one row. *)
Fixpoint readCells (view : list Z) (chnkLookupMap : gmap Z ChnkEntry)
    (sheetName : jsstring) (r : Z) (columns : list MbeColumn) (c : Z)
    (rowBaseFileOffset currentOffsetWithinRow : Z) (cells : list cell)
  : M (list cell) :=
  match columns with
  | [] => ret cells
  | column :: columns' =>
      let absoluteCellExpaFileOffset := rowBaseFileOffset + currentOffsetWithinRow in
      match col_type column with
      | INT =>
          value <<-
            (if byteLength view <? absoluteCellExpaFileOffset + 4 then
               warn (IntReadOutOfBounds sheetName r c absoluteCellExpaFileOffset) ;;;
               ret 0
             else getInt32 view absoluteCellExpaFileOffset) ;;
          readCells view chnkLookupMap sheetName r columns' (c + 1)
            rowBaseFileOffset (currentOffsetWithinRow + 4)
            (cells ++ [CellNum value])
      | STR | STRID =>
          let text :=
            match chnkLookupMap !! absoluteCellExpaFileOffset with
            | Some chnkEntry => chnk_text chnkEntry
            | None => []
            end in
          readCells view chnkLookupMap sheetName r columns' (c + 1)
            rowBaseFileOffset (currentOffsetWithinRow + 8)
            (cells ++ [CellStr text])
      end
  end.

Section Parser.

(** [String(n)] of the platform, used in the identity token of a row. *)
Variable String_of_number : Z -> jsstring.
(** [Date.now()] as observed when row [r] of sheet [i] is built. *)
Variable Date_now : Z -> Z -> Z.

Definition rowId (i r : Z) : jsstring :=
  row_prefix ++ String_of_number i ++ dash ++ String_of_number r ++ dash
    ++ String_of_number (Date_now i r).

(** The loop over the rows of one sheet; [n] rows are left. *)
Fixpoint readRows (n : nat) (view : list Z) (chnkLookupMap : gmap Z ChnkEntry)
    (i : Z) (header : SheetHeader) (start : Z) (r : Z) (rows : list MbeRow)
  : M (list MbeRow) :=
  match n with
  | O => ret rows
  | S n' =>
      let rowBaseFileOffset := start + r * h_expaAreaSizePerRow header in
      cells <<- readCells view chnkLookupMap (h_name header) r (h_columns header)
                  0 rowBaseFileOffset 0 [] ;;
      readRows n' view chnkLookupMap i header start (r + 1)
        (rows ++ [ {| row_id := rowId i r; row_cells := cells |} ])
  end.

(** The loop over the sheets; [i] is the sheet index. *)
Fixpoint readSheets (view : list Z) (chnkLookupMap : gmap Z ChnkEntry)
    (sheetHeaderData : list SheetHeader) (i : Z) (mbeSheets : list MbeSheet)
  : M (list MbeSheet) :=
  match sheetHeaderData with
  | [] => ret mbeSheets
  | header :: rest =>
      match h_sheetExpaDataStartOffset header with
      | None => throw (InternalError (h_name header))
      | Some start =>
          rows <<- readRows (Z.to_nat (h_expaRowCount header)) view chnkLookupMap
                     i header start 0 [] ;;
          readSheets view chnkLookupMap rest (i + 1)
            (mbeSheets ++
               [ {| sheet_name := h_name header;
                    sheet_columns := h_columns header;
                    sheet_rows := rows;
                    parsedExpaAreaSizePerRow := h_expaAreaSizePerRow header |} ])
      end
  end.

Definition parseMbeFile (arrayBuffer : list Z) : M MbeFile :=
  let view := arrayBuffer in
  let offset := 0 in
  verifyMagic view EXPA_MAGIC_BYTES offset ;;;
  let offset := offset + byteLength EXPA_MAGIC_BYTES in
  sheetCount <<- getUint32 view offset ;;
  let offset := offset + 4 in
  read <<- readSheetHeaders (Z.to_nat sheetCount) view offset [] ;;
  let '(sheetHeaderData, currentGlobalOffset) := read in
  let expaDataBlocksStartOffset := currentGlobalOffset in
  let '(sheetHeaderData, runningExpaOffset) :=
    assignStartOffsets sheetHeaderData expaDataBlocksStartOffset in
  let chnkSearchStartOffset := runningExpaOffset in
  chnkLookupMap <<- readChnk view chnkSearchStartOffset ;;
  mbeSheets <<- readSheets view chnkLookupMap sheetHeaderData 0 [] ;;
  ret {| sheets := mbeSheets |}.

End Parser.

(** ** components/SheetTable.tsx and App.tsx: the editor's operations on
       the model *)

Definition quoteChar : Z := 34.
Definition commaChar : Z := 44.
Definition lfChar : Z := 10.
Definition crChar : Z := 13.

(** [s.includes(ch)] for a string [ch] of one code unit. *)
Definition includes (s : jsstring) (ch : Z) : bool := existsb (Z.eqb ch) s.

(** [s.replace] of every double quote by two double quotes. *)
Fixpoint doubleQuotes (s : jsstring) : jsstring :=
  match s with
  | [] => []
  | u :: rest =>
      if u =? quoteChar then quoteChar :: quoteChar :: doubleQuotes rest
      else u :: doubleQuotes rest
  end.

(** [parts.join(sep)]. *)
Fixpoint join (sep : jsstring) (parts : list jsstring) : jsstring :=
  match parts with
  | [] => []
  | [part] => part
  | part :: rest => part ++ sep ++ join sep rest
  end.

(** The code units [String.prototype.trim] strips: white space and line
    terminators. *)
Definition isWhiteSpace (u : Z) : bool :=
  ((9 <=? u) && (u <=? 13)) || (u =? 32) || (u =? 160) || (u =? 5760)
  || ((8192 <=? u) && (u <=? 8202)) || (u =? 8232) || (u =? 8233)
  || (u =? 8239) || (u =? 8287) || (u =? 12288) || (u =? 65279).

Fixpoint trimStart (s : jsstring) : jsstring :=
  match s with
  | [] => []
  | u :: rest => if isWhiteSpace u then trimStart rest else s
  end.

Definition trimEnd (s : jsstring) : jsstring := reverse (trimStart (reverse s)).

(** [s.trim()]. *)
Definition trim (s : jsstring) : jsstring := trimEnd (trimStart s).

(** The labels of the column types. *)
Definition TypeName_string (typeName : TypeName) : jsstring :=
  match typeName with
  | tn_int => [105; 110; 116]
  | tn_str => [115; 116; 114]
  | tn_strID => [115; 116; 114; 73; 68]
  end.

Definition new_row_prefix : jsstring := [110; 101; 119; 45; 114; 111; 119; 45].
Definition csv_row_prefix : jsstring := [99; 115; 118; 45; 114; 111; 119; 45].
Definition col_prefix : jsstring := [67; 111; 108; 32].
Definition col_open : jsstring := [32; 40].
Definition col_close : jsstring := [41].
Definition sheet_data : jsstring := [115; 104; 101; 101; 116; 95; 100; 97; 116; 97].

(** How an edit of the table ends.  [EditTypeError] is the [TypeError]
    of reading [type] of a column that does not exist.  [EditSparse]
    stands for an assignment beyond the end of the cells of a row, which
    leaves holes in the array: the rows of the model have no holes, and
    the model follows the edit no further. *)
Inductive Edit (A : Type) :=
| Edited (a : A)
| EditTypeError
| EditSparse.
Arguments Edited {A} a.
Arguments EditTypeError {A}.
Arguments EditSparse {A}.

Definition edit_bind {A B} (m : Edit A) (k : A -> Edit B) : Edit B :=
  match m with
  | Edited a => k a
  | EditTypeError => EditTypeError
  | EditSparse => EditSparse
  end.

(** [newCells[cellIndex] = value] on a copy of the cells. *)
Definition assignCell (cells : list cell) (cellIndex : nat) (value : cell)
  : Edit (list cell) :=
  if decide (cellIndex < length cells)%nat then Edited (<[cellIndex := value]> cells)
  else if decide (cellIndex = length cells) then Edited (cells ++ [value])
  else EditSparse.

(** [rows.filter((_, idx) => idx !== rowIndex)], from index [idx] on. *)
Fixpoint filterRows (rows : list MbeRow) (idx rowIndex : nat) : list MbeRow :=
  match rows with
  | [] => []
  | row :: rest =>
      if decide (idx <> rowIndex) then row :: filterRows rest (S idx) rowIndex
      else filterRows rest (S idx) rowIndex
  end.

(** [sheet.name.replace(/[^a-z0-9_.-]/gi, '_')]: what the class keeps. *)
Definition isSafeNameChar (u : Z) : bool :=
  ((97 <=? u) && (u <=? 122)) || ((65 <=? u) && (u <=? 90))
  || ((48 <=? u) && (u <=? 57)) || (u =? 95) || (u =? 46) || (u =? 45).

Definition safeSheetName (name : jsstring) : jsstring :=
  let replaced := map (fun u => if isSafeNameChar u then u else 95) name in
  match replaced with
  | [] => sheet_data
  | _ => replaced
  end.

(** [row.length > 0 && row.some(cell => cell.length > 0)]. *)
Definition rowHasData (row : list jsstring) : bool :=
  (0 <? Z.of_nat (length row))
  && existsb (fun cell => 0 <? Z.of_nat (length cell)) row.

(** The loop of [parseCsvContent] over the code units of the text, from
    the current one on; the result is the state when the text ends.  A
    step that skips the next code unit ([i++]) recurses on the text
    after it. *)
Fixpoint parseCsvLoop (csvText : jsstring) (rows : list (list jsstring))
    (currentRow : list jsstring) (inQuotes : bool) (currentValue : jsstring)
  : list (list jsstring) * list jsstring * jsstring :=
  match csvText with
  | [] => (rows, currentRow, currentValue)
  | char :: rest =>
      if char =? quoteChar then
        match rest with
        | next :: rest' =>
            if inQuotes && (next =? quoteChar) then
              parseCsvLoop rest' rows currentRow inQuotes (currentValue ++ [quoteChar])
            else parseCsvLoop rest rows currentRow (negb inQuotes) currentValue
        | [] => parseCsvLoop rest rows currentRow (negb inQuotes) currentValue
        end
      else if (char =? commaChar) && negb inQuotes then
        parseCsvLoop rest rows (currentRow ++ [trim currentValue]) inQuotes []
      else if ((char =? lfChar) || (char =? crChar)) && negb inQuotes then
        let rows' :=
          if (0 <? Z.of_nat (length currentValue)) || (0 <? Z.of_nat (length currentRow))
          then rows ++ [currentRow ++ [trim currentValue]]
          else rows in
        match rest with
        | next :: rest' =>
            if (next =? lfChar) && (char =? crChar)
            then parseCsvLoop rest' rows' [] inQuotes []
            else parseCsvLoop rest rows' [] inQuotes []
        | [] => parseCsvLoop rest rows' [] inQuotes []
        end
      else parseCsvLoop rest rows currentRow inQuotes (currentValue ++ [char])
  end.

(** App.tsx: [parseCsvContent]. *)
Definition parseCsvContent (csvText : jsstring) : list (list jsstring) :=
  let '(rows, currentRow, currentValue) := parseCsvLoop csvText [] [] false [] in
  let rows :=
    if (0 <? Z.of_nat (length currentValue)) || (0 <? Z.of_nat (length currentRow))
    then rows ++ [currentRow ++ [trim currentValue]]
    else rows in
  List.filter rowHasData rows.

(** App.tsx: the state update of [handleSheetDataChange]; [None] is the
    state without a file. *)
Definition handleSheetDataChange (activeSheetIndex : nat) (updatedSheet : MbeSheet)
    (prevMbeFile : option MbeFile) : option MbeFile :=
  match prevMbeFile with
  | None => None
  | Some prevMbeFile =>
      Some {| sheets :=
                imap (fun index sheet =>
                        if decide (index = activeSheetIndex) then updatedSheet else sheet)
                  (sheets prevMbeFile) |}
  end.

(** What [handleCsvImport] throws, and what it leaves in the error
    state. *)
Inductive CsvImportError :=
| CsvEmpty
| CsvHeaderColumnCount (got expected : nat)
| CsvDataColumnCount (got expected : nat).

Inductive ImportNotice :=
| NoticeHeaderOnly
| NoticeError (e : CsvImportError).

(** How [handleCsvImport] ends: it returns at once, or it runs its [try]
    block and leaves a file and an error state. *)
Inductive ImportResult :=
| ImportSkipped
| ImportFinished (mbeFile : MbeFile) (error : option ImportNotice).

Section Editor.

(** [String(n)], and [parseInt(s, 10)] with [None] for NaN.  The cells
    of the model hold integers: a digit string so long that [parseInt]
    gives [Infinity] is outside it. *)
Variable String_of_number : Z -> jsstring.
Variable parseInt10 : jsstring -> option Z.

(** [String(value)] for a cell. *)
Definition String_of_cell (value : cell) : jsstring :=
  match value with
  | CellNum n => String_of_number n
  | CellStr s => s
  end.

(** SheetTable.tsx: [formatCsvCell]. *)
Definition formatCsvCell (value : cell) : jsstring :=
  let strValue := String_of_cell value in
  if includes strValue commaChar || includes strValue lfChar
     || includes strValue quoteChar
  then [quoteChar] ++ doubleQuotes strValue ++ [quoteChar]
  else strValue.

(** The cell [handleCellChange] stores under a column; the value enters
    only through [String(value)], here [valueText]. *)
Definition changedCell (columnType : ColumnType) (valueText : jsstring) : cell :=
  match columnType with
  | INT => CellNum (default 0 (parseInt10 valueText))
  | STR | STRID => CellStr valueText
  end.

(** The callback of [sheet.rows.map] in [handleCellChange], from row
    index [rIdx] on. *)
Fixpoint changeRows (columns : list MbeColumn) (rows : list MbeRow) (rIdx : nat)
    (rowIndex cellIndex : nat) (valueText : jsstring) : Edit (list MbeRow) :=
  match rows with
  | [] => Edited []
  | row :: rest =>
      edit_bind
        (if decide (rIdx = rowIndex) then
           match columns !! cellIndex with
           | None => EditTypeError
           | Some column =>
               edit_bind
                 (assignCell (row_cells row) cellIndex
                    (changedCell (col_type column) valueText))
                 (fun newCells =>
                    Edited {| row_id := row_id row; row_cells := newCells |})
           end
         else Edited row)
        (fun row' =>
           edit_bind (changeRows columns rest (S rIdx) rowIndex cellIndex valueText)
             (fun rest' => Edited (row' :: rest')))
  end.

(** SheetTable.tsx: [handleCellChange]; the result is the sheet passed
    to [onSheetDataChange]. *)
Definition handleCellChange (sheet : MbeSheet) (rowIndex cellIndex : nat)
    (valueText : jsstring) : Edit MbeSheet :=
  edit_bind
    (changeRows (sheet_columns sheet) (sheet_rows sheet) 0 rowIndex cellIndex valueText)
    (fun newRows =>
       Edited {| sheet_name := sheet_name sheet;
                 sheet_columns := sheet_columns sheet;
                 sheet_rows := newRows;
                 parsedExpaAreaSizePerRow := parsedExpaAreaSizePerRow sheet |}).

(** SheetTable.tsx: [addRow]; [now] is what [Date.now()] returns. *)
Definition addRow (now : Z) (sheet : MbeSheet) : MbeSheet :=
  let newRowCells :=
    map (fun col => match col_type col with
                    | INT => CellNum 0
                    | STR | STRID => CellStr []
                    end)
      (sheet_columns sheet) in
  let newRow := {| row_id := new_row_prefix ++ String_of_number now;
                   row_cells := newRowCells |} in
  {| sheet_name := sheet_name sheet;
     sheet_columns := sheet_columns sheet;
     sheet_rows := sheet_rows sheet ++ [newRow];
     parsedExpaAreaSizePerRow := parsedExpaAreaSizePerRow sheet |}.

(** SheetTable.tsx: [deleteRow]. *)
Definition deleteRow (rowIndex : nat) (sheet : MbeSheet) : MbeSheet :=
  {| sheet_name := sheet_name sheet;
     sheet_columns := sheet_columns sheet;
     sheet_rows := filterRows (sheet_rows sheet) 0 rowIndex;
     parsedExpaAreaSizePerRow := parsedExpaAreaSizePerRow sheet |}.

(** SheetTable.tsx: the text [handleExportCsv] puts in the file it
    offers for download. *)
Definition columnLabel (idx : nat) (col : MbeColumn) : jsstring :=
  col_prefix ++ String_of_number (Z.of_nat idx + 1) ++ col_open
    ++ TypeName_string (col_typeName col) ++ col_close.

Definition handleExportCsv (sheet : MbeSheet) : jsstring :=
  let headers := imap columnLabel (sheet_columns sheet) in
  let csvRows :=
    join [commaChar] (map (fun header => formatCsvCell (CellStr header)) headers)
    :: map (fun row => join [commaChar] (map formatCsvCell (row_cells row)))
         (sheet_rows sheet) in
  join [crChar; lfChar] csvRows.

(** App.tsx: the cell [handleCsvImport] builds under a column from the
    cell of the CSV row, [None] when the row is too short. *)
Definition importedCell (colSchema : MbeColumn) (csvCell : option jsstring) : cell :=
  match col_type colSchema with
  | INT =>
      CellNum (match csvCell with
               | Some text => default 0 (parseInt10 text)
               | None => 0
               end)
  | STR | STRID => CellStr (default [] csvCell)
  end.

Definition importedRows (now : nat -> Z) (columns : list MbeColumn)
    (dataRows : list (list jsstring)) : list MbeRow :=
  imap (fun rIdx csvRow =>
          {| row_id := csv_row_prefix ++ String_of_number (now rIdx) ++ dash
                         ++ String_of_number (Z.of_nat rIdx);
             row_cells :=
               imap (fun cIdx colSchema => importedCell colSchema (csvRow !! cIdx))
                 columns |})
    dataRows.

(** The file with the rows of its sheet [activeSheetIndex] replaced. *)
Definition withRows (mbeFile : MbeFile) (activeSheetIndex : nat) (rows : list MbeRow)
  : MbeFile :=
  {| sheets :=
       alter (fun sheet =>
                {| sheet_name := sheet_name sheet;
                   sheet_columns := sheet_columns sheet;
                   sheet_rows := rows;
                   parsedExpaAreaSizePerRow := parsedExpaAreaSizePerRow sheet |})
         activeSheetIndex (sheets mbeFile) |}.

(** App.tsx: [handleCsvImport] on the text of the chosen file; [mbeFile]
    is the file in the state, which no other update changes meanwhile,
    and [now rIdx] is what [Date.now()] returns for row [rIdx]. *)
Definition handleCsvImport (now : nat -> Z) (mbeFile : option MbeFile)
    (activeSheetIndex : nat) (text : jsstring) : ImportResult :=
  match mbeFile with
  | None => ImportSkipped
  | Some mbeFile =>
      match sheets mbeFile !! activeSheetIndex with
      | None => ImportSkipped
      | Some currentSheetSchema =>
          let columns := sheet_columns currentSheetSchema in
          match parseCsvContent text with
          | [] => ImportFinished mbeFile (Some (NoticeError CsvEmpty))
          | header :: dataRows =>
              match dataRows with
              | [] =>
                  ImportFinished (withRows mbeFile activeSheetIndex [])
                    (Some (if decide (length header <> length columns)
                           then NoticeError
                                  (CsvHeaderColumnCount (length header) (length columns))
                           else NoticeHeaderOnly))
              | first :: _ =>
                  if decide (length first <> length columns) then
                    ImportFinished mbeFile
                      (Some (NoticeError
                               (CsvDataColumnCount (length first) (length columns))))
                  else
                    ImportFinished
                      (withRows mbeFile activeSheetIndex
                         (importedRows now columns dataRows))
                      None
              end
          end
      end
  end.

End Editor.

(** ** Definitions used to state the properties *)

From Stdlib Require Import Sorted.

(** The writer's offset counter agrees with the bytes it holds. *)
Definition writer_ok (w : ArrayBufferWriter) : Prop :=
  currentOffset w = byteLength (toArrayBuffer w).

(** The byte offset, in the concatenated output, of the [i]-th pushed
    buffer. *)
Definition chunkOffset (chunks : list chunk) (i : nat) : Z :=
  byteLength (concat (map chunk_bytes (take i chunks))).

(** Every buffer pushed by [writeUint32] or [writeInt32] starts at a
    multiple of 4. *)
Definition fieldsAligned (chunks : list chunk) : Prop :=
  forall (i : nat) (c : chunk),
    chunks !! i = Some c ->
    chunk_kind_of c <> RawBytes ->
    chunkOffset chunks i mod 4 = 0.

Definition mkChunk (k : chunk_kind) (bytes : list Z) : chunk :=
  {| chunk_kind_of := k; chunk_bytes := bytes |}.

(** The padding rule in the words of the specification: [N] is the
    smallest value in 2..5 for which the offset after the data,
    [base + L + N], is a multiple of 4, and 2 when there is none. *)
Definition paddingRule (base L N : Z) : Prop :=
  2 <= N <= 5 /\
  ((exists n, 2 <= n <= 5 /\ (base + L + n) mod 4 = 0) ->
     (base + L + N) mod 4 = 0 /\
     forall n, 2 <= n < N -> (base + L + n) mod 4 <> 0) /\
  ((forall n, 2 <= n <= 5 -> (base + L + n) mod 4 <> 0) -> N = 2).

(** A writer that is consistent, has all its integer fields aligned and
    stands at a multiple of 4. *)
Definition wAligned (w : ArrayBufferWriter) : Prop :=
  writer_ok w /\ fieldsAligned (buffers w).

Definition wAligned4 (w : ArrayBufferWriter) : Prop :=
  wAligned w /\ currentOffset w mod 4 = 0.

Definition chunksLength (cs : list chunk) : Z :=
  byteLength (concat (map chunk_bytes cs)).

(** The writer after some more buffers have been pushed. *)
Definition appendChunks (w : ArrayBufferWriter) (cs : list chunk) : ArrayBufferWriter :=
  {| buffers := buffers w ++ cs;
     currentOffset := currentOffset w + chunksLength cs |}.

(** The buffers one sheet header pushes on a writer that stands at
    [off]; [nameData] gives the name data for the chosen padded length
    (zeros in the dry run, the padded name in the real pass). *)
Definition sheetHeaderChunks (nameData : Z -> list Z) (off : Z)
    (info : SheetStructureInfo) : list chunk :=
  let sLen := byteLength (encodedNameBytes info) in
  let finalLen := lengthWithPadding (off + 4) sLen in
  [ mkChunk Uint32Field (le32 finalLen);
    mkChunk RawBytes (nameData finalLen);
    mkChunk Uint32Field (le32 (Z.of_nat (length (columnTypes info)))) ]
  ++ map (fun t => mkChunk Uint32Field (le32 (ColumnType_value t))) (columnTypes info)
  ++ [ mkChunk Uint32Field (le32 (expaAreaSizePerRow info));
       mkChunk Uint32Field (le32 (rowCount info)) ].

Arguments sheetHeaderChunks : simpl never.

Definition realNameData (info : SheetStructureInfo) (finalLen : Z) : list Z :=
  paddedBytes finalLen (encodedNameBytes info).

Definition dryNameData (finalLen : Z) : list Z :=
  replicate (Z.to_nat finalLen) 0.

(** The size of a sheet header written at [off]. *)
Definition sheetHeaderSize (off : Z) (info : SheetStructureInfo) : Z :=
  4 + lengthWithPadding (off + 4) (byteLength (encodedNameBytes info))
  + 4 + 4 * Z.of_nat (length (columnTypes info)) + 8.

(** The offset after the headers of [infos] written from [off]. *)
Fixpoint headersEnd (off : Z) (infos : list SheetStructureInfo) : Z :=
  match infos with
  | [] => off
  | info :: rest => headersEnd (off + sheetHeaderSize off info) rest
  end.

(** The buffers all real sheet headers push, from offset [off]. *)
Fixpoint headersChunks (off : Z) (infos : list SheetStructureInfo) : list chunk :=
  match infos with
  | [] => []
  | info :: rest =>
      sheetHeaderChunks (realNameData info) off info
      ++ headersChunks (off + sheetHeaderSize off info) rest
  end.

(** Two pushed buffers of the dry run and of the real pass correspond:
    same writer method, same size, and the same bytes unless they are
    the name data. *)
Definition sameShape (c c' : chunk) : Prop :=
  chunk_kind_of c = chunk_kind_of c' /\
  length (chunk_bytes c) = length (chunk_bytes c') /\
  (chunk_kind_of c <> RawBytes -> c = c').

(** The sum of the cell widths of a list of columns. *)
Fixpoint rowWidth (columns : list MbeColumn) : Z :=
  match columns with
  | [] => 0
  | column :: columns' => cellWidth (col_type column) + rowWidth columns'
  end.

(** The structural size of the rows of a list of sheets. *)
Fixpoint expaSize (sheets : list MbeSheet) : Z :=
  match sheets with
  | [] => 0
  | sheet :: rest =>
      rowWidth (sheet_columns sheet) * Z.of_nat (length (sheet_rows sheet))
      + expaSize rest
  end.

Section CodecSpec.

Variable Number_of_string : jsstring -> Z.
Variable String_of_number : Z -> jsstring.

(** Phase 3 with a trace: next to the writer, the list of the string
    cells written, each with the offset at which the writer stood when
    it wrote the cell's placeholder and with the cell's string. *)
Fixpoint tracedRowCells (w : ArrayBufferWriter) (columns : list MbeColumn)
    (c : nat) (cells : list cell) : ArrayBufferWriter * list (Z * jsstring) :=
  match columns with
  | [] => (w, [])
  | column :: columns' =>
      let cellValue := cells !! c in
      match col_type column with
      | INT =>
          tracedRowCells (writeInt32 w (cellNumber Number_of_string cellValue))
            columns' (S c) cells
      | STR | STRID =>
          let '(w', trace) :=
            tracedRowCells (writeUint32 (writeUint32 w 0) 0) columns' (S c) cells in
          (w', (getCurrentOffset w, cellString String_of_number cellValue) :: trace)
      end
  end.

Fixpoint tracedRows (w : ArrayBufferWriter) (columns : list MbeColumn)
    (rows : list MbeRow) : ArrayBufferWriter * list (Z * jsstring) :=
  match rows with
  | [] => (w, [])
  | row :: rows' =>
      let '(w1, t1) := tracedRowCells w columns 0 (row_cells row) in
      let '(w2, t2) := tracedRows w1 columns rows' in
      (w2, t1 ++ t2)
  end.

Fixpoint tracedSheets (w : ArrayBufferWriter) (sheets : list MbeSheet)
  : ArrayBufferWriter * list (Z * jsstring) :=
  match sheets with
  | [] => (w, [])
  | sheet :: rest =>
      let '(w1, t1) := tracedRows w (sheet_columns sheet) (sheet_rows sheet) in
      let '(w2, t2) := tracedSheets w1 rest in
      (w2, t1 ++ t2)
  end.

(** The string cells of a file in the order phase 3 writes them, each
    with the true offset of its placeholder in the output. *)
Definition stringPlaceholders (mbeFile : MbeFile) : list (Z * jsstring) :=
  snd (tracedSheets
         (run_headerWriter (generateMbeFile_run Number_of_string String_of_number mbeFile))
         (sheets mbeFile)).

(** The buffers phase 3 pushes for one row. *)
Fixpoint rowChunks (columns : list MbeColumn) (c : nat) (cells : list cell)
  : list chunk :=
  match columns with
  | [] => []
  | column :: columns' =>
      match col_type column with
      | INT => [ mkChunk Int32Field (le32 (cellNumber Number_of_string (cells !! c))) ]
      | STR | STRID => [ mkChunk Uint32Field (le32 0); mkChunk Uint32Field (le32 0) ]
      end ++ rowChunks columns' (S c) cells
  end.

Definition rowsChunks (columns : list MbeColumn) (rows : list MbeRow) : list chunk :=
  concat (map (fun row => rowChunks columns 0 (row_cells row)) rows).

Definition sheetsChunks (sheets : list MbeSheet) : list chunk :=
  concat (map (fun sheet => rowsChunks (sheet_columns sheet) (sheet_rows sheet)) sheets).

(** The string cells of one row written from offset [off]. *)
Fixpoint placeholdersRow (off : Z) (columns : list MbeColumn) (c : nat)
    (cells : list cell) : list (Z * jsstring) :=
  match columns with
  | [] => []
  | column :: columns' =>
      match col_type column with
      | INT => placeholdersRow (off + 4) columns' (S c) cells
      | STR | STRID =>
          (off, cellString String_of_number (cells !! c))
          :: placeholdersRow (off + 8) columns' (S c) cells
      end
  end.

Fixpoint placeholdersRows (off : Z) (columns : list MbeColumn) (rows : list MbeRow)
  : list (Z * jsstring) :=
  match rows with
  | [] => []
  | row :: rows' =>
      placeholdersRow off columns 0 (row_cells row)
      ++ placeholdersRows (off + rowWidth columns) columns rows'
  end.

Fixpoint placeholdersSheets (off : Z) (sheets : list MbeSheet) : list (Z * jsstring) :=
  match sheets with
  | [] => []
  | sheet :: rest =>
      placeholdersRows off (sheet_columns sheet) (sheet_rows sheet)
      ++ placeholdersSheets
           (off + rowWidth (sheet_columns sheet) * Z.of_nat (length (sheet_rows sheet)))
           rest
  end.

(** The pool entry collected for a string cell. *)
Definition rawOfPlaceholder (p : Z * jsstring) : ChnkRawString :=
  {| targetExpaAbsoluteFileOffset := fst p;
     encodedBytes := TextEncoder_encode (snd p) |}.

Definition nonEmpty (p : Z * jsstring) : Prop := snd p <> [].

#[global] Instance nonEmpty_dec (p : Z * jsstring) : Decision (nonEmpty p).
Proof. unfold nonEmpty. apply _. Defined.

(** The start offsets phase 2 records for the sheets, from [off]. *)
Fixpoint sheetStarts (off : Z) (sheets : list MbeSheet) : list Z :=
  match sheets with
  | [] => []
  | sheet :: rest =>
      off :: sheetStarts
               (off + rowWidth (sheet_columns sheet) * Z.of_nat (length (sheet_rows sheet)))
               rest
  end.

End CodecSpec.

(** The buffers one pool entry pushes on a writer that stands at [off]. *)
Definition entryChunks (off : Z) (rawEntry : ChnkRawString) : list chunk :=
  let sLen := byteLength (encodedBytes rawEntry) in
  let finalLen := lengthWithPadding (off + 8) sLen in
  [ mkChunk Uint32Field (le32 (targetExpaAbsoluteFileOffset rawEntry));
    mkChunk Uint32Field (le32 finalLen);
    mkChunk RawBytes (paddedBytes finalLen (encodedBytes rawEntry)) ].

Arguments entryChunks : simpl never.

Definition entrySize (off : Z) (rawEntry : ChnkRawString) : Z :=
  8 + lengthWithPadding (off + 8) (byteLength (encodedBytes rawEntry)).

Fixpoint entriesChunks (off : Z) (entries : list ChnkRawString) : list chunk :=
  match entries with
  | [] => []
  | e :: rest => entryChunks off e ++ entriesChunks (off + entrySize off e) rest
  end.

(** The buffers phase 4 pushes on a writer that stands at [off]. *)
Definition chnkChunks (off : Z) (chnkRawStrings : list ChnkRawString) : list chunk :=
  match chnkRawStrings with
  | [] => []
  | _ =>
      [ mkChunk RawBytes CHNK_MAGIC_BYTES;
        mkChunk Uint32Field (le32 (Z.of_nat (length chnkRawStrings))) ]
      ++ entriesChunks (off + 8) (sortByOffset chnkRawStrings)
  end.

(** Offsets that grow by at least 8 from one element to the next, all
    within [lo, hi). *)
Definition spaced (lo hi : Z) (l : list (Z * jsstring)) : Prop :=
  Forall (fun p => lo <= fst p /\ fst p + 8 <= hi) l /\
  StronglySorted (fun p q => fst p + 8 <= fst q) l.

(** The writer of [generateMbeFile] after the magic and the sheet count. *)
Definition preambleChunks (mbeFile : MbeFile) : list chunk :=
  [ mkChunk RawBytes EXPA_MAGIC_BYTES;
    mkChunk Uint32Field (le32 (Z.of_nat (length (sheets mbeFile)))) ].

(** The offset [H] after the last sheet header. *)
Definition headerEnd (mbeFile : MbeFile) : Z :=
  headersEnd 8 (map structureInfo (sheets mbeFile)).

(** The offset [P] after the structural block. *)
Definition expaEnd (mbeFile : MbeFile) : Z :=
  headerEnd mbeFile + expaSize (sheets mbeFile).

(** The bytes held by a list of pushed buffers. *)
Definition bytesOf (cs : list chunk) : list Z := concat (map chunk_bytes cs).

(** The buffer [buf] holds [bytes] at [offset]. *)
Definition has_at (buf : list Z) (offset : Z) (bytes : list Z) : Prop :=
  exists pre post, buf = pre ++ bytes ++ post /\ byteLength pre = offset.

(** The three blocks of the output. *)
Definition headerBlock (mbeFile : MbeFile) : list Z :=
  bytesOf (preambleChunks mbeFile ++ headersChunks 8 (map structureInfo (sheets mbeFile))).

Definition expaBlockOf (Number_of_string : jsstring -> Z) (mbeFile : MbeFile) : list Z :=
  bytesOf (sheetsChunks Number_of_string (sheets mbeFile)).

Definition chnkBlockOf (Number_of_string : jsstring -> Z)
    (String_of_number : Z -> jsstring) (mbeFile : MbeFile) : list Z :=
  bytesOf (chnkChunks (expaEnd mbeFile)
             (run_chnkRawStrings
                (generateMbeFile_run Number_of_string String_of_number mbeFile))).

(** *** The model invariants of the specification *)

(** The kind of a cell agrees with the type of its column. *)
Definition cell_agrees (column : MbeColumn) (c : cell) : Prop :=
  match col_type column, c with
  | INT, CellNum _ => True
  | STR, CellStr _ => True
  | STRID, CellStr _ => True
  | _, _ => False
  end.

(** A row has one cell per column, each of the kind of its column. *)
Definition row_ok (columns : list MbeColumn) (row : MbeRow) : Prop :=
  Forall2 cell_agrees columns (row_cells row).

Definition sheet_ok (sheet : MbeSheet) : Prop :=
  Forall (row_ok (sheet_columns sheet)) (sheet_rows sheet).

Definition model_invariants (mbeFile : MbeFile) : Prop :=
  Forall sheet_ok (sheets mbeFile).

(** The non-empty strings held by the STR and STRID cells of a row, of a
    file, in order. *)
Fixpoint rowStrings (columns : list MbeColumn) (cells : list cell) : list jsstring :=
  match columns, cells with
  | column :: columns', c :: cells' =>
      (if isStringType (col_type column) then
         match c with
         | CellStr s => if decide (s = []) then [] else [s]
         | CellNum _ => []
         end
       else [])
      ++ rowStrings columns' cells'
  | _, _ => []
  end.

Definition sheetStrings (sheet : MbeSheet) : list jsstring :=
  concat (map (fun row => rowStrings (sheet_columns sheet) (row_cells row))
            (sheet_rows sheet)).

Definition poolStrings (mbeFile : MbeFile) : list jsstring :=
  concat (map sheetStrings (sheets mbeFile)).

(** Two files that differ at most in the identity tokens of their rows
    and in the [parsedExpaAreaSizePerRow] of their sheets. *)
Definition same_wire_content (mbeFile mbeFile' : MbeFile) : Prop :=
  Forall2 (fun s s' =>
             sheet_name s = sheet_name s' /\
             sheet_columns s = sheet_columns s' /\
             map row_cells (sheet_rows s) = map row_cells (sheet_rows s'))
    (sheets mbeFile) (sheets mbeFile').

(** *** The parser *)

(** How a computation of the parser ends. *)
Definition returns {A} (m : M A) (a : A) : Prop := snd m = Returned a.
Definition throws {A} (m : M A) (e : ParseError) : Prop := snd m = Threw e.

(** A computation with one more warning logged first. *)
Definition logged {A} (w : Warning) (m : M A) : M A := (w :: fst m, snd m).

(** The cell the parser builds for a column at the absolute offset
    [offset]. *)
Definition parsedCell (view : list Z) (chnkLookupMap : gmap Z ChnkEntry)
    (column : MbeColumn) (offset : Z) : cell :=
  match col_type column with
  | INT =>
      CellNum (if byteLength view <? offset + 4 then 0
               else toInt32 (le32_value view offset))
  | STR | STRID =>
      CellStr (match chnkLookupMap !! offset with
               | Some chnkEntry => chnk_text chnkEntry
               | None => []
               end)
  end.

Fixpoint parsedCells (view : list Z) (chnkLookupMap : gmap Z ChnkEntry)
    (columns : list MbeColumn) (rowBaseFileOffset currentOffsetWithinRow : Z)
  : list cell :=
  match columns with
  | [] => []
  | column :: columns' =>
      parsedCell view chnkLookupMap column (rowBaseFileOffset + currentOffsetWithinRow)
      :: parsedCells view chnkLookupMap columns' rowBaseFileOffset
           (currentOffsetWithinRow + cellWidth (col_type column))
  end.

(** Pass 1 of [parseMbeFile], up to the last sheet header. *)
Definition headerPass (view : list Z) : M (list SheetHeader * Z) :=
  verifyMagic view EXPA_MAGIC_BYTES 0 ;;;
  sheetCount <<- getUint32 view (0 + byteLength EXPA_MAGIC_BYTES) ;;
  readSheetHeaders (Z.to_nat sheetCount) view (0 + byteLength EXPA_MAGIC_BYTES + 4) [].

(** The offset from which [parseMbeFile] searches the CHNK magic. *)
Definition chnkSearchStart (sheetHeaderData : list SheetHeader)
    (expaDataBlocksStartOffset : Z) : Z :=
  snd (assignStartOffsets sheetHeaderData expaDataBlocksStartOffset).











(** A header as pass 1 leaves it, with sizes that are unsigned 32-bit
    values. *)
Definition header_ranges (h : SheetHeader) : Prop :=
  0 <= h_expaAreaSizePerRow h /\ 0 <= h_expaRowCount h.

Definition header_started (h : SheetHeader) : Prop :=
  header_ranges h /\
  exists start, h_sheetExpaDataStartOffset h = Some start /\ 0 <= start.

Section ParserSpec.

Variable String_of_number : Z -> jsstring.
Variable Date_now : Z -> Z -> Z.

(** The rows the parser builds for a sheet, from row [r] on. *)
Fixpoint parsedRows (n : nat) (view : list Z) (chnkLookupMap : gmap Z ChnkEntry)
    (i : Z) (header : SheetHeader) (start r : Z) : list MbeRow :=
  match n with
  | O => []
  | S n' =>
      {| row_id := rowId String_of_number Date_now i r;
         row_cells :=
           parsedCells view chnkLookupMap (h_columns header)
             (start + r * h_expaAreaSizePerRow header) 0 |}
      :: parsedRows n' view chnkLookupMap i header start (r + 1)
  end.

Definition parsedSheet (view : list Z) (chnkLookupMap : gmap Z ChnkEntry)
    (i : Z) (header : SheetHeader) : MbeSheet :=
  {| sheet_name := h_name header;
     sheet_columns := h_columns header;
     sheet_rows :=
       parsedRows (Z.to_nat (h_expaRowCount header)) view chnkLookupMap i header
         (default 0 (h_sheetExpaDataStartOffset header)) 0;
     parsedExpaAreaSizePerRow := h_expaAreaSizePerRow header |}.

Fixpoint parsedSheets (view : list Z) (chnkLookupMap : gmap Z ChnkEntry)
    (sheetHeaderData : list SheetHeader) (i : Z) : list MbeSheet :=
  match sheetHeaderData with
  | [] => []
  | header :: rest =>
      parsedSheet view chnkLookupMap i header
      :: parsedSheets view chnkLookupMap rest (i + 1)
  end.

(** What [parseMbeFile] does after pass 1. *)
Definition parseRest (view : list Z) (read : list SheetHeader * Z) : M MbeFile :=
  let '(sheetHeaderData, currentGlobalOffset) := read in
  let '(sheetHeaderData, runningExpaOffset) :=
    assignStartOffsets sheetHeaderData currentGlobalOffset in
  chnkLookupMap <<- readChnk view runningExpaOffset ;;
  mbeSheets <<-
    readSheets String_of_number Date_now view chnkLookupMap sheetHeaderData 0 [] ;;
  ret {| sheets := mbeSheets |}.

End ParserSpec.


(** *** The round trip *)

(** A string survives the trip through the file: it is encodable and its
    encoding holds no NUL byte, at which [readString] would cut it. *)
Definition text_roundtrips (s : jsstring) : Prop :=
  utf8_encodable s /\ 0 ∉ TextEncoder_encode s.

(** A string of ASCII characters other than NUL. *)
Definition ascii (s : jsstring) : Prop := Forall (fun u => 0 < u < 128) s.

(** A cell survives the trip: an integer fits a signed 32-bit field, a
    string is as above. *)
Definition cell_roundtrips (c : cell) : Prop :=
  match c with
  | CellNum n => - 2 ^ 31 <= n < 2 ^ 31
  | CellStr s => text_roundtrips s
  end.

Definition sheet_roundtrips (sheet : MbeSheet) : Prop :=
  text_roundtrips (sheet_name sheet) /\
  Z.of_nat (length (sheet_rows sheet)) < 2 ^ 32 /\
  Forall (fun row => Forall cell_roundtrips (row_cells row)) (sheet_rows sheet).

Definition file_roundtrips (mbeFile : MbeFile) : Prop :=
  Forall sheet_roundtrips (sheets mbeFile).

(** The hypothesis of the specification on strings: the string cells are
    encodable. *)
Definition cells_encodable (mbeFile : MbeFile) : Prop :=
  Forall (fun sheet =>
            Forall (fun row =>
                      Forall (fun c => match c with
                                       | CellStr s => utf8_encodable s
                                       | CellNum _ => True
                                       end) (row_cells row))
              (sheet_rows sheet))
    (sheets mbeFile).

(** The equivalence of the specification: row identity tokens and
    [parsedExpaAreaSizePerRow] are ignored, STR and STRID columns are not
    told apart, names and cells are equal. *)
Definition column_equiv (c c' : MbeColumn) : Prop :=
  isStringType (col_type c) = isStringType (col_type c').

Definition row_equiv (r r' : MbeRow) : Prop := row_cells r = row_cells r'.

Definition sheet_equiv (s s' : MbeSheet) : Prop :=
  sheet_name s = sheet_name s' /\
  Forall2 column_equiv (sheet_columns s) (sheet_columns s') /\
  Forall2 row_equiv (sheet_rows s) (sheet_rows s').

Definition MbeFile_equiv (f f' : MbeFile) : Prop :=
  Forall2 sheet_equiv (sheets f) (sheets f').

(** The column the parser builds for a type tag. *)
Definition columnOf (t : ColumnType) : MbeColumn :=
  {| col_type := t;
     col_typeName := match t with INT => tn_int | STR => tn_str | STRID => tn_strID end |}.

(** The header pass 1 reads back for a sheet of the generator. *)
Definition headerOf (start : option Z) (sheet : MbeSheet) : SheetHeader :=
  {| h_name := sheet_name sheet;
     h_columns := map (fun column => columnOf (col_type column)) (sheet_columns sheet);
     h_expaAreaSizePerRow := rowWidth (sheet_columns sheet) mod 2 ^ 32;
     h_expaRowCount := Z.of_nat (length (sheet_rows sheet));
     h_sheetExpaDataStartOffset := start |}.

Fixpoint startedHeaders (off : Z) (sheets : list MbeSheet) : list SheetHeader :=
  match sheets with
  | [] => []
  | sheet :: rest =>
      headerOf (Some off) sheet
      :: startedHeaders
           (off + rowWidth (sheet_columns sheet) * Z.of_nat (length (sheet_rows sheet)))
           rest
  end.

(** The text the parser finds for a string cell at [offset]. *)
Definition lookupText (chnkLookupMap : gmap Z ChnkEntry) (offset : Z) : jsstring :=
  match chnkLookupMap !! offset with
  | Some chnkEntry => chnk_text chnkEntry
  | None => []
  end.

(** A sheet with rows has rows narrower than 4 GiB. *)
Definition sheet_fits (sheet : MbeSheet) : Prop :=
  sheet_rows sheet = [] \/ rowWidth (sheet_columns sheet) < 2 ^ 32.

(** A pool entry that reads back: its offset fits 32 bits and its bytes
    hold no NUL. *)
Definition entry_ok (e : ChnkRawString) : Prop :=
  0 <= targetExpaAbsoluteFileOffset e < 2 ^ 32 /\ 0 ∉ encodedBytes e.

(** The texts of the pool map after one more entry. *)
Definition insertText (m : gmap Z jsstring) (e : ChnkRawString) : gmap Z jsstring :=
  <[ targetExpaAbsoluteFileOffset e := TextDecoder_decode (encodedBytes e) ]> m.

(** *** Sample values of the platform's functions, to run the codec *)

(** [String(n)] for an integer: its decimal digits. *)
Fixpoint decimalDigits (fuel : nat) (n : Z) (acc : jsstring) : jsstring :=
  match fuel with
  | O => acc
  | S fuel' =>
      let acc' := (48 + n mod 10) :: acc in
      if n / 10 =? 0 then acc' else decimalDigits fuel' (n / 10) acc'
  end.

Definition decimalString (n : Z) : jsstring :=
  if n <? 0 then 45 :: decimalDigits (Z.to_nat (Z.log2 (- n)) + 1) (- n) []
  else decimalDigits (Z.to_nat (Z.log2 n) + 1) n [].

(** [Number(s)] on the empty string and on a string of 1 to 15 decimal
    digits with an optional minus sign before them, which a double holds
    exactly.  Other strings are outside the sample, which gives 0 for
    them, as the generator stores for NaN. *)
Fixpoint decimalValue (s : jsstring) (acc : Z) : option Z :=
  match s with
  | [] => Some acc
  | d :: rest =>
      if (48 <=? d) && (d <=? 57) then decimalValue rest (10 * acc + (d - 48))
      else None
  end.

Definition decimalNumber (s : jsstring) : Z :=
  match s with
  | [] => 0
  | 45 :: ((_ :: _) as digits) => default 0 (Z.opp <$> decimalValue digits 0)
  | digits => default 0 (decimalValue digits 0)
  end.

(** A clock that stands still. *)
Definition fixedClock (i r : Z) : Z := 1700000000000.

(** The file of one sheet "m" with an INT and a STRID column and the row
    [7, "hi"], and the buffer generated for it. *)
Definition sampleFile : MbeFile :=
  {| sheets :=
       [ {| sheet_name := [109];
            sheet_columns := [ columnOf INT; columnOf STRID ];
            sheet_rows := [ {| row_id := []; row_cells := [CellNum 7; CellStr [104; 105]] |} ];
            parsedExpaAreaSizePerRow := 0 |} ] |}.

Definition sampleBuffer : list Z :=
  [ 69; 88; 80; 65; 1; 0; 0; 0; 4; 0; 0; 0; 109; 0; 0; 0; 2; 0; 0; 0; 2; 0; 0; 0;
    8; 0; 0; 0; 12; 0; 0; 0; 1; 0; 0; 0; 7; 0; 0; 0; 0; 0; 0; 0; 0; 0; 0; 0;
    67; 72; 78; 75; 1; 0; 0; 0; 40; 0; 0; 0; 4; 0; 0; 0; 104; 105; 0; 0 ].

(** The same file with other identity tokens and another
    [parsedExpaAreaSizePerRow]. *)
Definition sampleFileRetagged : MbeFile :=
  {| sheets :=
       [ {| sheet_name := [109];
            sheet_columns := [ columnOf INT; columnOf STRID ];
            sheet_rows := [ {| row_id := [114; 49]; row_cells := [CellNum 7; CellStr [104; 105]] |} ];
            parsedExpaAreaSizePerRow := 12 |} ] |}.

(** A file that satisfies the model invariants and whose cells do not
    survive the trip: the integer 2^31 and the string "a", NUL, "b". *)
Definition wrappingFile : MbeFile :=
  {| sheets :=
       [ {| sheet_name := [109];
            sheet_columns := [ columnOf INT; columnOf STR ];
            sheet_rows :=
              [ {| row_id := []; row_cells := [CellNum 2147483648; CellStr [97; 0; 98]] |} ];
            parsedExpaAreaSizePerRow := 0 |} ] |}.



Definition truncatedPool : list Z :=
  [ 69; 88; 80; 65; 1; 0; 0; 0; 4; 0; 0; 0; 109; 0; 0; 0; 2; 0; 0; 0;
    7; 0; 0; 0; 7; 0; 0; 0; 16; 0; 0; 0; 1; 0; 0; 0;
    0; 0; 0; 0; 0; 0; 0; 0; 0; 0; 0; 0; 0; 0; 0; 0;
    67; 72; 78; 75; 2; 0; 0; 0; 36; 0; 0; 0; 4; 0; 0; 0; 104; 105; 0; 0;
    44; 0; 0; 0; 9; 0; 0; 0; 120 ].

(** The file without sheets, and the file of one sheet "x" with one INT
    column and the rows [1] and [-1], with the buffers generated for
    them. *)
Definition emptyFile : MbeFile := {| sheets := [] |}.

Definition emptyBuffer : list Z := [ 69; 88; 80; 65; 0; 0; 0; 0 ].

Definition intFile : MbeFile :=
  {| sheets :=
       [ {| sheet_name := [120];
            sheet_columns := [ columnOf INT ];
            sheet_rows := [ {| row_id := []; row_cells := [CellNum 1] |};
                            {| row_id := []; row_cells := [CellNum (-1)] |} ];
            parsedExpaAreaSizePerRow := 0 |} ] |}.

Definition intBuffer : list Z :=
  [ 69; 88; 80; 65; 1; 0; 0; 0; 4; 0; 0; 0; 120; 0; 0; 0; 1; 0; 0; 0; 2; 0; 0; 0;
    4; 0; 0; 0; 2; 0; 0; 0; 1; 0; 0; 0; 255; 255; 255; 255 ].

(** ** Definitions used to state further properties of the codec *)

(** The bytes of a buffer before its first NUL. *)
Fixpoint untilNul (buffer : list Z) : list Z :=
  match buffer with
  | [] => []
  | b :: rest => if b =? 0 then [] else b :: untilNul rest
  end.

(** A call of one of the writing methods of [ArrayBufferWriter], the
    method applied, and the bytes the call adds to the output. *)
Inductive WriterCall :=
| CallWriteBytes (bytes : list Z)
| CallWriteUint32 (value : Z)
| CallWriteInt32 (value : Z).

Definition callWriter (w : ArrayBufferWriter) (call : WriterCall) : ArrayBufferWriter :=
  match call with
  | CallWriteBytes bytes => writeBytes w bytes
  | CallWriteUint32 value => writeUint32 w value
  | CallWriteInt32 value => writeInt32 w value
  end.

Definition writtenBytes (call : WriterCall) : list Z :=
  match call with
  | CallWriteBytes bytes => bytes
  | CallWriteUint32 value => le32 value
  | CallWriteInt32 value => le32 value
  end.

(** Two files with the same sheet names, the same column types and the
    same cells; the labels of the columns, the identity tokens of the
    rows and [parsedExpaAreaSizePerRow] may differ. *)
Definition same_types_and_cells (mbeFile mbeFile' : MbeFile) : Prop :=
  Forall2 (fun s s' =>
             sheet_name s = sheet_name s' /\
             map col_type (sheet_columns s) = map col_type (sheet_columns s') /\
             map row_cells (sheet_rows s) = map row_cells (sheet_rows s'))
    (sheets mbeFile) (sheets mbeFile').

(** A column as the parser builds it: its label is that of its type. *)
Definition column_labelled (column : MbeColumn) : Prop :=
  column = columnOf (col_type column).

(** What pass 1 guarantees of a header it read: columns labelled by
    their types, and sizes that are unsigned 32-bit values. *)
Definition header_shape (h : SheetHeader) : Prop :=
  Forall column_labelled (h_columns h) /\
  0 <= h_expaAreaSizePerRow h < 2 ^ 32 /\
  0 <= h_expaRowCount h < 2 ^ 32.

(** A sheet as the parser returns it. *)
Definition sheet_shape (sheet : MbeSheet) : Prop :=
  Forall column_labelled (sheet_columns sheet) /\
  0 <= parsedExpaAreaSizePerRow sheet < 2 ^ 32 /\
  Z.of_nat (length (sheet_rows sheet)) < 2 ^ 32.

(** ** Definitions used to state the properties of the CSV functions *)

(** A text whose carriage returns, if it has any, end up inside quotes
    when [formatCsvCell] writes it: [formatCsvCell] quotes a text for a
    comma, a line feed or a double quote, not for a carriage return. *)
Definition crSafe (s : jsstring) : Prop :=
  crChar ∈ s -> commaChar ∈ s \/ lfChar ∈ s \/ quoteChar ∈ s.

(** The row [parseCsvContent] is building and the value it is reading
    when it reaches the end of a line that holds the cells [texts]. *)
Fixpoint lineEnd (currentRow : list jsstring) (texts : list jsstring)
  : list jsstring * jsstring :=
  match texts with
  | [] => (currentRow, [])
  | [text] => (currentRow, text)
  | text :: rest => lineEnd (currentRow ++ [trim text]) rest
  end.

(** The rows after the end of a line. *)
Definition pushRow (rows : list (list jsstring)) (currentRow : list jsstring)
    (currentValue : jsstring) : list (list jsstring) :=
  if (0 <? Z.of_nat (length currentValue)) || (0 <? Z.of_nat (length currentRow))
  then rows ++ [currentRow ++ [trim currentValue]]
  else rows.

(** Whether the end of a line that holds the cells [texts] pushes a
    row: a line without cells, or with one empty cell, pushes none. *)
Definition linePushed (texts : list jsstring) : bool :=
  match texts with
  | [] => false
  | [text] => 0 <? Z.of_nat (length text)
  | _ => true
  end.

Definition pushedRows (lines : list (list jsstring)) : list (list jsstring) :=
  concat (map (fun texts => if linePushed texts then [map trim texts] else []) lines).

Section CsvSpec.

Variable String_of_number : Z -> jsstring.

(** The text of a line of cells, and of a table of lines, as
    [handleExportCsv] writes them. *)
Definition csvLine (texts : list jsstring) : jsstring :=
  join [commaChar]
    (map (fun text => formatCsvCell String_of_number (CellStr text)) texts).

Definition csvText (lines : list (list jsstring)) : jsstring :=
  join [crChar; lfChar] (map csvLine lines).

(** The texts [handleExportCsv] writes for a sheet: the labels of the
    columns, then the cells of each row. *)
Definition exportedTexts (sheet : MbeSheet) : list (list jsstring) :=
  imap (columnLabel String_of_number) (sheet_columns sheet)
  :: map (fun row => map (String_of_cell String_of_number) (row_cells row))
       (sheet_rows sheet).

End CsvSpec.

(** Sample of [parseInt(s, 10)] on a string of 1 to 15 decimal digits
    with an optional minus sign before them, which a double holds
    exactly.  Other strings are outside the sample, which reads no
    number from them. *)
Definition decimalParseInt (s : jsstring) : option Z :=
  match s with
  | [] => None
  | 45 :: ((_ :: _) as digits) => Z.opp <$> decimalValue digits 0
  | 45 :: [] => None
  | digits => decimalValue digits 0
  end.

(** The cell an import leaves under a column of type [columnType] for
    the text of the CSV row at that column, [None] when the row is too
    short: under an INT column the integer [parseInt] reads, 0 when it
    reads none or the text is missing; under a STR or STRID column the
    text, the empty string when it is missing. *)
Definition filledCell (parseInt10 : jsstring -> option Z) (columnType : ColumnType)
    (csvCell : option jsstring) : cell :=
  match columnType, csvCell with
  | INT, Some text => CellNum (default 0 (parseInt10 text))
  | INT, None => CellNum 0
  | (STR | STRID), Some text => CellStr text
  | (STR | STRID), None => CellStr []
  end.

Section CsvImportSpec.

Variable String_of_number : Z -> jsstring.
Variable parseInt10 : jsstring -> option Z.

(** A cell that comes back from its exported text: the text has no
    white space at its ends, which [parseCsvContent] would trim, and
    [parseInt] reads an integer back from its text. *)
Definition cell_exports (c : cell) : Prop :=
  trim (String_of_cell String_of_number c) = String_of_cell String_of_number c /\
  match c with
  | CellNum n => parseInt10 (String_of_number n) = Some n
  | CellStr _ => True
  end.

(** A row that comes back: its cells do, and one of them has a text
    that is not empty, without which [parseCsvContent] drops the row. *)
Definition row_exports (row : MbeRow) : Prop :=
  Forall cell_exports (row_cells row) /\
  Exists (fun c => String_of_cell String_of_number c <> []) (row_cells row).

End CsvImportSpec.

(** ** Definitions used to state what is read back from a generated file *)

(** A string as it is read back: encoded, cut at the first NUL byte and
    decoded. *)
Definition readBack (s : jsstring) : jsstring :=
  TextDecoder_decode (untilNul (TextEncoder_encode s)).

(** An integer as it is read back from a signed 32-bit field. *)
Definition wrapInt32 (n : Z) : Z := (n + 2 ^ 31) mod 2 ^ 32 - 2 ^ 31.

Definition cellReadBack (c : cell) : cell :=
  match c with
  | CellNum n => CellNum (wrapInt32 n)
  | CellStr s => CellStr (readBack s)
  end.

(** The sheet with its name as it is read back. *)
Definition renamed (sheet : MbeSheet) : MbeSheet :=
  {| sheet_name := readBack (sheet_name sheet);
     sheet_columns := sheet_columns sheet;
     sheet_rows := sheet_rows sheet;
     parsedExpaAreaSizePerRow := parsedExpaAreaSizePerRow sheet |}.

(** The texts of the pool map after one more entry, whatever its bytes. *)
Definition insertReadText (m : gmap Z jsstring) (e : ChnkRawString) : gmap Z jsstring :=
  <[ targetExpaAbsoluteFileOffset e := TextDecoder_decode (untilNul (encodedBytes e)) ]> m.

Section ReadBackSpec.

Variable Number_of_string : jsstring -> Z.
Variable String_of_number : Z -> jsstring.

(** The cells read back for a row, whatever its cells: under an INT
    column what [writeInt32] stored of the cell, under a STR or STRID
    column the string collected for the pool; [c] is the index of the
    first column. *)
Fixpoint rowReadBack (columns : list MbeColumn) (c : nat) (cells : list cell)
  : list cell :=
  match columns with
  | [] => []
  | column :: columns' =>
      match col_type column with
      | INT => CellNum (wrapInt32 (cellNumber Number_of_string (cells !! c)))
      | STR | STRID => CellStr (readBack (cellString String_of_number (cells !! c)))
      end :: rowReadBack columns' (S c) cells
  end.

End ReadBackSpec.

(** A text without double quote, comma, line feed or carriage return. *)
Definition plainText (s : jsstring) : Prop :=
  (quoteChar ∉ s) /\ (commaChar ∉ s) /\ (lfChar ∉ s) /\ (crChar ∉ s).

(** ** Further samples *)

(** The sheet of [sampleFile], and the file with other labels on its
    columns. *)
Definition sampleSheet : MbeSheet :=
  {| sheet_name := [109];
     sheet_columns := [ columnOf INT; columnOf STRID ];
     sheet_rows := [ {| row_id := []; row_cells := [CellNum 7; CellStr [104; 105]] |} ];
     parsedExpaAreaSizePerRow := 0 |}.

Definition sampleFileRelabelled : MbeFile :=
  {| sheets :=
       [ {| sheet_name := [109];
            sheet_columns := [ {| col_type := INT; col_typeName := tn_str |};
                               {| col_type := STRID; col_typeName := tn_int |} ];
            sheet_rows := [ {| row_id := []; row_cells := [CellNum 7; CellStr [104; 105]] |} ];
            parsedExpaAreaSizePerRow := 0 |} ] |}.

(** A CSV text of a header line and one data line: a cell that is no
    number, and a cell with spaces around it. *)
Definition sampleCsv : jsstring := [97; 44; 98; 13; 10; 120; 44; 32; 121; 32].

(** A clock for the rows of an import. *)
Definition importClock (rIdx : nat) : Z := 1700000000000.

(** * Properties *)

Set Default Proof Using "Type".

(** ** Buffers *)

Lemma byteLength_nil : byteLength [] = 0.
Proof. reflexivity. Qed.

Lemma byteLength_app (a b : list Z) : byteLength (a ++ b) = byteLength a + byteLength b.
Proof. unfold byteLength. rewrite length_app. lia. Qed.

Lemma byteLength_cons (x : Z) (a : list Z) : byteLength (x :: a) = 1 + byteLength a.
Proof. unfold byteLength. simpl. lia. Qed.

Lemma byteLength_nonneg (a : list Z) : 0 <= byteLength a.
Proof. unfold byteLength. lia. Qed.

Lemma byteLength_le32 (v : Z) : byteLength (le32 v) = 4.
Proof. reflexivity. Qed.

Lemma byteLength_replicate (n : nat) (x : Z) : byteLength (replicate n x) = Z.of_nat n.
Proof. unfold byteLength. by rewrite length_replicate. Qed.

(** ** Arithmetic *)

Lemma mod4_add4 (a : Z) : a mod 4 = 0 -> (a + 4) mod 4 = 0.
Proof. intros H. Z.div_mod_to_equations. lia. Qed.

Lemma mod4_add (a b : Z) : a mod 4 = 0 -> b mod 4 = 0 -> (a + b) mod 4 = 0.
Proof. intros Ha Hb. Z.div_mod_to_equations. lia. Qed.

(** ** Little-endian fields read back *)

Lemma le32_bytes_value (u : Z) :
  0 <= u < 4294967296 ->
  u mod 256 + 256 * ((u / 256) mod 256) + 65536 * ((u / 65536) mod 256)
  + 16777216 * ((u / 16777216) mod 256) = u.
Proof. intros Hu. Z.div_mod_to_equations. lia. Qed.

Lemma le32_value_le32 (v : Z) : le32_value (le32 v) 0 = v mod 2 ^ 32.
Proof.
  unfold le32_value, le32, byteAt. simpl. unfold id.
  apply le32_bytes_value. apply (Z.mod_pos_bound v (2 ^ 32)). done.
Qed.

(** ** Slices *)

Lemma has_at_bounds (buf : list Z) (offset : Z) (bytes : list Z) :
  has_at buf offset bytes ->
  0 <= offset /\ offset + byteLength bytes <= byteLength buf.
Proof.
  intros (pre & post & -> & <-). rewrite !byteLength_app.
  pose proof (byteLength_nonneg pre). pose proof (byteLength_nonneg post). lia.
Qed.

Lemma has_at_slice (buf : list Z) (offset : Z) (bytes : list Z) :
  has_at buf offset bytes -> slice buf offset (byteLength bytes) = bytes.
Proof.
  intros (pre & post & -> & <-). unfold slice, byteLength. rewrite !Nat2Z.id.
  rewrite drop_app_length. by rewrite take_app_length.
Qed.

Lemma has_at_here (x rest : list Z) : has_at (x ++ rest) 0 x.
Proof. by exists [], rest. Qed.

Lemma has_at_app_r (a b : list Z) (o : Z) (x : list Z) :
  has_at b o x -> has_at (a ++ b) (byteLength a + o) x.
Proof.
  intros (pre & post & -> & <-). exists (a ++ pre), post.
  by rewrite byteLength_app, <- app_assoc.
Qed.

Lemma has_at_app_l (a b : list Z) (o : Z) (x : list Z) :
  has_at a o x -> has_at (a ++ b) o x.
Proof.
  intros (pre & post & -> & <-). exists pre, (post ++ b).
  by rewrite <- !app_assoc.
Qed.

Lemma has_at_split (buf : list Z) (o : Z) (x y : list Z) :
  has_at buf o (x ++ y) -> has_at buf o x /\ has_at buf (o + byteLength x) y.
Proof.
  intros (pre & post & -> & <-). split.
  - exists pre, (y ++ post). by rewrite <- app_assoc.
  - exists (pre ++ x), post. by rewrite byteLength_app, <- !app_assoc.
Qed.

Lemma has_at_app_mid (a x b : list Z) : has_at (a ++ x ++ b) (byteLength a) x.
Proof. by exists a, b. Qed.

Lemma has_at_whole (x : list Z) : has_at x 0 x.
Proof. exists [], []. by rewrite app_nil_r. Qed.

Lemma byteAt_has_at (buf : list Z) (o : Z) (x : list Z) (k : nat) (b : Z) :
  has_at buf o x -> x !! k = Some b -> byteAt buf (o + Z.of_nat k) = b.
Proof.
  intros (pre & post & -> & <-) Hk. unfold byteAt, byteLength.
  replace (Z.to_nat (Z.of_nat (length pre) + Z.of_nat k)) with (length pre + k)%nat by lia.
  rewrite lookup_app_r by lia.
  replace (length pre + k - length pre)%nat with k by lia.
  rewrite lookup_app_l by (by eapply lookup_lt_Some). by rewrite Hk.
Qed.

Lemma le32_value_has_at (buf : list Z) (o v : Z) :
  has_at buf o (le32 v) -> le32_value buf o = v mod 2 ^ 32.
Proof.
  intros H. unfold le32_value.
  rewrite <- (le32_value_le32 v). unfold le32_value.
  replace (byteAt buf o) with (byteAt buf (o + Z.of_nat 0)) by (f_equal; lia).
  change (o + 1) with (o + Z.of_nat 1). change (o + 2) with (o + Z.of_nat 2).
  change (o + 3) with (o + Z.of_nat 3).
  rewrite (byteAt_has_at _ _ _ 0 _ H eq_refl).
  rewrite (byteAt_has_at _ _ _ 1 _ H eq_refl).
  rewrite (byteAt_has_at _ _ _ 2 _ H eq_refl).
  rewrite (byteAt_has_at _ _ _ 3 _ H eq_refl).
  reflexivity.
Qed.

Section Properties.

Variable Number_of_string : jsstring -> Z.
Variable String_of_number : Z -> jsstring.
Variable Date_now : Z -> Z -> Z.

Local Abbreviation generate := (generateMbeFile Number_of_string String_of_number).
Local Abbreviation generate_run := (generateMbeFile_run Number_of_string String_of_number).
Local Abbreviation parse := (parseMbeFile String_of_number Date_now).
Local Abbreviation cellStr := (cellString String_of_number).
Local Abbreviation cellNum := (cellNumber Number_of_string).
Local Abbreviation expaBlock := (expaBlockOf Number_of_string).
Local Abbreviation chnkBlock := (chnkBlockOf Number_of_string String_of_number).

(** ** The writer *)

Lemma toArrayBuffer_pushChunk w k bytes :
  toArrayBuffer (pushChunk w k bytes) = toArrayBuffer w ++ bytes.
Proof.
  unfold toArrayBuffer, pushChunk. simpl.
  rewrite map_app, concat_app. simpl. by rewrite app_nil_r.
Qed.

Lemma writer_ok_new : writer_ok newWriter.
Proof. reflexivity. Qed.

Lemma writer_ok_pushChunk w k bytes :
  writer_ok w -> writer_ok (pushChunk w k bytes).
Proof.
  unfold writer_ok. intros H. rewrite toArrayBuffer_pushChunk, byteLength_app.
  simpl. lia.
Qed.

Lemma chunkOffset_all (chunks : list chunk) :
  chunkOffset chunks (length chunks) = byteLength (concat (map chunk_bytes chunks)).
Proof. unfold chunkOffset. by rewrite firstn_all. Qed.

Lemma chunkOffset_app_l (chunks more : list chunk) (i : nat) :
  (i <= length chunks)%nat ->
  chunkOffset (chunks ++ more) i = chunkOffset chunks i.
Proof. intros H. unfold chunkOffset. by rewrite take_app_le. Qed.

Lemma fieldsAligned_nil : fieldsAligned [].
Proof. intros i c H. by rewrite lookup_nil in H. Qed.

Lemma fieldsAligned_snoc (chunks : list chunk) (c : chunk) :
  fieldsAligned chunks ->
  (chunk_kind_of c <> RawBytes ->
   byteLength (concat (map chunk_bytes chunks)) mod 4 = 0) ->
  fieldsAligned (chunks ++ [c]).
Proof.
  intros Hal Hc i c' Hi Hk.
  destruct (decide (i < length chunks)%nat) as [Hlt|Hge].
  - rewrite lookup_app_l in Hi by done.
    rewrite chunkOffset_app_l by lia. by eapply Hal.
  - assert (i = length chunks) as ->.
    { apply lookup_lt_Some in Hi. rewrite length_app in Hi. simpl in Hi. lia. }
    rewrite list_lookup_middle in Hi by done. injection Hi as <-.
    rewrite chunkOffset_app_l by lia. rewrite chunkOffset_all. by apply Hc.
Qed.

Lemma wAligned_new : wAligned newWriter.
Proof. split; [apply writer_ok_new | apply fieldsAligned_nil]. Qed.

Lemma wAligned_writeBytes w bytes : wAligned w -> wAligned (writeBytes w bytes).
Proof.
  intros [Hok Hal]. split; [by apply writer_ok_pushChunk|].
  simpl. apply fieldsAligned_snoc; [done|]. simpl. congruence.
Qed.

Lemma wAligned_writeUint32 w v :
  wAligned w -> currentOffset w mod 4 = 0 -> wAligned (writeUint32 w v).
Proof.
  intros [Hok Hal] Hoff. split; [by apply writer_ok_pushChunk|].
  simpl. apply fieldsAligned_snoc; [done|]. intros _.
  unfold writer_ok, toArrayBuffer in Hok. by rewrite <- Hok.
Qed.

Lemma wAligned_writeInt32 w v :
  wAligned w -> currentOffset w mod 4 = 0 -> wAligned (writeInt32 w v).
Proof.
  intros [Hok Hal] Hoff. split; [by apply writer_ok_pushChunk|].
  simpl. apply fieldsAligned_snoc; [done|]. intros _.
  unfold writer_ok, toArrayBuffer in Hok. by rewrite <- Hok.
Qed.

Lemma currentOffset_writeUint32 w v :
  currentOffset (writeUint32 w v) = currentOffset w + 4.
Proof. reflexivity. Qed.

Lemma currentOffset_writeInt32 w v :
  currentOffset (writeInt32 w v) = currentOffset w + 4.
Proof. reflexivity. Qed.

Lemma currentOffset_writeBytes w bytes :
  currentOffset (writeBytes w bytes) = currentOffset w + byteLength bytes.
Proof. reflexivity. Qed.

(** ** The padding loop *)

Lemma lengthWithPadding_cases (base L : Z) :
  exists N, lengthWithPadding base L = L + N /\ 2 <= N <= 5 /\
            (base + (L + N)) mod 4 = 0 /\
            forall n, 2 <= n < N -> (base + (L + n)) mod 4 <> 0.
Proof.
  unfold lengthWithPadding, paddingLoop.
  destruct (Z.eqb_spec ((base + (L + 2)) mod 4) 0) as [H2|H2].
  { exists 2. repeat split; try lia. }
  destruct (Z.eqb_spec ((base + (L + 3)) mod 4) 0) as [H3|H3].
  { exists 3. repeat split; try lia. intros n Hn. by assert (n = 2) as -> by lia. }
  destruct (Z.eqb_spec ((base + (L + 4)) mod 4) 0) as [H4|H4].
  { exists 4. repeat split; try lia. intros n Hn.
    assert (n = 2 \/ n = 3) as [-> | ->] by lia; done. }
  destruct (Z.eqb_spec ((base + (L + 5)) mod 4) 0) as [H5|H5].
  { exists 5. repeat split; try lia. intros n Hn.
    assert (n = 2 \/ n = 3 \/ n = 4) as [-> | [-> | ->]] by lia; done. }
  exfalso. clear -H2 H3 H4 H5. Z.div_mod_to_equations. lia.
Qed.

Lemma lengthWithPadding_aligned (base L : Z) :
  (base + lengthWithPadding base L) mod 4 = 0.
Proof. destruct (lengthWithPadding_cases base L) as (N & -> & _ & H & _). done. Qed.

Lemma lengthWithPadding_bounds (base L : Z) :
  L + 2 <= lengthWithPadding base L <= L + 5.
Proof. destruct (lengthWithPadding_cases base L) as (N & -> & ? & _). lia. Qed.

Lemma byteLength_paddedBytes (finalLength : Z) (encoded : list Z) :
  byteLength encoded <= finalLength ->
  byteLength (paddedBytes finalLength encoded) = finalLength.
Proof.
  intros H. unfold paddedBytes. rewrite byteLength_app, byteLength_replicate. lia.
Qed.

Lemma lengthWithPadding_rule (base L : Z) :
  paddingRule base L (lengthWithPadding base L - L).
Proof.
  destruct (lengthWithPadding_cases base L) as (N & -> & HN & Hal & Hmin).
  replace (L + N - L) with N by lia. split; [done|]. split.
  - intros _. split.
    + by replace (base + L + N) with (base + (L + N)) by lia.
    + intros n Hn. replace (base + L + n) with (base + (L + n)) by lia. auto.
  - intros Hnone. exfalso. apply (Hnone N HN).
    by replace (base + L + N) with (base + (L + N)) by lia.
Qed.


(** ** Pushing several buffers *)

Lemma chunksLength_nil : chunksLength [] = 0.
Proof. reflexivity. Qed.

Lemma chunksLength_app (a b : list chunk) :
  chunksLength (a ++ b) = chunksLength a + chunksLength b.
Proof. unfold chunksLength. by rewrite map_app, concat_app, byteLength_app. Qed.

Lemma chunksLength_cons (c : chunk) (a : list chunk) :
  chunksLength (c :: a) = byteLength (chunk_bytes c) + chunksLength a.
Proof. unfold chunksLength. simpl. by rewrite byteLength_app. Qed.

Lemma chunksLength_nonneg (a : list chunk) : 0 <= chunksLength a.
Proof. apply byteLength_nonneg. Qed.

Lemma writer_eq (w w' : ArrayBufferWriter) :
  buffers w = buffers w' -> currentOffset w = currentOffset w' -> w = w'.
Proof. destruct w, w'. simpl. by intros -> ->. Qed.

Lemma appendChunks_nil w : appendChunks w [] = w.
Proof.
  apply writer_eq; simpl; [by rewrite app_nil_r | rewrite chunksLength_nil; lia].
Qed.

Lemma appendChunks_app w a b :
  appendChunks (appendChunks w a) b = appendChunks w (a ++ b).
Proof.
  apply writer_eq; simpl; [by rewrite app_assoc | rewrite chunksLength_app; lia].
Qed.

Lemma pushChunk_appendChunks w k bytes :
  pushChunk w k bytes = appendChunks w [mkChunk k bytes].
Proof.
  apply writer_eq; simpl; [done|].
  rewrite chunksLength_cons, chunksLength_nil. simpl. lia.
Qed.

Lemma writeUint32_appendChunks w v :
  writeUint32 w v = appendChunks w [mkChunk Uint32Field (le32 v)].
Proof. apply pushChunk_appendChunks. Qed.

Lemma writeInt32_appendChunks w v :
  writeInt32 w v = appendChunks w [mkChunk Int32Field (le32 v)].
Proof. apply pushChunk_appendChunks. Qed.

Lemma writeBytes_appendChunks w bytes :
  writeBytes w bytes = appendChunks w [mkChunk RawBytes bytes].
Proof. apply pushChunk_appendChunks. Qed.

Lemma toArrayBuffer_appendChunks w cs :
  toArrayBuffer (appendChunks w cs) = toArrayBuffer w ++ concat (map chunk_bytes cs).
Proof. unfold toArrayBuffer. simpl. by rewrite map_app, concat_app. Qed.

Lemma writeColumnTypes_appendChunks w types :
  writeColumnTypes w types =
  appendChunks w (map (fun t => mkChunk Uint32Field (le32 (ColumnType_value t))) types).
Proof.
  unfold writeColumnTypes. revert w.
  induction types as [|t types IH]; intros w; simpl.
  - by rewrite appendChunks_nil.
  - rewrite IH, writeUint32_appendChunks, appendChunks_app. done.
Qed.

Lemma chunksLength_types (types : list ColumnType) :
  chunksLength (map (fun t => mkChunk Uint32Field (le32 (ColumnType_value t))) types)
  = 4 * Z.of_nat (length types).
Proof.
  induction types as [|t types IH]; [done|].
  cbn [map length]. rewrite chunksLength_cons, IH. simpl chunk_bytes.
  rewrite byteLength_le32. lia.
Qed.

(** ** Sheet headers: the dry run and the real pass *)

Lemma preliminarySheet_appendChunks w info :
  preliminarySheet w info =
  appendChunks w (sheetHeaderChunks dryNameData (currentOffset w) info).
Proof.
  unfold preliminarySheet, sheetHeaderChunks, getCurrentOffset.
  rewrite writeColumnTypes_appendChunks.
  rewrite !writeUint32_appendChunks, writeBytes_appendChunks.
  rewrite !appendChunks_app. f_equal.
Qed.

Lemma writeSheetHeader_appendChunks w info :
  writeSheetHeader w info =
  appendChunks w (sheetHeaderChunks (realNameData info) (currentOffset w) info).
Proof.
  unfold writeSheetHeader, sheetHeaderChunks, getCurrentOffset.
  rewrite writeColumnTypes_appendChunks.
  rewrite !writeUint32_appendChunks, writeBytes_appendChunks.
  rewrite !appendChunks_app. f_equal.
Qed.

Lemma chunksLength_sheetHeaderChunks nameData off info :
  (forall n, byteLength (encodedNameBytes info) <= n -> byteLength (nameData n) = n) ->
  chunksLength (sheetHeaderChunks nameData off info) = sheetHeaderSize off info.
Proof.
  intros Hname. unfold sheetHeaderChunks, sheetHeaderSize.
  rewrite !chunksLength_app, !chunksLength_cons, chunksLength_nil, chunksLength_types.
  simpl chunk_bytes. rewrite !byteLength_le32, Hname.
  - lia.
  - pose proof (lengthWithPadding_bounds (off + 4) (byteLength (encodedNameBytes info))).
    lia.
Qed.

Lemma byteLength_dryNameData info n :
  byteLength (encodedNameBytes info) <= n -> byteLength (dryNameData n) = n.
Proof.
  intros H. unfold dryNameData. rewrite byteLength_replicate.
  pose proof (byteLength_nonneg (encodedNameBytes info)). lia.
Qed.

Lemma byteLength_realNameData info n :
  byteLength (encodedNameBytes info) <= n -> byteLength (realNameData info n) = n.
Proof. apply byteLength_paddedBytes. Qed.

Lemma currentOffset_preliminarySheet w info :
  currentOffset (preliminarySheet w info) =
  currentOffset w + sheetHeaderSize (currentOffset w) info.
Proof.
  rewrite preliminarySheet_appendChunks. simpl.
  rewrite chunksLength_sheetHeaderChunks; [done | apply byteLength_dryNameData].
Qed.

Lemma currentOffset_writeSheetHeader w info :
  currentOffset (writeSheetHeader w info) =
  currentOffset w + sheetHeaderSize (currentOffset w) info.
Proof.
  rewrite writeSheetHeader_appendChunks. simpl.
  rewrite chunksLength_sheetHeaderChunks; [done | apply byteLength_realNameData].
Qed.

Lemma currentOffset_fold_preliminarySheet infos w :
  currentOffset (fold_left preliminarySheet infos w) =
  headersEnd (currentOffset w) infos.
Proof.
  revert w. induction infos as [|info infos IH]; intros w; simpl; [done|].
  by rewrite IH, currentOffset_preliminarySheet.
Qed.

Lemma fold_writeSheetHeader_appendChunks infos w :
  fold_left writeSheetHeader infos w =
  appendChunks w (headersChunks (currentOffset w) infos).
Proof.
  revert w. induction infos as [|info infos IH]; intros w; simpl.
  - by rewrite appendChunks_nil.
  - rewrite IH, currentOffset_writeSheetHeader.
    rewrite writeSheetHeader_appendChunks, appendChunks_app. done.
Qed.

Lemma chunksLength_headersChunks off infos :
  off + chunksLength (headersChunks off infos) = headersEnd off infos.
Proof.
  revert off. induction infos as [|info infos IH]; intros off;
    cbn [headersChunks headersEnd].
  - rewrite chunksLength_nil. lia.
  - rewrite chunksLength_app, <- IH.
    rewrite chunksLength_sheetHeaderChunks by apply byteLength_realNameData. lia.
Qed.

Lemma currentOffset_fold_writeSheetHeader infos w :
  currentOffset (fold_left writeSheetHeader infos w) =
  headersEnd (currentOffset w) infos.
Proof.
  rewrite fold_writeSheetHeader_appendChunks. simpl.
  apply chunksLength_headersChunks.
Qed.

Lemma sameShape_refl c : sameShape c c.
Proof. by repeat split. Qed.

Lemma sameShape_sheetHeaderChunks off info :
  Forall2 sameShape (sheetHeaderChunks dryNameData off info)
                    (sheetHeaderChunks (realNameData info) off info).
Proof.
  unfold sheetHeaderChunks. cbn [app].
  constructor; [apply sameShape_refl|].
  constructor.
  { repeat split; simpl; [|congruence].
    apply Nat2Z.inj. fold (byteLength (dryNameData
      (lengthWithPadding (off + 4) (byteLength (encodedNameBytes info))))).
    fold (byteLength (realNameData info
      (lengthWithPadding (off + 4) (byteLength (encodedNameBytes info))))).
    pose proof (lengthWithPadding_bounds (off + 4) (byteLength (encodedNameBytes info))).
    rewrite (byteLength_dryNameData info), byteLength_realNameData; lia. }
  constructor; [apply sameShape_refl|].
  apply Forall2_app.
  - induction (columnTypes info) as [|t ts IH]; cbn [map]; constructor; [|done].
    apply sameShape_refl.
  - constructor; [apply sameShape_refl|].
    constructor; [apply sameShape_refl|]. constructor.
Qed.

Lemma sameShape_fold infos w w' :
  currentOffset w = currentOffset w' ->
  Forall2 sameShape (buffers w) (buffers w') ->
  Forall2 sameShape (buffers (fold_left preliminarySheet infos w))
                    (buffers (fold_left writeSheetHeader infos w')).
Proof.
  revert w w'. induction infos as [|info infos IH]; intros w w' Hoff Hsh; simpl; [done|].
  apply IH.
  - rewrite currentOffset_preliminarySheet, currentOffset_writeSheetHeader.
    by rewrite Hoff.
  - rewrite preliminarySheet_appendChunks, writeSheetHeader_appendChunks. simpl.
    apply Forall2_app; [done|]. rewrite Hoff. apply sameShape_sheetHeaderChunks.
Qed.


(** ** Phase 3: the structural block *)

Lemma calculatedExpaAreaSizePerRow_rowWidth columns :
  calculatedExpaAreaSizePerRow columns = rowWidth columns.
Proof.
  unfold calculatedExpaAreaSizePerRow.
  assert (forall a, fold_left (fun acc column => acc + cellWidth (col_type column))
                      columns a = a + rowWidth columns) as H.
  { induction columns as [|col columns IH]; intros a; simpl; [lia|].
    rewrite IH. lia. }
  rewrite H. lia.
Qed.

Lemma rowWidth_nonneg columns : 0 <= rowWidth columns.
Proof.
  induction columns as [|col columns IH]; simpl; [lia|].
  destruct (col_type col); simpl; lia.
Qed.

Lemma writeRowCells_appendChunks w columns c cells :
  writeRowCells Number_of_string w columns c cells =
  appendChunks w (rowChunks Number_of_string columns c cells).
Proof.
  revert w c. induction columns as [|col columns IH]; intros w c; simpl.
  - by rewrite appendChunks_nil.
  - rewrite IH. destruct (col_type col);
      rewrite ?writeInt32_appendChunks, ?writeUint32_appendChunks,
        ?appendChunks_app; done.
Qed.

Lemma chunksLength_rowChunks columns c cells :
  chunksLength (rowChunks Number_of_string columns c cells) = rowWidth columns.
Proof.
  revert c. induction columns as [|col columns IH]; intros c; simpl; [done|].
  rewrite chunksLength_app, IH. by destruct (col_type col).
Qed.

Lemma fst_tracedRowCells w columns c cells :
  fst (tracedRowCells Number_of_string String_of_number w columns c cells)
  = writeRowCells Number_of_string w columns c cells.
Proof.
  revert w c. induction columns as [|col columns IH]; intros w c; simpl; [done|].
  destruct (col_type col); [apply IH| |].
  all: specialize (IH (writeUint32 (writeUint32 w 0) 0) (S c));
    destruct (tracedRowCells _ _ _ _ _ _) as [w' t]; simpl in *; done.
Qed.

Lemma snd_tracedRowCells w columns c cells :
  snd (tracedRowCells Number_of_string String_of_number w columns c cells)
  = placeholdersRow String_of_number (currentOffset w) columns c cells.
Proof.
  revert w c. induction columns as [|col columns IH]; intros w c; simpl; [done|].
  destruct (col_type col); [apply IH| |].
  all: specialize (IH (writeUint32 (writeUint32 w 0) 0) (S c));
    destruct (tracedRowCells _ _ _ _ _ _) as [w' t]; cbn [snd] in *;
    rewrite IH, !currentOffset_writeUint32; unfold getCurrentOffset;
    do 2 f_equal; lia.
Qed.

Lemma fold_writeRowCells_appendChunks w columns rows :
  fold_left (fun w row => writeRowCells Number_of_string w columns 0 (row_cells row))
    rows w
  = appendChunks w (rowsChunks Number_of_string columns rows).
Proof.
  revert w. induction rows as [|row rows IH]; intros w; simpl.
  - by rewrite appendChunks_nil.
  - rewrite IH, writeRowCells_appendChunks, appendChunks_app. done.
Qed.

Lemma writeSheetRows_appendChunks w sheet :
  writeSheetRows Number_of_string w sheet =
  appendChunks w (rowsChunks Number_of_string (sheet_columns sheet) (sheet_rows sheet)).
Proof. apply fold_writeRowCells_appendChunks. Qed.

Lemma chunksLength_rowsChunks columns rows :
  chunksLength (rowsChunks Number_of_string columns rows)
  = rowWidth columns * Z.of_nat (length rows).
Proof.
  induction rows as [|row rows IH]; [cbn; rewrite chunksLength_nil; lia|].
  unfold rowsChunks in *. cbn [map concat length].
  rewrite chunksLength_app, IH, chunksLength_rowChunks. lia.
Qed.

Lemma fold_writeSheetRows_appendChunks w sheets :
  fold_left (writeSheetRows Number_of_string) sheets w
  = appendChunks w (sheetsChunks Number_of_string sheets).
Proof.
  revert w. induction sheets as [|sheet sheets IH]; intros w; simpl.
  - by rewrite appendChunks_nil.
  - rewrite IH, writeSheetRows_appendChunks, appendChunks_app. done.
Qed.

Lemma chunksLength_sheetsChunks sheets :
  chunksLength (sheetsChunks Number_of_string sheets) = expaSize sheets.
Proof.
  induction sheets as [|sheet sheets IH]; [done|].
  unfold sheetsChunks in *. cbn [map concat expaSize].
  rewrite chunksLength_app, IH, chunksLength_rowsChunks. done.
Qed.

Lemma tracedRows_spec w columns rows :
  tracedRows Number_of_string String_of_number w columns rows
  = (appendChunks w (rowsChunks Number_of_string columns rows),
     placeholdersRows String_of_number (currentOffset w) columns rows).
Proof.
  revert w. induction rows as [|row rows IH]; intros w; simpl.
  - by rewrite appendChunks_nil.
  - pose proof (fst_tracedRowCells w columns 0 (row_cells row)) as Hf.
    pose proof (snd_tracedRowCells w columns 0 (row_cells row)) as Hs.
    destruct (tracedRowCells _ _ _ _ _ _) as [w1 t1]. simpl in Hf, Hs. subst.
    rewrite IH, writeRowCells_appendChunks, appendChunks_app. simpl.
    by rewrite chunksLength_rowChunks.
Qed.

Lemma tracedSheets_spec w sheets :
  tracedSheets Number_of_string String_of_number w sheets
  = (appendChunks w (sheetsChunks Number_of_string sheets),
     placeholdersSheets String_of_number (currentOffset w) sheets).
Proof.
  revert w. induction sheets as [|sheet sheets IH]; intros w; simpl.
  - by rewrite appendChunks_nil.
  - rewrite tracedRows_spec, IH, appendChunks_app. simpl.
    by rewrite chunksLength_rowsChunks.
Qed.


(** ** Phase 2: what is collected *)

Lemma collectCells_spec columns c cells off acc :
  collectCells String_of_number columns c cells off acc
  = acc ++ map rawOfPlaceholder
             (filter nonEmpty (placeholdersRow String_of_number off columns c cells)).
Proof.
  revert c off acc. induction columns as [|col columns IH]; intros c off acc; simpl.
  - by rewrite app_nil_r.
  - rewrite IH. destruct (col_type col); simpl.
    + done.
    + destruct (decide (cellStr (cells !! c) = [])) as [He|He].
      * by rewrite filter_cons_False by (intros Hn; by apply Hn).
      * rewrite filter_cons_True by done. simpl. by rewrite <- app_assoc.
    + destruct (decide (cellStr (cells !! c) = [])) as [He|He].
      * by rewrite filter_cons_False by (intros Hn; by apply Hn).
      * rewrite filter_cons_True by done. simpl. by rewrite <- app_assoc.
Qed.

Lemma collectRows_spec columns start r rows acc :
  collectRows String_of_number columns (rowWidth columns) start r rows acc
  = acc ++ map rawOfPlaceholder
             (filter nonEmpty
                (placeholdersRows String_of_number (start + r * rowWidth columns)
                   columns rows)).
Proof.
  revert r acc. induction rows as [|row rows IH]; intros r acc; simpl.
  - by rewrite app_nil_r.
  - rewrite IH, collectCells_spec, filter_app, map_app, <- app_assoc.
    by replace (start + (r + 1) * rowWidth columns)
      with (start + r * rowWidth columns + rowWidth columns) by lia.
Qed.

Lemma zip_structureInfo (sheets : list MbeSheet) :
  zip sheets (map structureInfo sheets) = map (fun s => (s, structureInfo s)) sheets.
Proof. induction sheets as [|s sheets IH]; simpl; [done|]. by rewrite IH. Qed.

Lemma phase2Sheet_spec st sheet :
  phase2Sheet String_of_number st (sheet, structureInfo sheet)
  = {| p2_writer := writeSheetHeader (p2_writer st) (structureInfo sheet);
       p2_chnkRawStrings :=
         p2_chnkRawStrings st ++
         map rawOfPlaceholder
           (filter nonEmpty
              (placeholdersRows String_of_number (p2_runningExpaOffsetTracker st)
                 (sheet_columns sheet) (sheet_rows sheet)));
       p2_sheetExpaDataStartOffsets :=
         p2_sheetExpaDataStartOffsets st ++ [p2_runningExpaOffsetTracker st];
       p2_runningExpaOffsetTracker :=
         p2_runningExpaOffsetTracker st
         + rowWidth (sheet_columns sheet) * Z.of_nat (length (sheet_rows sheet)) |}.
Proof.
  unfold phase2Sheet.
  cbn [structureInfo expaAreaSizePerRow rowCount].
  rewrite calculatedExpaAreaSizePerRow_rowWidth, collectRows_spec.
  by replace (p2_runningExpaOffsetTracker st + 0 * rowWidth (sheet_columns sheet))
    with (p2_runningExpaOffsetTracker st) by lia.
Qed.

Lemma phase2_fold sheets st :
  fold_left (phase2Sheet String_of_number)
    (map (fun s => (s, structureInfo s)) sheets) st
  = {| p2_writer := fold_left writeSheetHeader (map structureInfo sheets) (p2_writer st);
       p2_chnkRawStrings :=
         p2_chnkRawStrings st ++
         map rawOfPlaceholder
           (filter nonEmpty
              (placeholdersSheets String_of_number (p2_runningExpaOffsetTracker st) sheets));
       p2_sheetExpaDataStartOffsets :=
         p2_sheetExpaDataStartOffsets st
         ++ sheetStarts (p2_runningExpaOffsetTracker st) sheets;
       p2_runningExpaOffsetTracker :=
         p2_runningExpaOffsetTracker st + expaSize sheets |}.
Proof.
  revert st. induction sheets as [|sheet sheets IH]; intros st.
  - destruct st. simpl. rewrite !app_nil_r. f_equal. lia.
  - cbn [map fold_left]. rewrite IH, phase2Sheet_spec.
    cbn [p2_writer p2_chnkRawStrings p2_sheetExpaDataStartOffsets
         p2_runningExpaOffsetTracker placeholdersSheets sheetStarts expaSize].
    rewrite filter_app, map_app, <- !app_assoc. cbn [app].
    f_equal. lia.
Qed.

(** ** Phase 4: the pool *)

Lemma writeChnkEntry_appendChunks w e :
  writeChnkEntry w e = appendChunks w (entryChunks (currentOffset w) e).
Proof.
  unfold writeChnkEntry, entryChunks, getCurrentOffset.
  rewrite !writeUint32_appendChunks, writeBytes_appendChunks, !appendChunks_app.
  done.
Qed.

Lemma chunksLength_entryChunks off e :
  chunksLength (entryChunks off e) = entrySize off e.
Proof.
  unfold entryChunks, entrySize.
  rewrite !chunksLength_cons, chunksLength_nil. simpl chunk_bytes.
  rewrite !byteLength_le32, byteLength_paddedBytes; [lia|].
  pose proof (lengthWithPadding_bounds (off + 8) (byteLength (encodedBytes e))). lia.
Qed.

Lemma fold_writeChnkEntry_appendChunks entries w :
  fold_left writeChnkEntry entries w
  = appendChunks w (entriesChunks (currentOffset w) entries).
Proof.
  revert w. induction entries as [|e entries IH]; intros w; cbn [fold_left entriesChunks].
  - by rewrite appendChunks_nil.
  - rewrite IH, writeChnkEntry_appendChunks, appendChunks_app. simpl currentOffset.
    by rewrite chunksLength_entryChunks.
Qed.

Lemma writeChnkBlock_appendChunks w chnkRawStrings :
  writeChnkBlock w chnkRawStrings
  = appendChunks w (chnkChunks (currentOffset w) chnkRawStrings).
Proof.
  unfold writeChnkBlock, chnkChunks. destruct chnkRawStrings as [|e l].
  - simpl. by rewrite appendChunks_nil.
  - replace (0 <? Z.of_nat (length (e :: l))) with true
      by (symmetry; apply Z.ltb_lt; simpl; lia).
    rewrite fold_writeChnkEntry_appendChunks.
    rewrite writeBytes_appendChunks, writeUint32_appendChunks, !appendChunks_app.
    f_equal.
Qed.


(** ** The whole run of the generator *)

Lemma run_totalHeaderSize_spec mbeFile :
  run_totalHeaderSize (generate_run mbeFile) = headerEnd mbeFile.
Proof.
  unfold generateMbeFile_run, headerEnd. cbn [run_totalHeaderSize].
  unfold preliminaryHeaderWriter, getCurrentOffset.
  by rewrite currentOffset_fold_preliminarySheet.
Qed.

Lemma run_headerWriter_spec mbeFile :
  run_headerWriter (generate_run mbeFile)
  = appendChunks newWriter
      (preambleChunks mbeFile ++ headersChunks 8 (map structureInfo (sheets mbeFile))).
Proof.
  unfold generateMbeFile_run. cbn [run_headerWriter].
  rewrite zip_structureInfo, phase2_fold. cbn [p2_writer].
  rewrite fold_writeSheetHeader_appendChunks.
  rewrite writeUint32_appendChunks, writeBytes_appendChunks, !appendChunks_app.
  done.
Qed.

Lemma currentOffset_headerWriter mbeFile :
  currentOffset (run_headerWriter (generate_run mbeFile)) = headerEnd mbeFile.
Proof.
  rewrite run_headerWriter_spec. cbn [appendChunks currentOffset newWriter].
  rewrite chunksLength_app. unfold headerEnd.
  rewrite <- chunksLength_headersChunks.
  unfold preambleChunks. rewrite !chunksLength_cons, chunksLength_nil.
  simpl chunk_bytes. rewrite byteLength_le32.
  replace (byteLength EXPA_MAGIC_BYTES) with 4 by reflexivity. lia.
Qed.

Lemma run_warnings_spec mbeFile :
  run_warnings (generate_run mbeFile) =
  if decide (getCurrentOffset (run_headerWriter (generate_run mbeFile))
             = run_totalHeaderSize (generate_run mbeFile))
  then [] else [MismatchExpaStart (run_totalHeaderSize (generate_run mbeFile))
                  (getCurrentOffset (run_headerWriter (generate_run mbeFile)))].
Proof. reflexivity. Qed.

Lemma run_chnkRawStrings_spec mbeFile :
  run_chnkRawStrings (generate_run mbeFile)
  = map rawOfPlaceholder
      (filter nonEmpty
         (placeholdersSheets String_of_number (headerEnd mbeFile) (sheets mbeFile))).
Proof.
  pose proof (run_totalHeaderSize_spec mbeFile) as HH.
  unfold generateMbeFile_run in *. cbn [run_chnkRawStrings run_totalHeaderSize] in *.
  rewrite zip_structureInfo, phase2_fold.
  cbn [p2_chnkRawStrings p2_runningExpaOffsetTracker app]. by rewrite HH.
Qed.

Lemma stringPlaceholders_spec mbeFile :
  stringPlaceholders Number_of_string String_of_number mbeFile
  = placeholdersSheets String_of_number (headerEnd mbeFile) (sheets mbeFile).
Proof.
  unfold stringPlaceholders. rewrite tracedSheets_spec. cbn [snd].
  by rewrite currentOffset_headerWriter.
Qed.

Lemma run_expaWriter_spec mbeFile :
  run_expaWriter (generate_run mbeFile)
  = appendChunks (run_headerWriter (generate_run mbeFile))
      (sheetsChunks Number_of_string (sheets mbeFile)).
Proof.
  rewrite <- fold_writeSheetRows_appendChunks. reflexivity.
Qed.

Lemma currentOffset_expaWriter mbeFile :
  currentOffset (run_expaWriter (generate_run mbeFile)) = expaEnd mbeFile.
Proof.
  rewrite run_expaWriter_spec. cbn [appendChunks currentOffset].
  by rewrite currentOffset_headerWriter, chunksLength_sheetsChunks.
Qed.

Lemma run_writer_spec mbeFile :
  run_writer (generate_run mbeFile)
  = appendChunks (run_expaWriter (generate_run mbeFile))
      (chnkChunks (expaEnd mbeFile) (run_chnkRawStrings (generate_run mbeFile))).
Proof.
  rewrite <- currentOffset_expaWriter, <- writeChnkBlock_appendChunks. reflexivity.
Qed.


(** ** Alignment is preserved by every step of the generator *)

Lemma wAligned4_writeUint32 w v : wAligned4 w -> wAligned4 (writeUint32 w v).
Proof.
  intros [Hal Hoff]. split; [by apply wAligned_writeUint32|].
  rewrite currentOffset_writeUint32. by apply mod4_add4.
Qed.

Lemma wAligned4_writeInt32 w v : wAligned4 w -> wAligned4 (writeInt32 w v).
Proof.
  intros [Hal Hoff]. split; [by apply wAligned_writeInt32|].
  rewrite currentOffset_writeInt32. by apply mod4_add4.
Qed.

Lemma wAligned4_writeBytes w bytes :
  wAligned w -> (currentOffset w + byteLength bytes) mod 4 = 0 ->
  wAligned4 (writeBytes w bytes).
Proof. intros Hal Hoff. split; [by apply wAligned_writeBytes | done]. Qed.

Lemma wAligned4_writeColumnTypes w types :
  wAligned4 w -> wAligned4 (writeColumnTypes w types).
Proof.
  unfold writeColumnTypes. revert w.
  induction types as [|t types IH]; intros w Hw; simpl; [done|].
  apply IH. by apply wAligned4_writeUint32.
Qed.

Lemma wAligned4_writeSheetHeader w info :
  wAligned4 w -> wAligned4 (writeSheetHeader w info).
Proof.
  intros Hw. unfold writeSheetHeader.
  do 2 apply wAligned4_writeUint32. apply wAligned4_writeColumnTypes.
  apply wAligned4_writeUint32.
  pose proof (lengthWithPadding_bounds (getCurrentOffset w + 4)
                (byteLength (encodedNameBytes info))) as Hb.
  apply wAligned4_writeBytes.
  - apply wAligned_writeUint32; apply Hw.
  - rewrite currentOffset_writeUint32, byteLength_paddedBytes by lia.
    apply lengthWithPadding_aligned.
Qed.

Lemma wAligned4_fold_writeSheetHeader infos w :
  wAligned4 w -> wAligned4 (fold_left writeSheetHeader infos w).
Proof.
  revert w. induction infos as [|info infos IH]; intros w Hw; simpl; [done|].
  apply IH. by apply wAligned4_writeSheetHeader.
Qed.

Lemma wAligned4_writeRowCells w columns c cells :
  wAligned4 w -> wAligned4 (writeRowCells Number_of_string w columns c cells).
Proof.
  revert w c. induction columns as [|col columns IH]; intros w c Hw; simpl; [done|].
  apply IH. destruct (col_type col).
  - by apply wAligned4_writeInt32.
  - by do 2 apply wAligned4_writeUint32.
  - by do 2 apply wAligned4_writeUint32.
Qed.

Lemma wAligned4_writeSheetRows w sheet :
  wAligned4 w -> wAligned4 (writeSheetRows Number_of_string w sheet).
Proof.
  unfold writeSheetRows. generalize (sheet_rows sheet) as rows. intros rows. revert w.
  induction rows as [|row rows IH]; intros w Hw; simpl; [done|].
  apply IH. by apply wAligned4_writeRowCells.
Qed.

Lemma wAligned4_fold_writeSheetRows sheets w :
  wAligned4 w -> wAligned4 (fold_left (writeSheetRows Number_of_string) sheets w).
Proof.
  revert w. induction sheets as [|sheet sheets IH]; intros w Hw; simpl; [done|].
  apply IH. by apply wAligned4_writeSheetRows.
Qed.

Lemma wAligned4_writeChnkEntry w e : wAligned4 w -> wAligned4 (writeChnkEntry w e).
Proof.
  intros Hw. unfold writeChnkEntry.
  pose proof (lengthWithPadding_bounds (getCurrentOffset w + 8)
                (byteLength (encodedBytes e))) as Hb.
  pose proof (lengthWithPadding_aligned (getCurrentOffset w + 8)
                (byteLength (encodedBytes e))) as Ha.
  apply wAligned4_writeBytes.
  - apply wAligned4_writeUint32. by apply wAligned4_writeUint32.
  - rewrite !currentOffset_writeUint32, byteLength_paddedBytes by lia.
    unfold getCurrentOffset in Ha.
    by replace (currentOffset w + 4 + 4) with (currentOffset w + 8) by lia.
Qed.

Lemma wAligned4_writeChnkBlock w entries :
  wAligned4 w -> wAligned4 (writeChnkBlock w entries).
Proof.
  intros Hw. unfold writeChnkBlock. destruct (0 <? _); [|done].
  assert (forall l w, wAligned4 w -> wAligned4 (fold_left writeChnkEntry l w)) as Hfold.
  { induction l as [|e l IH]; intros w' Hw'; simpl; [done|].
    apply IH. by apply wAligned4_writeChnkEntry. }
  apply Hfold. apply wAligned4_writeUint32. apply wAligned4_writeBytes; [apply Hw|].
  destruct Hw as [_ Hoff]. replace (byteLength CHNK_MAGIC_BYTES) with 4 by done.
  by apply mod4_add4.
Qed.

Lemma run_headerWriter_fold mbeFile :
  run_headerWriter (generate_run mbeFile)
  = fold_left writeSheetHeader (map structureInfo (sheets mbeFile))
      (writeUint32 (writeBytes newWriter EXPA_MAGIC_BYTES)
         (Z.of_nat (length (sheets mbeFile)))).
Proof.
  unfold generateMbeFile_run. cbn [run_headerWriter].
  by rewrite zip_structureInfo, phase2_fold.
Qed.

Lemma wAligned4_run_writer mbeFile : wAligned4 (run_writer (generate_run mbeFile)).
Proof.
  change (run_writer (generate_run mbeFile))
    with (writeChnkBlock
            (fold_left (writeSheetRows Number_of_string) (sheets mbeFile)
               (run_headerWriter (generate_run mbeFile)))
            (run_chnkRawStrings (generate_run mbeFile))).
  apply wAligned4_writeChnkBlock, wAligned4_fold_writeSheetRows.
  rewrite run_headerWriter_fold.
  apply wAligned4_fold_writeSheetHeader, wAligned4_writeUint32, wAligned4_writeBytes.
  - apply wAligned_new.
  - reflexivity.
Qed.

Lemma run_warnings_nil mbeFile : run_warnings (generate_run mbeFile) = [].
Proof.
  rewrite run_warnings_spec. unfold getCurrentOffset.
  rewrite run_totalHeaderSize_spec, currentOffset_headerWriter.
  by rewrite decide_True.
Qed.

(** C10: the dry run of sub-phase 2.1 and the real pass of sub-phase 2.2
    agree.  The total header size of the dry run is the offset of the real
    writer after the headers, which is the number of bytes it holds; both
    passes push buffers of the same sizes, with identical integer fields,
    hence identical name lengths; the mismatch warning is never logged;
    and the pool entries collected are exactly the non-empty string cells
    of phase 3, each with the offset at which the real writer wrote its
    placeholder. *)
Theorem dry_run_matches_real_pass (mbeFile : MbeFile) :
  let run := generate_run mbeFile in
  run_totalHeaderSize run = getCurrentOffset (run_headerWriter run) /\
  getCurrentOffset (run_headerWriter run)
    = byteLength (toArrayBuffer (run_headerWriter run)) /\
  Forall2 sameShape
    (buffers (preliminaryHeaderWriter (map structureInfo (sheets mbeFile))))
    (buffers (run_headerWriter run)) /\
  run_warnings run = [] /\
  fst (tracedSheets Number_of_string String_of_number (run_headerWriter run)
         (sheets mbeFile)) = run_expaWriter run /\
  run_chnkRawStrings run
    = map rawOfPlaceholder
        (filter nonEmpty (stringPlaceholders Number_of_string String_of_number mbeFile)).
Proof.
  intros run. subst run.
  assert (run_totalHeaderSize (generate_run mbeFile)
          = getCurrentOffset (run_headerWriter (generate_run mbeFile))) as Hsize.
  { unfold getCurrentOffset.
    by rewrite run_totalHeaderSize_spec, currentOffset_headerWriter. }
  split; [done|]. split.
  { rewrite run_headerWriter_fold.
    apply wAligned4_fold_writeSheetHeader, wAligned4_writeUint32, wAligned4_writeBytes.
    - apply wAligned_new.
    - reflexivity. }
  split.
  { rewrite run_headerWriter_fold. unfold preliminaryHeaderWriter.
    rewrite length_map. apply sameShape_fold; [done|].
    apply Forall2_same_length_lookup_2; [done|].
    intros i c c' Hc Hc'. rewrite Hc in Hc'. injection Hc' as <-.
    apply sameShape_refl. }
  split; [apply run_warnings_nil|].
  split.
  { by rewrite tracedSheets_spec, run_expaWriter_spec. }
  by rewrite run_chnkRawStrings_spec, stringPlaceholders_spec.
Qed.

(** C5: in the buffer produced by [generateMbeFile], every buffer pushed
    by [writeUint32] or [writeInt32] (sheet count, name lengths, column
    counts, column tags, row sizes, row counts, INT cells, both halves of
    the string placeholders, the pool's entry count, and the target offset
    and length of every pool entry) starts at a multiple of 4. *)
Theorem u32_fields_aligned (mbeFile : MbeFile) :
  let w := run_writer (generate_run mbeFile) in
  generate mbeFile = concat (map chunk_bytes (buffers w)) /\
  forall (i : nat) (c : chunk),
    buffers w !! i = Some c ->
    chunk_kind_of c <> RawBytes ->
    byteLength (concat (map chunk_bytes (take i (buffers w)))) mod 4 = 0.
Proof.
  intros w. split; [reflexivity|].
  destruct (wAligned4_run_writer mbeFile) as [[_ Hal] _]. exact Hal.
Qed.

(** C2: the padding of every variable-length string field.  A sheet name
    is written only by [writeSheetHeader] and a pool entry only by
    [writeChnkEntry].  With [L] the encoded length, each chooses the
    number [N] of NUL bytes by the padding rule against the offset after
    the data, pushes the length field [L + N] and then the data followed
    by [N] zero bytes; the length field reads back as [L + N] when that
    fits 32 bits.  [generateMbeFile] writes its headers by
    [writeSheetHeader], one sheet after the other, and its pool by
    [writeChnkEntry], one collected entry after the other. *)
Theorem padding_of_string_fields :
  (forall (w : ArrayBufferWriter) (info : SheetStructureInfo),
     let L := byteLength (encodedNameBytes info) in
     let N := lengthWithPadding (getCurrentOffset w + 4) L - L in
     paddingRule (getCurrentOffset w + 4) L N /\
     exists rest,
       buffers (writeSheetHeader w info)
       = buffers w
         ++ [ mkChunk Uint32Field (le32 (L + N));
              mkChunk RawBytes (encodedNameBytes info ++ replicate (Z.to_nat N) 0) ]
         ++ rest) /\
  (forall (w : ArrayBufferWriter) (rawEntry : ChnkRawString),
     let L := byteLength (encodedBytes rawEntry) in
     let N := lengthWithPadding (getCurrentOffset w + 8) L - L in
     paddingRule (getCurrentOffset w + 8) L N /\
     buffers (writeChnkEntry w rawEntry)
     = buffers w
       ++ [ mkChunk Uint32Field (le32 (targetExpaAbsoluteFileOffset rawEntry));
            mkChunk Uint32Field (le32 (L + N));
            mkChunk RawBytes (encodedBytes rawEntry ++ replicate (Z.to_nat N) 0) ]) /\
  (forall L N : Z, 0 <= L + N < 2 ^ 32 -> le32_value (le32 (L + N)) 0 = L + N) /\
  (forall mbeFile : MbeFile,
     let run := generate_run mbeFile in
     run_headerWriter run
     = fold_left writeSheetHeader (map structureInfo (sheets mbeFile))
         (writeUint32 (writeBytes newWriter EXPA_MAGIC_BYTES)
            (Z.of_nat (length (sheets mbeFile)))) /\
     run_writer run
     = if decide (run_chnkRawStrings run = []) then run_expaWriter run
       else fold_left writeChnkEntry (sortByOffset (run_chnkRawStrings run))
              (writeUint32 (writeBytes (run_expaWriter run) CHNK_MAGIC_BYTES)
                 (Z.of_nat (length (run_chnkRawStrings run))))).
Proof.
  split; [|split; [|split]].
  - intros w info L N. split; [apply lengthWithPadding_rule|].
    rewrite writeSheetHeader_appendChunks. cbn [appendChunks buffers].
    unfold sheetHeaderChunks, realNameData, paddedBytes, getCurrentOffset in *.
    fold L. replace (L + N) with (lengthWithPadding (currentOffset w + 4) L)
      by (subst N; lia).
    eexists. cbn [app]. reflexivity.
  - intros w e L N. split; [apply lengthWithPadding_rule|].
    rewrite writeChnkEntry_appendChunks. cbn [appendChunks buffers].
    unfold entryChunks, paddedBytes, getCurrentOffset in *.
    fold L. replace (L + N) with (lengthWithPadding (currentOffset w + 8) L)
      by (subst N; lia).
    reflexivity.
  - intros L N H. rewrite le32_value_le32. by apply Z.mod_small.
  - intros mbeFile run. split; [apply run_headerWriter_fold|].
    change (run_writer run)
      with (writeChnkBlock (run_expaWriter run) (run_chnkRawStrings run)).
    unfold writeChnkBlock. by destruct (run_chnkRawStrings run).
Qed.


(** ** The output as three blocks *)

Lemma bytesOf_app (a b : list chunk) : bytesOf (a ++ b) = bytesOf a ++ bytesOf b.
Proof. unfold bytesOf. by rewrite map_app, concat_app. Qed.

Lemma byteLength_bytesOf (cs : list chunk) : byteLength (bytesOf cs) = chunksLength cs.
Proof. reflexivity. Qed.

Lemma generate_blocks mbeFile :
  generate mbeFile = headerBlock mbeFile ++ expaBlock mbeFile ++ chnkBlock mbeFile.
Proof.
  unfold generateMbeFile.
  rewrite run_writer_spec, run_expaWriter_spec, run_headerWriter_spec.
  rewrite !toArrayBuffer_appendChunks. unfold toArrayBuffer. simpl.
  by rewrite <- app_assoc.
Qed.

Lemma byteLength_headerBlock mbeFile :
  byteLength (headerBlock mbeFile) = headerEnd mbeFile.
Proof.
  unfold headerBlock, headerEnd.
  rewrite byteLength_bytesOf, chunksLength_app, <- chunksLength_headersChunks.
  unfold preambleChunks. rewrite !chunksLength_cons, chunksLength_nil.
  simpl chunk_bytes. rewrite byteLength_le32.
  replace (byteLength EXPA_MAGIC_BYTES) with 4 by reflexivity. lia.
Qed.

Lemma byteLength_expaBlock mbeFile :
  byteLength (expaBlock mbeFile) = expaSize (sheets mbeFile).
Proof. unfold expaBlock. by rewrite byteLength_bytesOf, chunksLength_sheetsChunks. Qed.

Lemma headersEnd_ge off infos : off <= headersEnd off infos.
Proof.
  rewrite <- chunksLength_headersChunks.
  pose proof (chunksLength_nonneg (headersChunks off infos)). lia.
Qed.

Lemma headerEnd_ge mbeFile : 8 <= headerEnd mbeFile.
Proof. apply headersEnd_ge. Qed.

Lemma expaSize_nonneg sheets : 0 <= expaSize sheets.
Proof.
  induction sheets as [|sheet sheets IH]; simpl; [lia|].
  pose proof (rowWidth_nonneg (sheet_columns sheet)). nia.
Qed.

Lemma expaEnd_le_length mbeFile : expaEnd mbeFile <= byteLength (generate mbeFile).
Proof.
  rewrite generate_blocks, !byteLength_app, byteLength_headerBlock, byteLength_expaBlock.
  unfold expaEnd. pose proof (byteLength_nonneg (chnkBlock mbeFile)). lia.
Qed.

(** ** Placeholders: where they are and what they hold *)

Lemma zeros8 : le32 0 ++ le32 0 = replicate 8 0.
Proof. reflexivity. Qed.

Lemma placeholdersRow_has_at off columns c cells O s :
  (O, s) ∈ placeholdersRow String_of_number off columns c cells ->
  has_at (bytesOf (rowChunks Number_of_string columns c cells)) (O - off)
    (replicate 8 0).
Proof.
  revert off c. induction columns as [|col columns IH]; intros off c H;
    cbn [placeholdersRow rowChunks] in *.
  - by apply elem_of_nil in H.
  - rewrite bytesOf_app. destruct (col_type col).
    + replace (O - off) with (byteLength (bytesOf
        [mkChunk Int32Field (le32 (cellNum (cells !! c)))]) + (O - (off + 4)))
        by (rewrite byteLength_bytesOf, !chunksLength_cons, chunksLength_nil; simpl chunk_bytes; rewrite ?byteLength_le32; lia).
      apply has_at_app_r. by apply IH.
    + apply elem_of_cons in H as [H|H].
      * injection H as -> _. replace (off - off) with 0 by lia.
        change (bytesOf [mkChunk Uint32Field (le32 0); mkChunk Uint32Field (le32 0)])
          with (replicate 8 0). apply has_at_here.
      * replace (O - off) with (byteLength (bytesOf
          [mkChunk Uint32Field (le32 0); mkChunk Uint32Field (le32 0)])
          + (O - (off + 8))) by (rewrite byteLength_bytesOf, !chunksLength_cons, chunksLength_nil; simpl chunk_bytes; rewrite ?byteLength_le32; lia).
        apply has_at_app_r. by apply IH.
    + apply elem_of_cons in H as [H|H].
      * injection H as -> _. replace (off - off) with 0 by lia.
        change (bytesOf [mkChunk Uint32Field (le32 0); mkChunk Uint32Field (le32 0)])
          with (replicate 8 0). apply has_at_here.
      * replace (O - off) with (byteLength (bytesOf
          [mkChunk Uint32Field (le32 0); mkChunk Uint32Field (le32 0)])
          + (O - (off + 8))) by (rewrite byteLength_bytesOf, !chunksLength_cons, chunksLength_nil; simpl chunk_bytes; rewrite ?byteLength_le32; lia).
        apply has_at_app_r. by apply IH.
Qed.

Lemma placeholdersRows_has_at off columns rows O s :
  (O, s) ∈ placeholdersRows String_of_number off columns rows ->
  has_at (bytesOf (rowsChunks Number_of_string columns rows)) (O - off)
    (replicate 8 0).
Proof.
  revert off. induction rows as [|row rows IH]; intros off H;
    cbn [placeholdersRows] in *.
  - by apply elem_of_nil in H.
  - unfold rowsChunks. cbn [map concat]. fold (rowsChunks Number_of_string columns rows).
    rewrite bytesOf_app. apply elem_of_app in H as [H|H].
    + apply has_at_app_l. by eapply placeholdersRow_has_at.
    + replace (O - off) with (byteLength (bytesOf
        (rowChunks Number_of_string columns 0 (row_cells row)))
        + (O - (off + rowWidth columns)))
        by (rewrite byteLength_bytesOf, chunksLength_rowChunks; lia).
      apply has_at_app_r. by apply IH.
Qed.

Lemma placeholdersSheets_has_at off sheets O s :
  (O, s) ∈ placeholdersSheets String_of_number off sheets ->
  has_at (bytesOf (sheetsChunks Number_of_string sheets)) (O - off)
    (replicate 8 0).
Proof.
  revert off. induction sheets as [|sheet sheets IH]; intros off H;
    cbn [placeholdersSheets] in *.
  - by apply elem_of_nil in H.
  - unfold sheetsChunks. cbn [map concat]. fold (sheetsChunks Number_of_string sheets).
    rewrite bytesOf_app. apply elem_of_app in H as [H|H].
    + apply has_at_app_l. by eapply placeholdersRows_has_at.
    + replace (O - off) with (byteLength (bytesOf
        (rowsChunks Number_of_string (sheet_columns sheet) (sheet_rows sheet)))
        + (O - (off + rowWidth (sheet_columns sheet)
                         * Z.of_nat (length (sheet_rows sheet)))))
        by (rewrite byteLength_bytesOf, chunksLength_rowsChunks; lia).
      apply has_at_app_r. by apply IH.
Qed.

Lemma placeholder_has_at mbeFile O s :
  (O, s) ∈ placeholdersSheets String_of_number (headerEnd mbeFile) (sheets mbeFile) ->
  has_at (generate mbeFile) O (replicate 8 0).
Proof.
  intros H. apply placeholdersSheets_has_at in H.
  rewrite generate_blocks.
  replace O with (byteLength (headerBlock mbeFile) + (O - headerEnd mbeFile))
    by (rewrite byteLength_headerBlock; lia).
  by apply has_at_app_r, has_at_app_l.
Qed.

Lemma elem_of_collected mbeFile e :
  e ∈ run_chnkRawStrings (generate_run mbeFile) <->
  exists O s, (O, s) ∈ placeholdersSheets String_of_number (headerEnd mbeFile)
                        (sheets mbeFile)
              /\ s <> [] /\ e = rawOfPlaceholder (O, s).
Proof.
  rewrite run_chnkRawStrings_spec, list_elem_of_fmap. split.
  - intros ([O s] & -> & H). apply list_elem_of_filter in H as [Hne H].
    by exists O, s.
  - intros (O & s & H & Hne & ->). exists (O, s). split; [done|].
    by apply list_elem_of_filter.
Qed.

(** ** The placeholders are spaced by at least 8 bytes *)

Lemma spaced_nil lo hi : spaced lo hi [].
Proof. split; constructor. Qed.

Lemma spaced_weaken lo hi lo' hi' l :
  spaced lo hi l -> lo' <= lo -> hi <= hi' -> spaced lo' hi' l.
Proof.
  intros [Hb Hs] Hlo Hhi. split; [|done].
  eapply Forall_impl; [exact Hb|]. simpl. intros p [? ?]. split; lia.
Qed.

Lemma spaced_app lo mid hi a b :
  spaced lo mid a -> spaced mid hi b -> lo <= mid -> mid <= hi -> spaced lo hi (a ++ b).
Proof.
  intros [Hba Hsa] [Hbb Hsb] Hlo Hhi. split.
  - apply Forall_app. split.
    + eapply Forall_impl; [exact Hba|]. simpl. intros p [? ?]. split; lia.
    + eapply Forall_impl; [exact Hbb|]. simpl. intros p [? ?]. split; lia.
  - clear Hlo Hhi. induction a as [|p a IH]; [done|]. simpl.
    apply Forall_cons in Hba as [[Hp1 Hp2] Hba].
    apply StronglySorted_inv in Hsa as [Hsa Hpa].
    constructor; [by apply IH|].
    apply Forall_app. split; [done|].
    eapply Forall_impl; [exact Hbb|]. simpl. intros q [? ?]. lia.
Qed.

Lemma spaced_cons lo hi o s l :
  lo <= o -> o + 8 <= hi -> spaced (o + 8) hi l -> spaced lo hi ((o, s) :: l).
Proof.
  intros Hlo Hhi Hl. change ((o, s) :: l) with ([(o, s)] ++ l).
  apply (spaced_app lo (o + 8) hi); [|done|lia|lia].
  split; repeat constructor; simpl; lia.
Qed.

Lemma placeholdersRow_spaced off columns c cells :
  spaced off (off + rowWidth columns)
    (placeholdersRow String_of_number off columns c cells).
Proof.
  revert off c. induction columns as [|col columns IH]; intros off c;
    cbn [placeholdersRow rowWidth].
  - apply spaced_nil.
  - pose proof (rowWidth_nonneg columns) as Hw.
    specialize (IH (off + cellWidth (col_type col)) (S c)).
    destruct (col_type col); cbn [cellWidth] in *.
    + eapply spaced_weaken; [exact IH|lia|lia].
    + apply spaced_cons; [lia|lia|]. eapply spaced_weaken; [exact IH|lia|lia].
    + apply spaced_cons; [lia|lia|]. eapply spaced_weaken; [exact IH|lia|lia].
Qed.

Lemma placeholdersRows_spaced off columns rows :
  spaced off (off + rowWidth columns * Z.of_nat (length rows))
    (placeholdersRows String_of_number off columns rows).
Proof.
  revert off. induction rows as [|row rows IH]; intros off;
    cbn [placeholdersRows length].
  - apply spaced_nil.
  - pose proof (rowWidth_nonneg columns) as Hw.
    apply (spaced_app _ (off + rowWidth columns)).
    + apply placeholdersRow_spaced.
    + eapply spaced_weaken; [apply IH|lia|lia].
    + lia.
    + nia.
Qed.

Lemma placeholdersSheets_spaced off sheets :
  spaced off (off + expaSize sheets)
    (placeholdersSheets String_of_number off sheets).
Proof.
  revert off. induction sheets as [|sheet sheets IH]; intros off;
    cbn [placeholdersSheets expaSize].
  - apply spaced_nil.
  - pose proof (rowWidth_nonneg (sheet_columns sheet)) as Hw.
    pose proof (expaSize_nonneg sheets) as He.
    apply (spaced_app _ (off + rowWidth (sheet_columns sheet)
                               * Z.of_nat (length (sheet_rows sheet)))).
    + apply placeholdersRows_spaced.
    + eapply spaced_weaken; [apply IH|lia|lia].
    + nia.
    + lia.
Qed.

Lemma spaced_filter lo hi (P : Z * jsstring -> Prop) `{forall p, Decision (P p)} l :
  spaced lo hi l -> spaced lo hi (filter P l).
Proof.
  intros [Hb Hs]. split.
  - apply Forall_forall. intros p Hp%list_elem_of_filter.
    rewrite Forall_forall in Hb. apply Hb, Hp.
  - induction l as [|p l IH]; [constructor|].
    apply Forall_cons in Hb as [Hp Hb].
    apply StronglySorted_inv in Hs as [Hs Hpl].
    rewrite filter_cons. destruct (decide (P p)); [|by apply IH].
    constructor; [by apply IH|].
    apply Forall_forall. intros q Hq%list_elem_of_filter.
    rewrite Forall_forall in Hpl. apply Hpl, Hq.
Qed.

Lemma spaced_fst_lt lo hi l : spaced lo hi l -> StronglySorted Z.lt (map fst l).
Proof.
  intros [_ Hs]. induction Hs as [|p l Hs IH Hpl]; simpl; constructor; [done|].
  apply Forall_forall. intros o (q & -> & Hq)%list_elem_of_fmap.
  rewrite Forall_forall in Hpl. specialize (Hpl q Hq). lia.
Qed.

Lemma spaced_fst_inj lo hi l p q :
  spaced lo hi l -> p ∈ l -> q ∈ l -> fst p = fst q -> p = q.
Proof.
  intros [_ Hs] Hp Hq Heq. induction Hs as [|x l Hs IH Hxl]; [by apply elem_of_nil in Hp|].
  rewrite Forall_forall in Hxl.
  apply elem_of_cons in Hp as [->|Hp]; apply elem_of_cons in Hq as [->|Hq].
  - done.
  - specialize (Hxl q Hq). lia.
  - specialize (Hxl p Hp). lia.
  - by apply IH.
Qed.

(** ** The sort leaves an increasing list as it is *)

Lemma sortByOffset_sorted (l : list ChnkRawString) :
  StronglySorted Z.lt (map targetExpaAbsoluteFileOffset l) -> sortByOffset l = l.
Proof.
  induction l as [|e l IH]; [done|]. simpl. intros Hs.
  apply StronglySorted_inv in Hs as [Hs He]. rewrite IH by done.
  destruct l as [|x l]; [done|]. simpl in *.
  apply Forall_cons in He as [He _].
  replace (targetExpaAbsoluteFileOffset e <=? targetExpaAbsoluteFileOffset x) with true
    by (symmetry; apply Z.leb_le; lia).
  done.
Qed.

Lemma map_target_rawOfPlaceholder (l : list (Z * jsstring)) :
  map targetExpaAbsoluteFileOffset (map rawOfPlaceholder l) = map fst l.
Proof. rewrite map_map. by apply map_ext. Qed.

Lemma collected_spaced mbeFile :
  spaced (headerEnd mbeFile) (expaEnd mbeFile)
    (filter nonEmpty
       (placeholdersSheets String_of_number (headerEnd mbeFile) (sheets mbeFile))).
Proof. apply spaced_filter, placeholdersSheets_spaced. Qed.

Lemma collected_increasing mbeFile :
  StronglySorted Z.lt
    (map targetExpaAbsoluteFileOffset (run_chnkRawStrings (generate_run mbeFile))).
Proof.
  rewrite run_chnkRawStrings_spec, map_target_rawOfPlaceholder.
  eapply spaced_fst_lt, collected_spaced.
Qed.

Lemma sortByOffset_collected mbeFile :
  sortByOffset (run_chnkRawStrings (generate_run mbeFile))
  = run_chnkRawStrings (generate_run mbeFile).
Proof. apply sortByOffset_sorted, collected_increasing. Qed.

Lemma collected_target_bounds mbeFile e :
  e ∈ run_chnkRawStrings (generate_run mbeFile) ->
  headerEnd mbeFile <= targetExpaAbsoluteFileOffset e /\
  targetExpaAbsoluteFileOffset e + 8 <= expaEnd mbeFile.
Proof.
  rewrite run_chnkRawStrings_spec. intros (p & -> & Hp)%list_elem_of_fmap.
  destruct (collected_spaced mbeFile) as [Hb _]. rewrite Forall_forall in Hb.
  apply (Hb p Hp).
Qed.

Lemma increasing_NoDup (l : list Z) : StronglySorted Z.lt l -> NoDup l.
Proof.
  induction 1 as [|o l Hs IH Hol]; constructor; [|done].
  rewrite Forall_forall in Hol. intros Hin. specialize (Hol o Hin). lia.
Qed.

Lemma collected_NoDup mbeFile :
  NoDup (map targetExpaAbsoluteFileOffset (run_chnkRawStrings (generate_run mbeFile))).
Proof. apply increasing_NoDup, collected_increasing. Qed.

(** C6: every pool entry that [generateMbeFile] emits carries a target
    offset [O] at which the output holds 8 zero bytes, the placeholder of
    its string cell; the offset is stored in the pool as it is when the
    output is smaller than 4 GiB. *)
Theorem pool_entries_point_at_placeholders (mbeFile : MbeFile) (e : ChnkRawString) :
  e ∈ sortByOffset (run_chnkRawStrings (generate_run mbeFile)) ->
  let O := targetExpaAbsoluteFileOffset e in
  0 <= O /\ O + 8 <= byteLength (generate mbeFile) /\
  slice (generate mbeFile) O 8 = replicate 8 0 /\
  (byteLength (generate mbeFile) < 2 ^ 32 -> le32_value (le32 O) 0 = O).
Proof.
  rewrite sortByOffset_collected. intros He O.
  pose proof (collected_target_bounds mbeFile e He) as [Hlo Hhi].
  pose proof (headerEnd_ge mbeFile) as HH.
  pose proof (expaEnd_le_length mbeFile) as HP.
  apply elem_of_collected in He as (O' & s & Hin & _ & ->).
  apply placeholder_has_at in Hin. cbn [rawOfPlaceholder targetExpaAbsoluteFileOffset fst] in *.
  subst O. split; [lia|]. split; [lia|]. split.
  - by apply has_at_slice in Hin.
  - intros Hsmall. rewrite le32_value_le32. apply Z.mod_small. lia.
Qed.

(** C7: the pool entries are emitted in strictly increasing order of
    their target offsets.  The entries collected are already in that
    order, the sort leaves them as they are, and the offsets stored in the
    pool are increasing as well when the output is smaller than 4 GiB. *)
Theorem pool_offsets_strictly_increasing (mbeFile : MbeFile) :
  let emitted := sortByOffset (run_chnkRawStrings (generate_run mbeFile)) in
  emitted = run_chnkRawStrings (generate_run mbeFile) /\
  StronglySorted Z.lt (map targetExpaAbsoluteFileOffset emitted) /\
  NoDup (map targetExpaAbsoluteFileOffset emitted) /\
  (byteLength (generate mbeFile) < 2 ^ 32 ->
   StronglySorted Z.lt
     (map (fun e => le32_value (le32 (targetExpaAbsoluteFileOffset e)) 0) emitted)).
Proof.
  intros emitted. subst emitted. rewrite sortByOffset_collected.
  pose proof (collected_increasing mbeFile) as Hs.
  split; [done|]. split; [done|]. split; [apply collected_NoDup|].
  intros Hsmall.
  replace (map (fun e => le32_value (le32 (targetExpaAbsoluteFileOffset e)) 0)
               (run_chnkRawStrings (generate_run mbeFile)))
      with (map targetExpaAbsoluteFileOffset (run_chnkRawStrings (generate_run mbeFile)));
      [done|].
    apply map_ext_in. intros e He%list_elem_of_In.
    pose proof (collected_target_bounds mbeFile e He) as [Hlo Hhi].
    pose proof (headerEnd_ge mbeFile) as HH.
    pose proof (expaEnd_le_length mbeFile) as HP.
    rewrite le32_value_le32. symmetry. apply Z.mod_small. lia.
Qed.


(** ** What the pool holds *)

Lemma placeholdersRow_shift off columns c x cells :
  placeholdersRow String_of_number off columns (S c) (x :: cells)
  = placeholdersRow String_of_number off columns c cells.
Proof.
  revert off c. induction columns as [|col columns IH]; intros off c; simpl; [done|].
  rewrite !IH. done.
Qed.

Lemma rowChunks_shift columns c x cells :
  rowChunks Number_of_string columns (S c) (x :: cells)
  = rowChunks Number_of_string columns c cells.
Proof.
  revert c. induction columns as [|col columns IH]; intros c; simpl; [done|].
  by rewrite IH.
Qed.

Lemma placeholdersRow_strings off columns cells :
  Forall2 cell_agrees columns cells ->
  map snd (filter nonEmpty (placeholdersRow String_of_number off columns 0 cells))
  = rowStrings columns cells.
Proof.
  intros H. revert off. induction H as [|col x columns cells Hx H IH]; intros off; [done|].
  cbn [placeholdersRow rowStrings]. rewrite !placeholdersRow_shift.
  unfold cell_agrees in Hx.
  destruct (col_type col), x as [n|s]; try (exfalso; exact Hx); cbn [isStringType].
  - apply IH.
  - cbn [lookup list_lookup cellString]. destruct (decide (s = [])) as [->|Hne].
    + rewrite filter_cons_False by (intros Hn; by apply Hn). apply IH.
    + rewrite filter_cons_True by done. cbn [map snd app]. by rewrite IH.
  - cbn [lookup list_lookup cellString]. destruct (decide (s = [])) as [->|Hne].
    + rewrite filter_cons_False by (intros Hn; by apply Hn). apply IH.
    + rewrite filter_cons_True by done. cbn [map snd app]. by rewrite IH.
Qed.

Lemma placeholdersRows_strings off columns rows :
  Forall (row_ok columns) rows ->
  map snd (filter nonEmpty (placeholdersRows String_of_number off columns rows))
  = concat (map (fun row => rowStrings columns (row_cells row)) rows).
Proof.
  intros H. revert off. induction H as [|row rows Hrow H IH]; intros off; [done|].
  cbn [placeholdersRows map concat].
  by rewrite filter_app, map_app, placeholdersRow_strings, IH.
Qed.

Lemma placeholdersSheets_strings off sheets :
  Forall sheet_ok sheets ->
  map snd (filter nonEmpty (placeholdersSheets String_of_number off sheets))
  = concat (map sheetStrings sheets).
Proof.
  intros H. revert off. induction H as [|sheet sheets Hsheet H IH]; intros off; [done|].
  cbn [placeholdersSheets map concat].
  by rewrite filter_app, map_app, placeholdersRows_strings, IH.
Qed.

Lemma collected_strings mbeFile :
  model_invariants mbeFile ->
  map encodedBytes (run_chnkRawStrings (generate_run mbeFile))
  = map TextEncoder_encode (poolStrings mbeFile).
Proof.
  intros Hinv. rewrite run_chnkRawStrings_spec. unfold poolStrings.
  rewrite <- (placeholdersSheets_strings (headerEnd mbeFile)) by done.
  rewrite !map_map. done.
Qed.

(** C8: for a file that satisfies the model invariants, the pool entries
    collected are, in order, the encodings of the non-empty strings of the
    STR and STRID cells: one entry for each such cell and none for an
    empty string.  When there is such a cell, phase 4 pushes the CHNK
    magic and the entry count; when there is none, it pushes nothing. *)
Theorem pool_holds_the_non_empty_strings (mbeFile : MbeFile) :
  model_invariants mbeFile ->
  let run := generate_run mbeFile in
  map encodedBytes (run_chnkRawStrings run)
    = map TextEncoder_encode (poolStrings mbeFile) /\
  (poolStrings mbeFile <> [] ->
   exists entries,
     buffers (run_writer run)
     = buffers (run_expaWriter run)
       ++ [ mkChunk RawBytes CHNK_MAGIC_BYTES;
            mkChunk Uint32Field (le32 (Z.of_nat (length (poolStrings mbeFile)))) ]
       ++ entries) /\
  (poolStrings mbeFile = [] -> run_writer run = run_expaWriter run).
Proof.
  intros Hinv run. subst run.
  pose proof (collected_strings mbeFile Hinv) as Hstr.
  split; [done|].
  assert (length (run_chnkRawStrings (generate_run mbeFile))
          = length (poolStrings mbeFile)) as Hlen.
  { apply (f_equal length) in Hstr. by rewrite !length_map in Hstr. }
  rewrite run_writer_spec. unfold chnkChunks. split.
  - intros Hne. destruct (run_chnkRawStrings (generate_run mbeFile)) as [|e l] eqn:E.
    + destruct (poolStrings mbeFile); [done|discriminate].
    + rewrite <- Hlen. eexists. cbn [appendChunks buffers]. reflexivity.
  - intros Hnil. rewrite Hnil in Hlen.
    destruct (run_chnkRawStrings (generate_run mbeFile)); [|discriminate].
    apply appendChunks_nil.
Qed.

(** ** The output depends on names, columns and cells only *)

Lemma rowsChunks_cells columns rows :
  rowsChunks Number_of_string columns rows
  = concat (map (rowChunks Number_of_string columns 0) (map row_cells rows)).
Proof. unfold rowsChunks. by rewrite map_map. Qed.

Lemma placeholdersRows_cells off columns rows rows' :
  map row_cells rows = map row_cells rows' ->
  placeholdersRows String_of_number off columns rows
  = placeholdersRows String_of_number off columns rows'.
Proof.
  revert off rows'. induction rows as [|row rows IH]; intros off [|row' rows'] H;
    try discriminate; [done|].
  injection H as Hrow Hrows. cbn [placeholdersRows]. rewrite Hrow.
  f_equal. by apply IH.
Qed.

Lemma same_content_structureInfo s s' :
  sheet_name s = sheet_name s' -> sheet_columns s = sheet_columns s' ->
  map row_cells (sheet_rows s) = map row_cells (sheet_rows s') ->
  structureInfo s = structureInfo s'.
Proof.
  intros Hn Hc Hr. unfold structureInfo. rewrite Hn, Hc.
  apply (f_equal length) in Hr. rewrite !length_map in Hr. by rewrite Hr.
Qed.

Lemma same_content_parts mbeFile mbeFile' :
  same_wire_content mbeFile mbeFile' ->
  length (sheets mbeFile) = length (sheets mbeFile') /\
  map structureInfo (sheets mbeFile) = map structureInfo (sheets mbeFile') /\
  sheetsChunks Number_of_string (sheets mbeFile)
    = sheetsChunks Number_of_string (sheets mbeFile') /\
  expaSize (sheets mbeFile) = expaSize (sheets mbeFile') /\
  forall off, placeholdersSheets String_of_number off (sheets mbeFile)
              = placeholdersSheets String_of_number off (sheets mbeFile').
Proof.
  unfold same_wire_content. generalize (sheets mbeFile) (sheets mbeFile').
  intros l l' H. induction H as [|s s' l l' (Hn & Hc & Hr) H IH]; [done|].
  destruct IH as (IH1 & IH2 & IH3 & IH4 & IH5).
  assert (length (sheet_rows s) = length (sheet_rows s')) as Hlen.
  { apply (f_equal length) in Hr. by rewrite !length_map in Hr. }
  repeat split.
  - simpl. by rewrite IH1.
  - cbn [map]. by rewrite IH2, (same_content_structureInfo s s').
  - unfold sheetsChunks in *. cbn [map concat]. rewrite IH3.
    by rewrite !rowsChunks_cells, Hc, Hr.
  - cbn [expaSize]. by rewrite IH4, Hc, Hlen.
  - intros off. cbn [placeholdersSheets]. rewrite IH5, Hc, Hlen.
    f_equal. by apply placeholdersRows_cells.
Qed.

(** C9: the output of [generateMbeFile] is a function of the names, the
    columns and the cells of the file alone: two files that differ only in
    the identity tokens of their rows or in [parsedExpaAreaSizePerRow]
    produce the same buffer, the same pool entries and the same (empty)
    list of warnings.  Nothing else enters: the generator reads no clock
    and no state. *)
Theorem output_ignores_ids_and_parsed_size (mbeFile mbeFile' : MbeFile) :
  same_wire_content mbeFile mbeFile' ->
  generate mbeFile = generate mbeFile' /\
  run_chnkRawStrings (generate_run mbeFile) = run_chnkRawStrings (generate_run mbeFile') /\
  run_warnings (generate_run mbeFile) = run_warnings (generate_run mbeFile').
Proof.
  intros H. destruct (same_content_parts _ _ H) as (H1 & H2 & H3 & H4 & H5).
  assert (headerEnd mbeFile = headerEnd mbeFile') as HH.
  { unfold headerEnd. by rewrite H2. }
  assert (run_chnkRawStrings (generate_run mbeFile)
          = run_chnkRawStrings (generate_run mbeFile')) as Hc.
  { by rewrite !run_chnkRawStrings_spec, HH, H5. }
  split; [|split; [done|]].
  - rewrite !generate_blocks.
    unfold headerBlock, expaBlockOf, chnkBlockOf, preambleChunks, expaEnd.
    by rewrite H1, H2, H3, H4, HH, Hc.
  - by rewrite !run_warnings_nil.
Qed.

End Properties.

(** * The parser *)

(** ** The monad *)

(** Moves the element just pushed into the accumulator of a loop. *)
Ltac snoc_acc :=
  match goal with
  | |- returns _ (?acc ++ ?x :: ?l) =>
      replace (acc ++ x :: l) with ((acc ++ [x]) ++ l) by (by rewrite <- app_assoc)
  end.

Lemma bind_ret_l {A B} (a : A) (k : A -> M B) : bind (ret a) k = k a.
Proof. unfold bind, ret. by destruct (k a). Qed.


Lemma bind_warn {B} (w : Warning) (k : unit -> M B) :
  bind (warn w) k = logged w (k tt).
Proof. unfold bind, warn, logged. by destruct (k tt). Qed.

Lemma bind_logged {A B} (w : Warning) (m : M A) (k : A -> M B) :
  bind (logged w m) k = logged w (bind m k).
Proof.
  unfold bind, logged. destruct m as [log [a|e]]; simpl; [|done].
  by destruct (k a).
Qed.

Lemma bind_assoc {A B C} (m : M A) (k : A -> M B) (h : B -> M C) :
  bind (bind m k) h = bind m (fun a => bind (k a) h).
Proof.
  destruct m as [log [a|e]]; simpl; [|done].
  destruct (k a) as [log' [b|e]]; simpl; [|done].
  destruct (h b) as [log'' r]. by rewrite app_assoc.
Qed.

Lemma returns_ret {A} (a : A) : returns (ret a) a.
Proof. reflexivity. Qed.

Lemma returns_bind {A B} (m : M A) (k : A -> M B) (a : A) (b : B) :
  returns m a -> returns (k a) b -> returns (bind m k) b.
Proof.
  unfold returns. destruct m as [log r]. simpl. intros -> Hk.
  destruct (k a) as [log' r']. simpl in *. done.
Qed.

Lemma returns_bind_inv {A B} (m : M A) (k : A -> M B) (b : B) :
  returns (bind m k) b -> exists a, returns m a /\ returns (k a) b.
Proof.
  unfold returns. destruct m as [log [a|e]]; simpl; [|done].
  intros H. exists a. split; [done|]. by destruct (k a).
Qed.




Lemma returns_logged {A} (w : Warning) (m : M A) (a : A) :
  returns (logged w m) a <-> returns m a.
Proof. reflexivity. Qed.

Lemma returns_inj {A} (m : M A) (a b : A) : returns m a -> returns m b -> a = b.
Proof. unfold returns. intros -> H. by injection H. Qed.


Lemma outcome_cases {A} (m : M A) : (exists a, returns m a) \/ (exists e, throws m e).
Proof. unfold returns, throws. destruct m as [log [a|e]]; simpl; eauto. Qed.

(** ** Reads of the view *)

Lemma byteAt_range (view : list Z) (offset : Z) :
  buffer_ok view -> 0 <= byteAt view offset < 256.
Proof.
  intros Hok. unfold byteAt. destruct (view !! Z.to_nat offset) as [b|] eqn:E; simpl.
  - unfold buffer_ok in Hok. rewrite Forall_forall in Hok.
    apply Hok. by eapply list_elem_of_lookup_2.
  - lia.
Qed.

Lemma le32_value_range (view : list Z) (offset : Z) :
  buffer_ok view -> 0 <= le32_value view offset < 2 ^ 32.
Proof.
  intros Hok. unfold le32_value.
  pose proof (byteAt_range view offset Hok).
  pose proof (byteAt_range view (offset + 1) Hok).
  pose proof (byteAt_range view (offset + 2) Hok).
  pose proof (byteAt_range view (offset + 3) Hok).
  change (2 ^ 32) with 4294967296. lia.
Qed.

Lemma inView_true (view : list Z) (offset width : Z) :
  0 <= offset -> offset + width <= byteLength view -> inView view offset width = true.
Proof. intros. unfold inView. apply andb_true_iff. split; lia. Qed.


Lemma getUint32_in (view : list Z) (offset : Z) :
  0 <= offset -> offset + 4 <= byteLength view ->
  getUint32 view offset = ret (le32_value view offset).
Proof. intros. unfold getUint32. by rewrite inView_true. Qed.

Lemma getInt32_in (view : list Z) (offset : Z) :
  0 <= offset -> offset + 4 <= byteLength view ->
  getInt32 view offset = ret (toInt32 (le32_value view offset)).
Proof. intros. unfold getInt32. by rewrite inView_true. Qed.

Lemma getUint8_in (view : list Z) (offset : Z) :
  0 <= offset -> offset + 1 <= byteLength view ->
  getUint8 view offset = ret (byteAt view offset).
Proof. intros. unfold getUint8. by rewrite inView_true. Qed.


Lemma readString_returns (view : list Z) (offset len : Z) :
  exists s, returns (readString view offset len) s.
Proof.
  unfold readString. destruct (len =? 0); [by eexists|].
  destruct (_ || _); [by eexists|].
  destruct (_ <=? 0); by eexists.
Qed.

(** ** The pool entries are read without a throw *)

Lemma readChnkEntries_header_truncated view n num i off m :
  byteLength view < off + 8 ->
  readChnkEntries (S n) view num i off m
  = ([ChnkHeaderTruncated (i + 1) num], Returned m).
Proof.
  intros H. cbn [readChnkEntries].
  by replace (byteLength view <? off + 8) with true by (symmetry; apply Z.ltb_lt; lia).
Qed.

Lemma readChnkEntries_text_truncated view n num i off m :
  0 <= off -> off + 8 <= byteLength view ->
  byteLength view < off + 8 + le32_value view (off + 4) ->
  readChnkEntries (S n) view num i off m
  = logged (ChnkTextBeyondEof (i + 1) num (le32_value view off)
              (le32_value view (off + 4)) (off + 8) (byteLength view))
      (readChnkEntries n view num (i + 1) (byteLength view) m).
Proof.
  intros H0 H8 HL. cbn [readChnkEntries].
  replace (byteLength view <? off + 8) with false by (symmetry; apply Z.ltb_ge; lia).
  rewrite !getUint32_in by lia. rewrite !bind_ret_l.
  replace (byteLength view <? off + 8 + le32_value view (off + 4)) with true
    by (symmetry; apply Z.ltb_lt; lia).
  rewrite bind_warn.
  by replace (byteLength view <? off + (8 + le32_value view (off + 4))) with true
    by (symmetry; apply Z.ltb_lt; lia).
Qed.

Lemma readChnkEntries_at_end view n num i m :
  exists log, readChnkEntries n view num i (byteLength view) m = (log, Returned m).
Proof.
  destruct n as [|n]; [by eexists|].
  rewrite readChnkEntries_header_truncated by lia. by eexists.
Qed.

Lemma readChnkEntries_returns view n num i off m :
  buffer_ok view -> 0 <= off ->
  exists m', returns (readChnkEntries n view num i off m) m'.
Proof.
  intros Hok. revert i off m. induction n as [|n IH]; intros i off m H0.
  - by eexists.
  - destruct (Z.ltb_spec (byteLength view) (off + 8)) as [Hh|Hh].
    { rewrite readChnkEntries_header_truncated by done. by eexists. }
    pose proof (le32_value_range view (off + 4) Hok) as HL.
    destruct (Z.ltb_spec (byteLength view) (off + 8 + le32_value view (off + 4)))
      as [Hb|Hb].
    { rewrite readChnkEntries_text_truncated by done.
      destruct (readChnkEntries_at_end view n num (i + 1) m) as [log ->].
      by eexists. }
    cbn [readChnkEntries].
    replace (byteLength view <? off + 8) with false by (symmetry; apply Z.ltb_ge; lia).
    rewrite !getUint32_in by lia. rewrite !bind_ret_l.
    replace (byteLength view <? off + 8 + le32_value view (off + 4)) with false
      by (symmetry; apply Z.ltb_ge; lia).
    destruct (readString_returns view (off + 8) (le32_value view (off + 4))) as [s Hs].
    edestruct (IH (i + 1) (off + (8 + le32_value view (off + 4)))) as [m' Hm'];
      [lia|].
    exists m'. eapply returns_bind; [exact Hs|exact Hm'].
Qed.

(** ** The cells are read without a throw *)

Section ParserProperties.

Variable String_of_number : Z -> jsstring.
Variable Date_now : Z -> Z -> Z.

Lemma readCells_returns view map name r columns c base off acc :
  0 <= base + off ->
  returns (readCells view map name r columns c base off acc)
    (acc ++ parsedCells view map columns base off).
Proof.
  revert c off acc. induction columns as [|col columns IH]; intros c off acc H0.
  - simpl. rewrite app_nil_r. apply returns_ret.
  - cbn [readCells parsedCells]. unfold parsedCell.
    destruct (col_type col); cbn [cellWidth].
    + destruct (Z.ltb_spec (byteLength view) (base + off + 4)) as [Hlt|Hge].
      * rewrite bind_warn, bind_logged, bind_ret_l. apply returns_logged.
        replace (acc ++ CellNum 0 :: parsedCells view map columns base (off + 4))
          with ((acc ++ [CellNum 0]) ++ parsedCells view map columns base (off + 4))
          by (by rewrite <- app_assoc).
        apply IH. lia.
      * rewrite getInt32_in by lia. rewrite bind_ret_l.
        replace (acc ++ CellNum (toInt32 (le32_value view (base + off)))
                     :: parsedCells view map columns base (off + 4))
          with ((acc ++ [CellNum (toInt32 (le32_value view (base + off)))])
                  ++ parsedCells view map columns base (off + 4))
          by (by rewrite <- app_assoc).
        apply IH. lia.
    + snoc_acc. apply IH. lia.
    + snoc_acc. apply IH. lia.
Qed.


Lemma readRows_returns n view map i header start r rows :
  0 <= start -> 0 <= r -> 0 <= h_expaAreaSizePerRow header ->
  returns (readRows String_of_number Date_now n view map i header start r rows)
    (rows ++ parsedRows String_of_number Date_now n view map i header start r).
Proof.
  intros Hs Hr Hsz. revert r rows Hr. induction n as [|n IH]; intros r rows Hr.
  - simpl. rewrite app_nil_r. apply returns_ret.
  - cbn [readRows parsedRows].
    eapply returns_bind.
    + apply readCells_returns. nia.
    + cbn [app]. snoc_acc. apply IH. lia.
Qed.

Lemma readSheets_returns view map hs i acc :
  Forall header_started hs ->
  returns (readSheets String_of_number Date_now view map hs i acc)
    (acc ++ parsedSheets String_of_number Date_now view map hs i).
Proof.
  intros H. revert i acc. induction H as [|h hs Hh H IH]; intros i acc.
  - simpl. rewrite app_nil_r. apply returns_ret.
  - cbn [readSheets parsedSheets]. destruct Hh as [[Hsz Hrc] (start & Hst & H0)].
    unfold parsedSheet. rewrite Hst. cbn [default].
    eapply returns_bind.
    + apply (readRows_returns _ _ _ _ _ _ _ []); lia.
    + cbn [app]. snoc_acc. apply IH.
Qed.

End ParserProperties.

(** ** The search of the magic *)

Lemma has_at_cons_inv (view : list Z) (i : Z) (b : Z) (rest : list Z) :
  has_at view i (b :: rest) ->
  byteAt view i = b /\ has_at view (i + 1) rest /\ 0 <= i /\ i + 1 <= byteLength view.
Proof.
  intros H. pose proof (has_at_bounds _ _ _ H) as [H0 Hlen].
  rewrite byteLength_cons in Hlen. pose proof (byteLength_nonneg rest).
  change (b :: rest) with ([b] ++ rest) in H. apply has_at_split in H as [Hb Hrest].
  split; [|split; [done|lia]].
  replace i with (i + Z.of_nat 0) by lia. by eapply byteAt_has_at.
Qed.

Lemma magicAt_has_at (view magicBytes : list Z) (i : Z) :
  has_at view i magicBytes -> magicAt view magicBytes i = ret true.
Proof.
  revert i. induction magicBytes as [|m rest IH]; intros i H; [done|].
  apply has_at_cons_inv in H as (Hb & Hrest & Hge & Hle).
  cbn [magicAt]. rewrite getUint8_in, bind_ret_l, Hb, Z.eqb_refl by lia.
  by apply IH.
Qed.

Lemma magicAt_in_view (view magicBytes : list Z) (i : Z) :
  0 <= i -> i + byteLength magicBytes <= byteLength view ->
  exists found, magicAt view magicBytes i = ret found.
Proof.
  revert i. induction magicBytes as [|m rest IH]; intros i H0 Hlen; [by eexists|].
  rewrite byteLength_cons in Hlen. pose proof (byteLength_nonneg rest).
  cbn [magicAt]. rewrite getUint8_in, bind_ret_l by lia.
  destruct (byteAt view i =? m); [|by eexists]. apply IH; lia.
Qed.



Lemma findMagic_here (view magicBytes : list Z) (startOffset : Z) :
  has_at view startOffset magicBytes ->
  findMagic view magicBytes startOffset = ret startOffset.
Proof.
  intros H. pose proof (has_at_bounds _ _ _ H) as [H0 Hlen]. unfold findMagic.
  destruct (Z.to_nat (byteLength view - byteLength magicBytes - startOffset + 1))
    as [|p] eqn:E; [lia|].
  cbn [findMagicLoop]. by rewrite magicAt_has_at, bind_ret_l.
Qed.

Lemma findMagic_at_end (view magicBytes : list Z) (startOffset : Z) :
  byteLength view - byteLength magicBytes < startOffset ->
  findMagic view magicBytes startOffset = ret (-1).
Proof.
  intros H. unfold findMagic.
  by replace (Z.to_nat (byteLength view - byteLength magicBytes - startOffset + 1))
    with 0%nat by lia.
Qed.

(** ** The errors of each pass *)

Lemma bind_ext {A B} (m : M A) (k k' : A -> M B) :
  (forall a, k a = k' a) -> bind m k = bind m k'.
Proof. intros H. destruct m as [log [a|e]]; simpl; [by rewrite H|done]. Qed.







Lemma getUint32_returns_inv view offset v :
  returns (getUint32 view offset) v ->
  v = le32_value view offset /\ 0 <= offset /\ offset + 4 <= byteLength view.
Proof.
  unfold getUint32, inView, returns.
  destruct (Z.leb_spec 0 offset), (Z.leb_spec (offset + 4) (byteLength view));
    simpl; intros Hv; try discriminate.
  injection Hv as <-. lia.
Qed.




Lemma readColumns_offset n view sheetName j offset columns columns' offset' :
  returns (readColumns n view sheetName j offset columns) (columns', offset') ->
  offset' = offset + 4 * Z.of_nat n.
Proof.
  revert j offset columns. induction n as [|n IH]; intros j offset columns H.
  - unfold returns in H. simpl in H. injection H as _ <-. lia.
  - cbn [readColumns] in H.
    apply returns_bind_inv in H as (typeVal & _ & H).
    apply returns_bind_inv in H as (column & _ & H).
    apply IH in H. lia.
Qed.



Lemma readSheetHeader_returns_inv view offset h offset' :
  buffer_ok view -> 0 <= offset ->
  returns (readSheetHeader view offset) (h, offset') ->
  header_ranges h /\ h_sheetExpaDataStartOffset h = None /\ offset <= offset'.
Proof.
  intros Hok H0 H. unfold readSheetHeader in H.
  apply returns_bind_inv in H as (sheetNameLength & Hlen & H).
  apply getUint32_returns_inv in Hlen as (-> & _ & _).
  apply returns_bind_inv in H as (sheetName & _ & H).
  apply returns_bind_inv in H as (columnCount & _ & H).
  apply returns_bind_inv in H as ([columns o] & Hcols & H).
  apply readColumns_offset in Hcols.
  apply returns_bind_inv in H as (size & Hsize & H).
  apply getUint32_returns_inv in Hsize as (-> & _ & _).
  apply returns_bind_inv in H as (rows & Hrows & H).
  apply getUint32_returns_inv in Hrows as (-> & _ & _).
  unfold returns in H. simpl in H. injection H as <- <-.
  pose proof (le32_value_range view offset Hok).
  pose proof (le32_value_range view o Hok).
  pose proof (le32_value_range view (o + 4) Hok).
  unfold header_ranges. simpl. repeat split; lia.
Qed.


Lemma readSheetHeaders_returns_inv n view offset acc hs offset' :
  buffer_ok view -> 0 <= offset ->
  Forall (fun h => header_ranges h /\ h_sheetExpaDataStartOffset h = None) acc ->
  returns (readSheetHeaders n view offset acc) (hs, offset') ->
  Forall (fun h => header_ranges h /\ h_sheetExpaDataStartOffset h = None) hs
  /\ offset <= offset'.
Proof.
  intros Hok. revert offset acc. induction n as [|n IH]; intros offset acc H0 Hacc H.
  - unfold returns in H. simpl in H. injection H as <- <-. split; [done|lia].
  - cbn [readSheetHeaders] in H.
    apply returns_bind_inv in H as ([h o] & Hh & H).
    apply readSheetHeader_returns_inv in Hh as (Hr & Hn & Ho); [|done|done].
    apply IH in H as [Hhs Ho']; [split; [done|lia] | lia |].
    apply Forall_app. split; [done|]. by constructor.
Qed.


Lemma headerPass_returns_inv view hs offset :
  buffer_ok view ->
  returns (headerPass view) (hs, offset) ->
  Forall (fun h => header_ranges h /\ h_sheetExpaDataStartOffset h = None) hs
  /\ 8 <= offset.
Proof.
  intros Hok H. unfold headerPass in H.
  apply returns_bind_inv in H as (u & _ & H).
  apply returns_bind_inv in H as (sheetCount & _ & H).
  apply readSheetHeaders_returns_inv in H; [|done|done|constructor].
  destruct H as [H1 H2]. split; [done|].
  change (0 + byteLength EXPA_MAGIC_BYTES + 4) with 8 in H2. lia.
Qed.

Lemma assignStartOffsets_started hs offset :
  Forall (fun h => header_ranges h /\ h_sheetExpaDataStartOffset h = None) hs ->
  0 <= offset ->
  Forall header_started (fst (assignStartOffsets hs offset))
  /\ offset <= snd (assignStartOffsets hs offset).
Proof.
  intros H. revert offset. induction H as [|h hs [[Hsz Hrc] _] H IH]; intros offset H0.
  - simpl. split; [constructor|lia].
  - cbn [assignStartOffsets].
    destruct (IH (offset + h_expaAreaSizePerRow h * h_expaRowCount h)) as [IH1 IH2];
      [nia|].
    destruct (assignStartOffsets hs _) as [rest final]. simpl in *.
    split; [|nia]. constructor; [|done].
    split; [done|]. exists offset. done.
Qed.

(** ** The check of the leading magic *)







(** ** The column tags of the sheet headers *)

Lemma getUint32_has_at (view : list Z) (o v : Z) :
  has_at view o (le32 v) -> 0 <= v < 2 ^ 32 -> getUint32 view o = ret v.
Proof.
  intros H Hv. pose proof (has_at_bounds _ _ _ H) as [H0 Hlen].
  rewrite byteLength_le32 in Hlen. rewrite getUint32_in by lia.
  rewrite (le32_value_has_at _ _ _ H). by rewrite Z.mod_small.
Qed.

Lemma getUint32_has_at_mod (view : list Z) (o v : Z) :
  has_at view o (le32 v) -> getUint32 view o = ret (v mod 2 ^ 32).
Proof.
  intros H. pose proof (has_at_bounds _ _ _ H) as [H0 Hlen].
  rewrite byteLength_le32 in Hlen. rewrite getUint32_in by lia.
  by rewrite (le32_value_has_at _ _ _ H).
Qed.

Lemma verifyMagic_has_at (view magicBytes : list Z) (i : Z) :
  has_at view i magicBytes -> verifyMagic view magicBytes i = ret tt.
Proof.
  revert i. induction magicBytes as [|m rest IH]; intros i H; [done|].
  apply has_at_cons_inv in H as (Hb & Hrest & Hge & Hle).
  cbn [verifyMagic]. rewrite getUint8_in, bind_ret_l, Hb, Z.eqb_refl by lia.
  by apply IH.
Qed.

Lemma has_at_empty (view : list Z) (i : Z) :
  0 <= i -> i <= byteLength view -> has_at view i [].
Proof.
  intros H0 Hle. exists (take (Z.to_nat i) view), (drop (Z.to_nat i) view).
  split; [by rewrite app_nil_l, take_drop|].
  unfold byteLength in *. rewrite length_take. lia.
Qed.

Lemma has_at_cons (view : list Z) (i b : Z) (rest : list Z) :
  0 <= i -> i < byteLength view -> byteAt view i = b ->
  has_at view (i + 1) rest -> has_at view i (b :: rest).
Proof.
  intros H0 Hlt Hb (pre & post & Hview & Hlen).
  destruct pre as [|x pre _] using rev_ind.
  { rewrite byteLength_nil in Hlen. lia. }
  rewrite byteLength_app, byteLength_cons, byteLength_nil in Hlen.
  assert (byteAt view i = x) as Hx.
  { replace i with (byteLength pre + Z.of_nat 0) by lia.
    apply (byteAt_has_at view (byteLength pre) [x] 0); [|done].
    exists pre, (rest ++ post). split; [|done]. by rewrite Hview, <- !app_assoc. }
  exists pre, post. split; [|lia].
  rewrite Hview, <- app_assoc. cbn [app]. congruence.
Qed.

Lemma untilNul_actualLength (buffer : list Z) :
  take (Z.to_nat (actualLength buffer)) buffer = untilNul buffer.
Proof.
  induction buffer as [|b rest IH]; [done|].
  cbn [actualLength untilNul]. destruct (b =? 0); [done|].
  assert (0 <= actualLength rest) as Hpos.
  { clear. induction rest as [|x rest IH]; simpl; [lia|]. destruct (x =? 0); lia. }
  replace (Z.to_nat (1 + actualLength rest)) with (S (Z.to_nat (actualLength rest)))
    by lia.
  cbn [take]. by rewrite IH.
Qed.











(** *** A buffer with an unknown tag makes the header pass throw *)







(** *** A header pass that throws on a tag has read it from the buffer *)









Section ParserOutcomes.

Variable String_of_number : Z -> jsstring.
Variable Date_now : Z -> Z -> Z.

Local Abbreviation parse := (parseMbeFile String_of_number Date_now).
Local Abbreviation rest := (parseRest String_of_number Date_now).

Lemma parse_headerPass view : parse view = bind (headerPass view) (rest view).
Proof.
  unfold parseMbeFile, headerPass. rewrite bind_assoc. apply bind_ext. intros _.
  rewrite bind_assoc. apply bind_ext. intros sheetCount.
  apply bind_ext. intros [hs offset]. unfold parseRest.
  by destruct (assignStartOffsets hs offset).
Qed.




Lemma rest_returns view hs offset map :
  buffer_ok view ->
  Forall (fun h => header_ranges h /\ h_sheetExpaDataStartOffset h = None) hs ->
  0 <= offset ->
  returns (readChnk view (chnkSearchStart hs offset)) map ->
  returns (rest view (hs, offset))
    {| sheets := parsedSheets String_of_number Date_now view map
                   (fst (assignStartOffsets hs offset)) 0 |}.
Proof.
  intros Hok Hhs H0 Hmap. unfold parseRest, chnkSearchStart in *.
  destruct (assignStartOffsets_started hs offset Hhs H0) as [Hst _].
  destruct (assignStartOffsets hs offset) as [hs' P]. simpl in *.
  eapply returns_bind; [exact Hmap|].
  eapply returns_bind; [by apply readSheets_returns|].
  apply returns_ret.
Qed.






(** C4: [parseMbeFile] tolerates truncated pool entries and cells out
    of bounds.  The loop over the pool entries never throws.  An entry
    whose 8-byte header runs past the end stops the loop with a warning
    and the map as it is.  An entry whose declared text runs past the end
    is skipped with a warning: the map is left as it is and the cursor,
    advanced by the declared length, is clamped at the end of the buffer,
    after which the loop ends with that same map.  The loop over the cells
    of a row never throws; an INT cell out of bounds yields 0 and a string
    cell without an entry in the map yields the empty string.  Hence, once
    pass 1 and the search of the pool have returned, [parseMbeFile] returns
    a file. *)
Theorem parser_tolerates_truncation (view : list Z) :
  buffer_ok view ->
  (forall n num i off m, 0 <= off ->
     exists m', returns (readChnkEntries n view num i off m) m') /\
  (forall n num i off m, byteLength view < off + 8 ->
     readChnkEntries (S n) view num i off m
     = ([ChnkHeaderTruncated (i + 1) num], Returned m)) /\
  (forall n num i off m,
     0 <= off -> off + 8 <= byteLength view ->
     byteLength view < off + 8 + le32_value view (off + 4) ->
     readChnkEntries (S n) view num i off m
     = logged (ChnkTextBeyondEof (i + 1) num (le32_value view off)
                 (le32_value view (off + 4)) (off + 8) (byteLength view))
         (readChnkEntries n view num (i + 1) (byteLength view) m)
     /\ returns (readChnkEntries (S n) view num i off m) m) /\
  (forall map name r columns c base off acc, 0 <= base + off ->
     returns (readCells view map name r columns c base off acc)
       (acc ++ parsedCells view map columns base off)) /\
  (forall map column off, col_type column = INT -> byteLength view < off + 4 ->
     parsedCell view map column off = CellNum 0) /\
  (forall (map : gmap Z ChnkEntry) column off,
     col_type column <> INT -> map !! off = None ->
     parsedCell view map column off = CellStr []) /\
  (forall hs offset map,
     returns (headerPass view) (hs, offset) ->
     returns (readChnk view (chnkSearchStart hs offset)) map ->
     returns (parse view)
       {| sheets := parsedSheets String_of_number Date_now view map
                      (fst (assignStartOffsets hs offset)) 0 |}).
Proof.
  intros Hok. repeat split.
  - intros. by apply readChnkEntries_returns.
  - intros. by apply readChnkEntries_header_truncated.
  - intros. by apply readChnkEntries_text_truncated.
  - rewrite readChnkEntries_text_truncated by done.
    destruct (readChnkEntries_at_end view n num (i + 1) m) as [log ->]. done.
  - intros. by apply readCells_returns.
  - intros map column off Hint Hoob. unfold parsedCell. rewrite Hint.
    by replace (byteLength view <? off + 4) with true by (symmetry; apply Z.ltb_lt; lia).
  - intros map column off Hstr Hnone. unfold parsedCell. rewrite Hnone.
    by destruct (col_type column).
  - intros hs offset map Hret Hmap.
    pose proof (headerPass_returns_inv _ _ _ Hok Hret) as [Hhs H8].
    rewrite parse_headerPass. eapply returns_bind; [exact Hret|].
    apply rest_returns; [done|done|lia|done].
Qed.

End ParserOutcomes.

(** * Strings of ASCII characters *)

(** A string of ASCII characters other than NUL is its own encoding and
    survives the trip through a file. *)

Lemma toScalars_ascii (s : jsstring) : ascii s -> toScalars s = s.
Proof.
  induction 1 as [|u s Hu Hs IH]; [done|]. cbn [toScalars].
  unfold isHighSurrogate, isLowSurrogate.
  destruct (Z.leb_spec 0xD800 u); [lia|]. destruct (Z.leb_spec 0xDC00 u); [lia|].
  cbn [andb]. by rewrite IH.
Qed.

Lemma TextEncoder_encode_ascii (s : jsstring) : ascii s -> TextEncoder_encode s = s.
Proof.
  intros Hs. unfold TextEncoder_encode. rewrite toScalars_ascii by done.
  induction Hs as [|u s Hu Hs IH]; [done|]. cbn [map concat]. rewrite IH.
  unfold utf8_of_scalar. by destruct (Z.ltb_spec u 0x80); [|lia].
Qed.

Lemma utf8_run_ascii (s : list Z) : ascii s -> utf8_run utf8_init s = s.
Proof.
  induction 1 as [|u s Hu Hs IH]; [done|]. cbn [utf8_run].
  unfold utf8_step. cbn [utf8_init u8_bytesNeeded Z.eqb]. unfold utf8_lead.
  destruct (Z.leb_spec 0 u); [|lia]. destruct (Z.leb_spec u 0x7F); [|lia].
  cbn [andb]. by rewrite IH.
Qed.

Lemma TextDecoder_decode_ascii (s : list Z) : ascii s -> TextDecoder_decode s = s.
Proof.
  intros Hs. unfold TextDecoder_decode. rewrite utf8_run_ascii by done.
  induction Hs as [|u s Hu Hs IH]; [done|]. cbn [map concat]. rewrite IH.
  unfold utf16_of_scalar. by destruct (Z.ltb_spec u 0x10000); [|lia].
Qed.

Lemma ascii_text_roundtrips (s : jsstring) : ascii s -> text_roundtrips s.
Proof.
  intros Hs. split.
  - unfold utf8_encodable. rewrite TextEncoder_encode_ascii by done.
    by apply TextDecoder_decode_ascii.
  - rewrite TextEncoder_encode_ascii by done. intros H0.
    unfold ascii in Hs. rewrite Forall_forall in Hs. specialize (Hs 0 H0). lia.
Qed.

(** * The round trip *)

(** ** Strings read back *)

Lemma actualLength_padded (enc : list Z) (N : nat) :
  0 ∉ enc -> (0 < N)%nat -> actualLength (enc ++ replicate N 0) = byteLength enc.
Proof.
  intros Hnul HN. induction enc as [|b enc IH].
  - destruct N; [lia|]. reflexivity.
  - apply not_elem_of_cons in Hnul as [Hb Hnul].
    cbn [app actualLength]. destruct (Z.eqb_spec b 0); [congruence|].
    rewrite IH by done. rewrite byteLength_cons. lia.
Qed.

Lemma readString_padded (view : list Z) (o : Z) (enc : list Z) (N : nat) :
  has_at view o (enc ++ replicate N 0) -> 0 ∉ enc -> (0 < N)%nat ->
  readString view o (byteLength enc + Z.of_nat N) = ret (TextDecoder_decode enc).
Proof.
  intros H Hnul HN. pose proof (has_at_bounds _ _ _ H) as [H0 Hlen].
  pose proof (has_at_slice _ _ _ H) as Hslice.
  rewrite byteLength_app, byteLength_replicate in *.
  pose proof (byteLength_nonneg enc) as Hpos.
  unfold readString.
  destruct (Z.eqb_spec (byteLength enc + Z.of_nat N) 0); [lia|].
  replace (o <? 0) with false by (symmetry; apply Z.ltb_ge; lia).
  replace (byteLength view <? o + (byteLength enc + Z.of_nat N)) with false
    by (symmetry; apply Z.ltb_ge; lia).
  cbn [orb].
  rewrite Z.min_l by lia.
  destruct (Z.leb_spec (byteLength enc + Z.of_nat N) 0); [lia|].
  rewrite Hslice, actualLength_padded by done.
  unfold byteLength. rewrite Nat2Z.id, take_app_length. done.
Qed.

Lemma toInt32_le32 (n : Z) :
  - 2 ^ 31 <= n < 2 ^ 31 -> toInt32 (n mod 2 ^ 32) = n.
Proof.
  intros Hn. unfold toInt32. change (2 ^ 31) with 2147483648 in *.
  change (2 ^ 32) with 4294967296 in *.
  destruct (Z.ltb_spec (n mod 4294967296) 2147483648); Z.div_mod_to_equations; lia.
Qed.

(** ** The header of a sheet read back *)

Lemma bytesOf_cons (c : chunk) (cs : list chunk) :
  bytesOf (c :: cs) = chunk_bytes c ++ bytesOf cs.
Proof. reflexivity. Qed.

Lemma bytesOf_nil : bytesOf [] = [].
Proof. reflexivity. Qed.

Lemma le32_value_ColumnType (view : list Z) (o : Z) (t : ColumnType) :
  has_at view o (le32 (ColumnType_value t)) ->
  getUint32 view o = ret (ColumnType_value t).
Proof.
  intros H. pose proof (has_at_bounds _ _ _ H) as [H0 Hlen].
  rewrite byteLength_le32 in Hlen. rewrite getUint32_in by lia.
  rewrite (le32_value_has_at _ _ _ H). by destruct t.
Qed.



Lemma columnOfType_value (t : ColumnType) (sheetName : jsstring) (j : Z) :
  columnOfType (ColumnType_value t) sheetName j = ret (columnOf t).
Proof. by destruct t. Qed.

Lemma readColumns_generated (view : list Z) (sheetName : jsstring)
    (types : list ColumnType) (j o : Z) (acc : list MbeColumn) :
  has_at view o
    (bytesOf (map (fun t => mkChunk Uint32Field (le32 (ColumnType_value t))) types)) ->
  readColumns (length types) view sheetName j o acc
  = ret (acc ++ map columnOf types, o + 4 * Z.of_nat (length types)).
Proof.
  revert j o acc. induction types as [|t types IH]; intros j o acc H.
  - simpl. rewrite app_nil_r. do 2 f_equal. lia.
  - cbn [map length readColumns] in *. rewrite bytesOf_cons in H.
    apply has_at_split in H as [Ht Hrest]. cbn [chunk_bytes mkChunk] in *.
    rewrite byteLength_le32 in Hrest.
    rewrite (le32_value_ColumnType _ _ _ Ht), bind_ret_l.
    rewrite columnOfType_value, bind_ret_l.
    rewrite IH by done. rewrite <- app_assoc. cbn [app].
    do 2 f_equal. lia.
Qed.

Lemma readSheetHeader_generated (view : list Z) (off : Z) (sheet : MbeSheet) :
  has_at view off
    (bytesOf (sheetHeaderChunks (realNameData (structureInfo sheet)) off
                (structureInfo sheet))) ->
  byteLength view < 2 ^ 32 ->
  text_roundtrips (sheet_name sheet) ->
  Z.of_nat (length (sheet_rows sheet)) < 2 ^ 32 ->
  readSheetHeader view off
  = ret (headerOf None sheet, off + sheetHeaderSize off (structureInfo sheet)).
Proof.
  intros H Hsmall [Henc Hnul] Hrows.
  unfold sheetHeaderChunks, sheetHeaderSize in *.
  cbn [structureInfo encodedNameBytes columnTypes expaAreaSizePerRow rowCount
       realNameData] in *.
  set (enc := TextEncoder_encode (sheet_name sheet)) in *.
  set (L := byteLength enc) in *.
  set (final := lengthWithPadding (off + 4) L) in *.
  set (types := map col_type (sheet_columns sheet)) in *.
  pose proof (lengthWithPadding_bounds (off + 4) L) as Hfinal. fold final in Hfinal.
  pose proof (byteLength_nonneg enc) as HL. fold L in HL.
  pose proof (has_at_bounds _ _ _ H) as [H0 _].
  rewrite !bytesOf_app, !bytesOf_cons, bytesOf_nil in H.
  cbn [chunk_bytes mkChunk] in H. rewrite app_nil_r, <- !app_assoc in H.
  unfold realNameData in H. cbn [structureInfo encodedNameBytes] in H. fold enc in H.
  apply has_at_split in H as [H1 H]. rewrite byteLength_le32 in H.
  apply has_at_split in H as [H2 H].
  rewrite byteLength_paddedBytes in H by (fold L; lia).
  apply has_at_split in H as [H3 H]. rewrite byteLength_le32 in H.
  apply has_at_split in H as [H4 H].
  rewrite byteLength_bytesOf, chunksLength_types in H.
  apply has_at_split in H as [H5 H6]. rewrite byteLength_le32 in H6.
  pose proof (has_at_bounds _ _ _ H2) as [_ Hb2].
  rewrite byteLength_paddedBytes in Hb2 by (fold L; lia).
  pose proof (has_at_bounds _ _ _ H4) as [_ Hb4].
  rewrite byteLength_bytesOf, chunksLength_types in Hb4.
  unfold readSheetHeader.
  rewrite (getUint32_has_at _ _ _ H1), bind_ret_l by lia.
  unfold paddedBytes in H2. fold L in H2.
  replace final with (L + Z.of_nat (Z.to_nat (final - L))) at 1 2 by lia.
  unfold L at 1. rewrite (readString_padded _ _ _ _ H2), bind_ret_l by (done || lia).
  replace (L + Z.of_nat (Z.to_nat (final - L))) with final by lia.
  rewrite (getUint32_has_at _ _ _ H3), bind_ret_l by lia.
  rewrite Nat2Z.id, (readColumns_generated _ _ _ _ _ _ H4), bind_ret_l.
  rewrite (getUint32_has_at_mod _ _ _ H5), bind_ret_l.
  rewrite (getUint32_has_at _ _ _ H6), bind_ret_l by lia.
  unfold headerOf. fold enc. unfold utf8_encodable in Henc. fold enc in Henc.
  rewrite Henc, calculatedExpaAreaSizePerRow_rowWidth. subst types.
  rewrite map_map. cbn [app]. do 2 f_equal. lia.
Qed.

(** ** Pass 1 on a generated buffer *)

Lemma readSheetHeaders_generated (view : list Z) (sheets : list MbeSheet)
    (off : Z) (acc : list SheetHeader) :
  has_at view off (bytesOf (headersChunks off (map structureInfo sheets))) ->
  byteLength view < 2 ^ 32 ->
  Forall sheet_roundtrips sheets ->
  readSheetHeaders (length sheets) view off acc
  = ret (acc ++ map (headerOf None) sheets,
         headersEnd off (map structureInfo sheets)).
Proof.
  intros H Hsmall Hrt. revert off acc H.
  induction Hrt as [|sheet sheets (Hname & Hrows & _) Hrt IH]; intros off acc H.
  - simpl. by rewrite app_nil_r.
  - cbn [map headersChunks headersEnd length readSheetHeaders] in *.
    rewrite bytesOf_app in H. apply has_at_split in H as [Hh Hrest].
    rewrite byteLength_bytesOf, chunksLength_sheetHeaderChunks in Hrest
      by apply byteLength_realNameData.
    rewrite (readSheetHeader_generated _ _ _ Hh), bind_ret_l by done.
    rewrite IH by done. rewrite <- app_assoc. done.
Qed.


Lemma sheetHeaderSize_ge off info : 18 <= sheetHeaderSize off info.
Proof.
  unfold sheetHeaderSize.
  pose proof (lengthWithPadding_bounds (off + 4) (byteLength (encodedNameBytes info))).
  pose proof (byteLength_nonneg (encodedNameBytes info)). lia.
Qed.

Lemma headersEnd_count off infos :
  off + 18 * Z.of_nat (length infos) <= headersEnd off infos.
Proof.
  revert off. induction infos as [|info infos IH]; intros off; cbn [headersEnd length].
  - lia.
  - specialize (IH (off + sheetHeaderSize off info)).
    pose proof (sheetHeaderSize_ge off info). lia.
Qed.

Lemma assignStartOffsets_generated (sheets : list MbeSheet) (off : Z) :
  Forall sheet_fits sheets ->
  assignStartOffsets (map (headerOf None) sheets) off
  = (startedHeaders off sheets, off + expaSize sheets).
Proof.
  intros H. revert off. induction H as [|sheet sheets Hfit H IH]; intros off.
  - simpl. f_equal. lia.
  - cbn [map assignStartOffsets startedHeaders expaSize].
    assert (h_expaAreaSizePerRow (headerOf None sheet)
            * h_expaRowCount (headerOf None sheet)
            = rowWidth (sheet_columns sheet) * Z.of_nat (length (sheet_rows sheet)))
      as ->.
    { cbn [headerOf h_expaAreaSizePerRow h_expaRowCount].
      destruct Hfit as [-> | Hfit]; [simpl; lia|].
      pose proof (rowWidth_nonneg (sheet_columns sheet)).
      by rewrite Z.mod_small by lia. }
    rewrite IH. unfold headerOf at 1. cbn. f_equal. lia.
Qed.

(** ** Pass 2 on a generated buffer *)

Lemma bytesOf_entryChunks (o : Z) (e : ChnkRawString) :
  bytesOf (entryChunks o e)
  = le32 (targetExpaAbsoluteFileOffset e)
    ++ le32 (lengthWithPadding (o + 8) (byteLength (encodedBytes e)))
    ++ paddedBytes (lengthWithPadding (o + 8) (byteLength (encodedBytes e)))
         (encodedBytes e).
Proof.
  unfold entryChunks. rewrite !bytesOf_cons, bytesOf_nil. cbn [chunk_bytes mkChunk].
  by rewrite app_nil_r.
Qed.

Lemma readChnkEntries_generated (view : list Z) (num : Z)
    (entries : list ChnkRawString) (i o : Z) (m : gmap Z ChnkEntry) :
  has_at view o (bytesOf (entriesChunks o entries)) ->
  byteLength view < 2 ^ 32 ->
  Forall entry_ok entries ->
  exists M, returns (readChnkEntries (length entries) view num i o m) M /\
            chnk_text <$> M = fold_left insertText entries (chnk_text <$> m).
Proof.
  intros H Hsmall Hok. revert i o m H.
  induction Hok as [|e entries [Htarget Hnul] Hok IH]; intros i o m H.
  - exists m. split; [apply returns_ret|done].
  - cbn [entriesChunks length fold_left] in *.
    rewrite bytesOf_app in H. apply has_at_split in H as [He Hrest].
    rewrite byteLength_bytesOf, chunksLength_entryChunks in Hrest.
    rewrite bytesOf_entryChunks in He. unfold entrySize in Hrest.
    set (L := byteLength (encodedBytes e)) in *.
    set (final := lengthWithPadding (o + 8) L) in *.
    pose proof (lengthWithPadding_bounds (o + 8) L) as Hfinal. fold final in Hfinal.
    pose proof (byteLength_nonneg (encodedBytes e)) as HL. fold L in HL.
    apply has_at_split in He as [H1 He]. rewrite byteLength_le32 in He.
    apply has_at_split in He as [H2 H3]. rewrite byteLength_le32 in H3.
    pose proof (has_at_bounds _ _ _ H1) as [H0 _].
    pose proof (has_at_bounds _ _ _ H3) as [_ Hb3].
    rewrite byteLength_paddedBytes in Hb3 by (fold L; lia).
    destruct (IH (i + 1) (o + (8 + final))
                (<[ targetExpaAbsoluteFileOffset e :=
                      {| chnk_text := TextDecoder_decode (encodedBytes e);
                         originalChnkLength := final |} ]> m) Hrest)
      as (M & HM & Htexts).
    exists M. split.
    + cbn [readChnkEntries].
      replace (byteLength view <? o + 8) with false by (symmetry; apply Z.ltb_ge; lia).
      rewrite (getUint32_has_at _ _ _ H1), bind_ret_l by done.
      rewrite (getUint32_has_at _ _ _ H2), bind_ret_l by lia.
      replace (byteLength view <? o + 8 + final) with false
        by (symmetry; apply Z.ltb_ge; lia).
      unfold paddedBytes in H3. fold L in H3.
      replace (o + 4 + 4) with (o + 8) in H3 by lia.
      replace final with (L + Z.of_nat (Z.to_nat (final - L))) at 1 by lia.
      unfold L at 1. rewrite (readString_padded _ _ _ _ H3), bind_ret_l by (done || lia).
      exact HM.
    + rewrite Htexts. f_equal. unfold insertText. by rewrite fmap_insert.
Qed.

Lemma entriesChunks_count (o : Z) (entries : list ChnkRawString) :
  10 * Z.of_nat (length entries) <= chunksLength (entriesChunks o entries).
Proof.
  revert o. induction entries as [|e entries IH]; intros o; cbn [entriesChunks length].
  - rewrite chunksLength_nil. lia.
  - rewrite chunksLength_app, chunksLength_entryChunks. unfold entrySize.
    pose proof (lengthWithPadding_bounds (o + 8) (byteLength (encodedBytes e))).
    pose proof (byteLength_nonneg (encodedBytes e)).
    specialize (IH (o + (8 + lengthWithPadding (o + 8) (byteLength (encodedBytes e))))).
    lia.
Qed.

Lemma fold_insertText_notin (l : list ChnkRawString) (m : gmap Z jsstring) (k : Z) :
  k ∉ map targetExpaAbsoluteFileOffset l -> fold_left insertText l m !! k = m !! k.
Proof.
  revert m. induction l as [|e l IH]; intros m Hk; [done|].
  cbn [map fold_left] in *. apply not_elem_of_cons in Hk as [Hne Hk].
  rewrite IH by done. unfold insertText. by rewrite lookup_insert_ne.
Qed.

Lemma fold_insertText_in (l : list ChnkRawString) (m : gmap Z jsstring)
    (e : ChnkRawString) :
  NoDup (map targetExpaAbsoluteFileOffset l) -> e ∈ l ->
  fold_left insertText l m !! targetExpaAbsoluteFileOffset e
  = Some (TextDecoder_decode (encodedBytes e)).
Proof.
  revert m. induction l as [|x l IH]; intros m Hnd He; [by apply elem_of_nil in He|].
  cbn [map fold_left] in *. apply NoDup_cons in Hnd as [Hx Hnd].
  apply elem_of_cons in He as [->|He].
  - rewrite fold_insertText_notin by done. unfold insertText.
    by rewrite lookup_insert_eq.
  - by apply IH.
Qed.

Lemma lookupText_fmap (M : gmap Z ChnkEntry) (k : Z) :
  lookupText M k = default [] ((chnk_text <$> M) !! k).
Proof. unfold lookupText. rewrite lookup_fmap. by destruct (M !! k). Qed.

(** ** Pass 3 on a generated buffer *)

Section RoundTrip.

Variable Number_of_string : jsstring -> Z.
Variable String_of_number : Z -> jsstring.
Variable Date_now : Z -> Z -> Z.

Local Abbreviation generate := (generateMbeFile Number_of_string String_of_number).
Local Abbreviation generate_run := (generateMbeFile_run Number_of_string String_of_number).
Local Abbreviation parse := (parseMbeFile String_of_number Date_now).

Lemma parsedCells_generated (view : list Z) (M : gmap Z ChnkEntry)
    (columns : list MbeColumn) (cells : list cell) (base off : Z) :
  Forall2 cell_agrees columns cells ->
  Forall cell_roundtrips cells ->
  has_at view (base + off) (bytesOf (rowChunks Number_of_string columns 0 cells)) ->
  (forall O s, (O, s) ∈ placeholdersRow String_of_number (base + off) columns 0 cells ->
               lookupText M O = s) ->
  parsedCells view M (map (fun column => columnOf (col_type column)) columns) base off
  = cells.
Proof.
  intros Hag. revert off.
  induction Hag as [|col x columns cells Hx Hag IH]; intros off Hrt H HM; [done|].
  apply Forall_cons in Hrt as [Hxrt Hrt].
  cbn [map parsedCells rowChunks placeholdersRow] in *.
  rewrite rowChunks_shift in H. rewrite !placeholdersRow_shift in HM.
  rewrite bytesOf_app in H. apply has_at_split in H as [Hcell Hrest].
  unfold parsedCell, cell_agrees in *. cbn [columnOf col_type] in *.
  destruct (col_type col), x as [n|s]; try (exfalso; exact Hx);
    cbn [cellWidth lookup list_lookup cellNumber cellString cell_roundtrips] in *.
  - rewrite bytesOf_cons, bytesOf_nil, app_nil_r in Hcell, Hrest.
    cbn [chunk_bytes mkChunk] in *. rewrite byteLength_le32 in Hrest.
    pose proof (has_at_bounds _ _ _ Hcell) as [H0 Hb]. rewrite byteLength_le32 in Hb.
    replace (byteLength view <? base + off + 4) with false
      by (symmetry; apply Z.ltb_ge; lia).
    rewrite (le32_value_has_at _ _ _ Hcell), toInt32_le32 by done.
    f_equal. apply IH; [done| |].
    + by replace (base + (off + 4)) with (base + off + 4) by lia.
    + intros O s HO. apply HM.
      by replace (base + off + 4) with (base + (off + 4)) by lia.
  - fold (lookupText M (base + off)). rewrite (HM (base + off) s) by apply list_elem_of_here.
    f_equal. apply IH; [done| |].
    + replace (base + (off + 8)) with (base + off + 8) by lia.
      rewrite !bytesOf_cons, bytesOf_nil, app_nil_r in Hrest.
      cbn [chunk_bytes mkChunk] in Hrest.
      by rewrite byteLength_app, !byteLength_le32 in Hrest.
    + intros O s' HO. apply HM. apply list_elem_of_further.
      by replace (base + off + 8) with (base + (off + 8)) by lia.
  - fold (lookupText M (base + off)). rewrite (HM (base + off) s) by apply list_elem_of_here.
    f_equal. apply IH; [done| |].
    + replace (base + (off + 8)) with (base + off + 8) by lia.
      rewrite !bytesOf_cons, bytesOf_nil, app_nil_r in Hrest.
      cbn [chunk_bytes mkChunk] in Hrest.
      by rewrite byteLength_app, !byteLength_le32 in Hrest.
    + intros O s' HO. apply HM. apply list_elem_of_further.
      by replace (base + off + 8) with (base + (off + 8)) by lia.
Qed.

Lemma parsedRows_generated (view : list Z) (M : gmap Z ChnkEntry) (i : Z)
    (h : SheetHeader) (columns : list MbeColumn) (rows : list MbeRow) (start r : Z) :
  h_columns h = map (fun column => columnOf (col_type column)) columns ->
  (rows <> [] -> h_expaAreaSizePerRow h = rowWidth columns) ->
  Forall (row_ok columns) rows ->
  Forall (fun row => Forall cell_roundtrips (row_cells row)) rows ->
  has_at view (start + r * rowWidth columns)
    (bytesOf (rowsChunks Number_of_string columns rows)) ->
  (forall O s,
     (O, s) ∈ placeholdersRows String_of_number (start + r * rowWidth columns)
               columns rows ->
     lookupText M O = s) ->
  Forall2 row_equiv
    (parsedRows String_of_number Date_now (length rows) view M i h start r) rows.
Proof.
  intros Hcols Hsize Hok. revert r.
  induction Hok as [|row rows Hrow Hok IH]; intros r Hrt H HM; [constructor|].
  apply Forall_cons in Hrt as [Hrowrt Hrt].
  specialize (Hsize ltac:(discriminate)).
  cbn [length parsedRows placeholdersRows] in *.
  unfold rowsChunks in H. cbn [map concat] in H.
  fold (rowsChunks Number_of_string columns rows) in H.
  rewrite bytesOf_app in H. apply has_at_split in H as [Hr Hrest].
  rewrite byteLength_bytesOf, chunksLength_rowChunks in Hrest.
  constructor.
  - unfold row_equiv. cbn [row_cells]. rewrite Hcols, Hsize.
    apply parsedCells_generated; try done.
    + by replace (start + r * rowWidth columns + 0) with (start + r * rowWidth columns)
        by lia.
    + intros O s HO. apply HM. apply elem_of_app. left.
      by replace (start + r * rowWidth columns + 0) with (start + r * rowWidth columns)
        in HO by lia.
  - apply IH; [by intros _|done| |].
    + by replace (start + (r + 1) * rowWidth columns)
        with (start + r * rowWidth columns + rowWidth columns) by lia.
    + intros O s HO. apply HM. apply elem_of_app. right.
      by replace (start + (r + 1) * rowWidth columns)
        with (start + r * rowWidth columns + rowWidth columns) in HO by lia.
Qed.

Lemma parsedSheets_generated (view : list Z) (M : gmap Z ChnkEntry)
    (sheets : list MbeSheet) (off i : Z) :
  Forall sheet_ok sheets ->
  Forall sheet_roundtrips sheets ->
  Forall sheet_fits sheets ->
  has_at view off (bytesOf (sheetsChunks Number_of_string sheets)) ->
  (forall O s, (O, s) ∈ placeholdersSheets String_of_number off sheets ->
               lookupText M O = s) ->
  Forall2 (fun s' s => sheet_equiv s' s /\
                       map col_type (sheet_columns s') = map col_type (sheet_columns s))
    (parsedSheets String_of_number Date_now view M (startedHeaders off sheets) i) sheets.
Proof.
  intros Hok. revert off i.
  induction Hok as [|sheet sheets Hsheet Hok IH]; intros off i Hrt Hfit H HM;
    [constructor|].
  apply Forall_cons in Hrt as [(Hname & Hrows & Hcells) Hrt].
  apply Forall_cons in Hfit as [Hsfit Hfit].
  cbn [startedHeaders parsedSheets placeholdersSheets] in *.
  unfold sheetsChunks in H. cbn [map concat] in H.
  fold (sheetsChunks Number_of_string sheets) in H.
  rewrite bytesOf_app in H. apply has_at_split in H as [Hs Hrest].
  rewrite byteLength_bytesOf, chunksLength_rowsChunks in Hrest.
  constructor.
  - unfold parsedSheet. cbn [headerOf h_name h_columns h_expaAreaSizePerRow
      h_expaRowCount h_sheetExpaDataStartOffset default]. unfold id.
    split; [split; [done|split]|].
    + cbn [sheet_columns]. apply Forall2_fmap_l, Forall_Forall2_diag, Forall_forall.
      intros c _. reflexivity.
    + cbn [sheet_rows]. rewrite Nat2Z.id.
      apply (parsedRows_generated view M i _ (sheet_columns sheet)); try done.
      * cbn [h_expaAreaSizePerRow]. intros Hne.
        destruct Hsfit as [Hnil|Hlt]; [done|].
        pose proof (rowWidth_nonneg (sheet_columns sheet)).
        unfold headerOf. cbn [h_expaAreaSizePerRow]. by rewrite Z.mod_small by lia.
      * by replace (off + 0 * rowWidth (sheet_columns sheet)) with off by lia.
      * intros O s HO. apply HM. apply elem_of_app. left.
        by replace (off + 0 * rowWidth (sheet_columns sheet)) with off in HO by lia.
    + cbn [sheet_columns]. rewrite map_map. by apply map_ext.
  - apply IH; [done|done|done|].
    intros O s HO. apply HM. apply elem_of_app. by right.
Qed.


(** ** The strings of the placeholders survive the trip *)

Lemma placeholdersRow_roundtrip off columns cells O s :
  Forall2 cell_agrees columns cells -> Forall cell_roundtrips cells ->
  (O, s) ∈ placeholdersRow String_of_number off columns 0 cells ->
  text_roundtrips s.
Proof.
  intros Hag. revert off. induction Hag as [|col x columns cells Hx Hag IH];
    intros off Hrt H; [by apply elem_of_nil in H|].
  apply Forall_cons in Hrt as [Hxrt Hrt].
  cbn [placeholdersRow] in H. rewrite !placeholdersRow_shift in H.
  unfold cell_agrees in Hx.
  destruct (col_type col), x as [n|s']; try (exfalso; exact Hx).
  - by eapply IH.
  - apply elem_of_cons in H as [H|H]; [|by eapply IH].
    injection H as _ ->. exact Hxrt.
  - apply elem_of_cons in H as [H|H]; [|by eapply IH].
    injection H as _ ->. exact Hxrt.
Qed.

Lemma placeholdersRows_roundtrip off columns rows O s :
  Forall (row_ok columns) rows ->
  Forall (fun row => Forall cell_roundtrips (row_cells row)) rows ->
  (O, s) ∈ placeholdersRows String_of_number off columns rows ->
  text_roundtrips s.
Proof.
  intros Hok. revert off. induction Hok as [|row rows Hrow Hok IH];
    intros off Hrt H; [by apply elem_of_nil in H|].
  apply Forall_cons in Hrt as [Hrowrt Hrt]. cbn [placeholdersRows] in H.
  apply elem_of_app in H as [H|H].
  - by eapply placeholdersRow_roundtrip.
  - by eapply IH.
Qed.

Lemma placeholdersSheets_roundtrip off sheets O s :
  Forall sheet_ok sheets -> Forall sheet_roundtrips sheets ->
  (O, s) ∈ placeholdersSheets String_of_number off sheets ->
  text_roundtrips s.
Proof.
  intros Hok. revert off. induction Hok as [|sheet sheets Hsheet Hok IH];
    intros off Hrt H; [by apply elem_of_nil in H|].
  apply Forall_cons in Hrt as [(_ & _ & Hcells) Hrt]. cbn [placeholdersSheets] in H.
  apply elem_of_app in H as [H|H].
  - by eapply placeholdersRows_roundtrip.
  - by eapply IH.
Qed.

Lemma expaSize_fits sheets : expaSize sheets < 2 ^ 32 -> Forall sheet_fits sheets.
Proof.
  induction sheets as [|sheet sheets IH]; intros H; [constructor|].
  cbn [expaSize] in H.
  pose proof (rowWidth_nonneg (sheet_columns sheet)) as Hw.
  pose proof (expaSize_nonneg sheets) as He.
  constructor.
  - unfold sheet_fits. destruct (sheet_rows sheet) as [|row rows]; [by left|right].
    cbn [length] in H. nia.
  - apply IH. nia.
Qed.

Lemma startedHeaders_started off sheets :
  0 <= off -> Forall header_started (startedHeaders off sheets).
Proof.
  revert off. induction sheets as [|sheet sheets IH]; intros off H0; [constructor|].
  cbn [startedHeaders]. pose proof (rowWidth_nonneg (sheet_columns sheet)) as Hw.
  constructor.
  - split.
    + unfold header_ranges, headerOf. cbn. split; [|lia].
      apply Z.mod_pos_bound. done.
    + exists off. done.
  - apply IH. nia.
Qed.

(** ** The blocks of a generated buffer *)

Lemma generated_has_blocks mbeFile :
  has_at (generate mbeFile) 0 (headerBlock mbeFile) /\
  has_at (generate mbeFile) (headerEnd mbeFile)
    (expaBlockOf Number_of_string mbeFile) /\
  has_at (generate mbeFile) (expaEnd mbeFile)
    (chnkBlockOf Number_of_string String_of_number mbeFile) /\
  byteLength (generate mbeFile)
  = expaEnd mbeFile + byteLength (chnkBlockOf Number_of_string String_of_number mbeFile).
Proof.
  rewrite generate_blocks. repeat split.
  - apply has_at_here.
  - rewrite <- byteLength_headerBlock. apply has_at_app_mid.
  - exists (headerBlock mbeFile ++ expaBlockOf Number_of_string mbeFile), [].
    split; [by rewrite app_nil_r, app_assoc|].
    rewrite byteLength_app, byteLength_headerBlock,
      (byteLength_expaBlock Number_of_string). done.
  - rewrite !byteLength_app, byteLength_headerBlock,
      (byteLength_expaBlock Number_of_string). unfold expaEnd. lia.
Qed.

Lemma headerPass_generated mbeFile :
  file_roundtrips mbeFile ->
  byteLength (generate mbeFile) < 2 ^ 32 ->
  headerPass (generate mbeFile)
  = ret (map (headerOf None) (sheets mbeFile), headerEnd mbeFile).
Proof.
  intros Hrt Hsmall.
  destruct (generated_has_blocks mbeFile) as (Hh & _ & _ & _).
  pose proof (has_at_bounds _ _ _ Hh) as [_ Hlen].
  rewrite byteLength_headerBlock in Hlen.
  pose proof (headersEnd_count 8 (map structureInfo (sheets mbeFile))) as Hcount.
  fold (headerEnd mbeFile) in Hcount. rewrite length_map in Hcount.
  unfold headerBlock, preambleChunks in Hh.
  rewrite bytesOf_app, !bytesOf_cons, bytesOf_nil in Hh.
  cbn [chunk_bytes mkChunk] in Hh. rewrite app_nil_r, <- app_assoc in Hh.
  apply has_at_split in Hh as [Hmagic Hh].
  apply has_at_split in Hh as [Hn Hheaders]. rewrite byteLength_le32 in Hheaders.
  unfold headerPass.
  rewrite (verifyMagic_has_at _ _ _ Hmagic), bind_ret_l.
  rewrite (getUint32_has_at _ _ _ Hn), bind_ret_l by lia.
  rewrite Nat2Z.id.
  change (0 + byteLength EXPA_MAGIC_BYTES + 4) with 8 in *.
  by rewrite (readSheetHeaders_generated _ _ _ _ Hheaders) by done.
Qed.

Lemma collected_entry_ok mbeFile :
  model_invariants mbeFile -> file_roundtrips mbeFile ->
  byteLength (generate mbeFile) < 2 ^ 32 ->
  Forall entry_ok (run_chnkRawStrings (generate_run mbeFile)).
Proof.
  intros Hinv Hrt Hsmall. apply Forall_forall. intros e He.
  pose proof (collected_target_bounds _ _ mbeFile e He) as [Hlo Hhi].
  pose proof (headerEnd_ge mbeFile) as HH.
  pose proof (expaEnd_le_length Number_of_string String_of_number mbeFile) as HP.
  apply elem_of_collected in He as (O & s & Hin & _ & ->).
  split; [cbn [rawOfPlaceholder targetExpaAbsoluteFileOffset fst] in *; lia|].
  by apply (placeholdersSheets_roundtrip _ _ _ _ Hinv Hrt) in Hin as [_ Hnul].
Qed.

Lemma readChnk_generated mbeFile :
  model_invariants mbeFile -> file_roundtrips mbeFile ->
  byteLength (generate mbeFile) < 2 ^ 32 ->
  exists M, returns (readChnk (generate mbeFile) (expaEnd mbeFile)) M /\
            chnk_text <$> M
            = fold_left insertText (run_chnkRawStrings (generate_run mbeFile)) ∅.
Proof.
  intros Hinv Hrt Hsmall.
  pose proof (collected_entry_ok mbeFile Hinv Hrt Hsmall) as Hok.
  destruct (generated_has_blocks mbeFile) as (_ & _ & Hc & Hlen).
  pose proof (headerEnd_ge mbeFile) as HH.
  pose proof (expaSize_nonneg (sheets mbeFile)) as He.
  assert (8 <= expaEnd mbeFile) as HP by (unfold expaEnd; lia).
  unfold chnkBlockOf, chnkChunks in Hc, Hlen.
  rewrite sortByOffset_collected in Hc, Hlen.
  unfold readChnk.
  destruct (run_chnkRawStrings (generate_run mbeFile)) as [|e l] eqn:E.
  - rewrite bytesOf_nil, byteLength_nil in Hlen.
    rewrite findMagic_at_end, bind_ret_l
      by (change (byteLength CHNK_MAGIC_BYTES) with 4; lia).
    cbn [Z.eqb]. rewrite bind_warn. exists ∅. split; [done|].
    by rewrite fmap_empty.
  - rewrite bytesOf_app, !bytesOf_cons, bytesOf_nil in Hc, Hlen.
    cbn [chunk_bytes mkChunk] in Hc, Hlen. rewrite app_nil_r, <- app_assoc in Hc, Hlen.
    rewrite !byteLength_app, byteLength_le32, byteLength_bytesOf in Hlen.
    change (byteLength CHNK_MAGIC_BYTES) with 4 in *.
    pose proof (entriesChunks_count (expaEnd mbeFile + 8) (e :: l)) as Hcount.
    apply has_at_split in Hc as [Hmagic Hc].
    apply has_at_split in Hc as [Hn Hentries]. rewrite byteLength_le32 in Hentries.
    change (byteLength CHNK_MAGIC_BYTES) with 4 in *.
    rewrite (findMagic_here _ _ _ Hmagic), bind_ret_l.
    destruct (Z.eqb_spec (expaEnd mbeFile) (-1)); [lia|].
    rewrite (getUint32_has_at _ _ _ Hn), bind_ret_l by lia.
    rewrite Nat2Z.id.
    replace (expaEnd mbeFile + 4 + 4) with (expaEnd mbeFile + 8) in * by lia.
    destruct (readChnkEntries_generated (generate mbeFile)
                (Z.of_nat (length (e :: l))) (e :: l) 0 (expaEnd mbeFile + 8) ∅
                Hentries Hsmall Hok) as (M & HM & Htexts).
    exists M. split; [done|]. by rewrite Htexts, fmap_empty.
Qed.

Lemma lookupText_generated mbeFile (M : gmap Z ChnkEntry) O s :
  model_invariants mbeFile -> file_roundtrips mbeFile ->
  chnk_text <$> M
  = fold_left insertText (run_chnkRawStrings (generate_run mbeFile)) ∅ ->
  (O, s) ∈ placeholdersSheets String_of_number (headerEnd mbeFile) (sheets mbeFile) ->
  lookupText M O = s.
Proof.
  intros Hinv Hrt HM Hin. rewrite lookupText_fmap, HM.
  pose proof (collected_NoDup Number_of_string String_of_number mbeFile) as Hnd.
  destruct (decide (s = [])) as [->|Hne].
  - rewrite fold_insertText_notin; [by rewrite lookup_empty|].
    intros (e & HO & He)%list_elem_of_fmap.
    apply elem_of_collected in He as (O' & s' & Hin' & Hne' & ->).
    cbn [rawOfPlaceholder targetExpaAbsoluteFileOffset fst] in HO. subst O'.
    pose proof (placeholdersSheets_spaced String_of_number (headerEnd mbeFile)
                  (sheets mbeFile)) as Hsp.
    pose proof (spaced_fst_inj _ _ _ _ _ Hsp Hin Hin' eq_refl) as Heq.
    by injection Heq as <-.
  - assert (rawOfPlaceholder (O, s) ∈ run_chnkRawStrings (generate_run mbeFile)) as He.
    { apply elem_of_collected. by exists O, s. }
    pose proof (fold_insertText_in _ ∅ _ Hnd He) as Hl.
    cbn [rawOfPlaceholder targetExpaAbsoluteFileOffset encodedBytes fst snd] in Hl.
    rewrite Hl. cbn [default].
    by apply (placeholdersSheets_roundtrip _ _ _ _ Hinv Hrt) in Hin as [Henc _].
Qed.

(** C1, as amended: the round trip.  For a file that satisfies the model
    invariants, whose sheet names and string cells are encodable in UTF-8
    and hold no NUL character, whose INT cells fit a signed 32-bit
    integer, whose sheets have fewer than 2^32 rows, and whose generated
    buffer is smaller than 4 GiB, parsing the generated buffer returns a
    file equivalent to the input: same names, same cells, columns of the
    same types (so also the same up to STR and STRID), whatever the row
    identity tokens and [parsedExpaAreaSizePerRow]. *)
Theorem round_trip (mbeFile : MbeFile) :
  model_invariants mbeFile ->
  file_roundtrips mbeFile ->
  byteLength (generate mbeFile) < 2 ^ 32 ->
  exists mbeFile',
    returns (parse (generate mbeFile)) mbeFile' /\
    MbeFile_equiv mbeFile' mbeFile /\
    Forall2 (fun s' s => map col_type (sheet_columns s') = map col_type (sheet_columns s))
      (sheets mbeFile') (sheets mbeFile).
Proof.
  intros Hinv Hrt Hsmall.
  destruct (readChnk_generated mbeFile Hinv Hrt Hsmall) as (M & HM & Htexts).
  destruct (generated_has_blocks mbeFile) as (_ & Hexpa & _ & Hlen).
  pose proof (headerEnd_ge mbeFile) as HH.
  pose proof (expaSize_nonneg (sheets mbeFile)) as He.
  pose proof (byteLength_nonneg (chnkBlockOf Number_of_string String_of_number mbeFile))
    as Hc.
  assert (Forall sheet_fits (sheets mbeFile)) as Hfit.
  { apply expaSize_fits. unfold expaEnd in Hlen. lia. }
  exists {| sheets := parsedSheets String_of_number Date_now (generate mbeFile) M
                        (startedHeaders (headerEnd mbeFile) (sheets mbeFile)) 0 |}.
  split.
  - rewrite parse_headerPass, headerPass_generated, bind_ret_l by done.
    unfold parseRest. rewrite assignStartOffsets_generated by done.
    fold (expaEnd mbeFile).
    eapply returns_bind; [exact HM|].
    eapply returns_bind.
    + apply readSheets_returns, startedHeaders_started. lia.
    + apply returns_ret.
  - pose proof (parsedSheets_generated (generate mbeFile) M (sheets mbeFile)
                  (headerEnd mbeFile) 0 Hinv Hrt Hfit Hexpa) as Hsheets.
    cbn [sheets].
    split; (eapply Forall2_impl; [apply Hsheets|]).
    + intros O s Hin. by eapply lookupText_generated.
    + by intros s' s [? _].
    + intros O s Hin. by eapply lookupText_generated.
    + by intros s' s [_ ?].
Qed.

End RoundTrip.

(** * The properties on sample files *)

(** ** Computations on the samples *)

Lemma sample_generated :
  generateMbeFile decimalNumber decimalString sampleFile = sampleBuffer.
Proof. vm_compute. reflexivity. Qed.

Lemma sample_invariants : model_invariants sampleFile.
Proof.
  unfold model_invariants, sampleFile, sheet_ok, row_ok. cbn.
  repeat (constructor; try exact I).
Qed.

Lemma sample_roundtrips : file_roundtrips sampleFile.
Proof.
  unfold file_roundtrips, sampleFile. constructor; [|constructor].
  unfold sheet_roundtrips. cbn [sheet_name sheet_rows length].
  split; [|split].
  - apply ascii_text_roundtrips. repeat constructor; lia.
  - reflexivity.
  - constructor; [|constructor]. cbn [row_cells].
    constructor; [cbn; lia|]. constructor; [|constructor].
    apply ascii_text_roundtrips. repeat constructor; lia.
Qed.

Lemma sample_small :
  byteLength (generateMbeFile decimalNumber decimalString sampleFile) < 2 ^ 32.
Proof. rewrite sample_generated. vm_compute. reflexivity. Qed.


Lemma truncatedPool_ok : buffer_ok truncatedPool.
Proof.
  unfold buffer_ok, truncatedPool. repeat (constructor; [unfold byte_ok; lia|]).
  constructor.
Qed.


(** The file without sheets is the magic followed by a zero count, and
    reads back as a file without sheets, with the warning that no pool
    was found. *)
Lemma empty_file_generated :
  generateMbeFile decimalNumber decimalString emptyFile = emptyBuffer /\
  parseMbeFile decimalString fixedClock emptyBuffer
  = ([ChnkMagicNotFound 8], Returned emptyFile).
Proof. split; vm_compute; reflexivity. Qed.

(** One INT column and two rows: the name "x" takes three NUL bytes, no
    pool is written, and the cells read back as 1 and -1. *)
Lemma int_file_generated :
  generateMbeFile decimalNumber decimalString intFile = intBuffer /\
  exists mbeFile,
    parseMbeFile decimalString fixedClock intBuffer
    = ([ChnkMagicNotFound 40], Returned mbeFile) /\
    row_cells <$> (sheets mbeFile ≫= sheet_rows) = [ [CellNum 1]; [CellNum (-1)] ].
Proof.
  split; [vm_compute; reflexivity|].
  eexists. split; [vm_compute; reflexivity|]. reflexivity.
Qed.

(** ** The round trip on the sample, and where it fails *)

Lemma round_trip_witness :
  model_invariants sampleFile /\ file_roundtrips sampleFile /\
  byteLength (generateMbeFile decimalNumber decimalString sampleFile) < 2 ^ 32 /\
  exists mbeFile',
    returns (parseMbeFile decimalString fixedClock
               (generateMbeFile decimalNumber decimalString sampleFile)) mbeFile' /\
    MbeFile_equiv mbeFile' sampleFile /\
    Forall2 (fun s' s => map col_type (sheet_columns s') = map col_type (sheet_columns s))
      (sheets mbeFile') (sheets sampleFile).
Proof.
  exact (conj sample_invariants (conj sample_roundtrips (conj sample_small
           (round_trip decimalNumber decimalString fixedClock sampleFile
              sample_invariants sample_roundtrips sample_small)))).
Defined.

(** C1 as stated fails: [wrappingFile] satisfies the model invariants and
    its string cell is encodable, yet the file read back holds -2^31 for
    the integer 2^31 and "a" for the string "a", NUL, "b". *)
Lemma round_trip_counterexample :
  model_invariants wrappingFile /\ cells_encodable wrappingFile /\
  exists mbeFile',
    parseMbeFile decimalString fixedClock
      (generateMbeFile decimalNumber decimalString wrappingFile)
    = ([], Returned mbeFile') /\
    row_cells <$> (sheets mbeFile' ≫= sheet_rows)
    = [ [CellNum (-2147483648); CellStr [97]] ] /\
    ~ MbeFile_equiv mbeFile' wrappingFile.
Proof.
  split; [|split].
  - unfold model_invariants, wrappingFile, sheet_ok, row_ok. cbn.
    repeat (constructor; try exact I).
  - unfold cells_encodable, wrappingFile. cbn.
    repeat (constructor; try exact I).
  - eexists. split; [vm_compute; reflexivity|]. split; [reflexivity|].
    unfold MbeFile_equiv, wrappingFile. cbn [sheets]. intros Heq.
    apply Forall2_cons in Heq as [(_ & _ & Hrows) _]. cbn [sheet_rows] in Hrows.
    apply Forall2_cons in Hrows as [Hrow _]. unfold row_equiv in Hrow.
    cbn [row_cells] in Hrow. discriminate Hrow.
Qed.

(** ** The outcomes of the parser on the samples *)





Lemma parser_tolerates_truncation_witness :
  buffer_ok truncatedPool /\
  returns (readChnkEntries 1 truncatedPool 2 1 72 ∅) ∅ /\
  exists mbeFile,
    returns (parseMbeFile decimalString fixedClock truncatedPool) mbeFile /\
    row_cells <$> (sheets mbeFile ≫= sheet_rows) = [ [CellStr [104; 105]; CellStr []] ].
Proof.
  refine (conj truncatedPool_ok _).
  destruct (parser_tolerates_truncation decimalString fixedClock truncatedPool
              truncatedPool_ok) as (_ & _ & Htext & _ & _ & _ & Hwhole).
  split.
  - apply (Htext 0%nat 2 1 72 ∅); vm_compute; congruence.
  - eexists. split.
    + apply (Hwhole (map (headerOf None)
                       [ {| sheet_name := [109];
                            sheet_columns := [ columnOf STR; columnOf STR ];
                            sheet_rows := [ {| row_id := []; row_cells := [] |} ];
                            parsedExpaAreaSizePerRow := 0 |} ]) 36
               {[ 36 := {| chnk_text := [104; 105]; originalChnkLength := 4 |} ]}).
      * vm_compute. reflexivity.
      * vm_compute. reflexivity.
    + vm_compute. reflexivity.
Defined.

(** ** The generator on the samples *)

Lemma padding_of_string_fields_witness :
  paddingRule 12 1 3 /\ le32_value (le32 (1 + 3)) 0 = 1 + 3.
Proof.
  destruct (padding_of_string_fields decimalNumber decimalString)
    as (Hname & _ & Hfield & _).
  split.
  - exact (proj1 (Hname (writeUint32 (writeBytes newWriter EXPA_MAGIC_BYTES) 1)
                    (structureInfo {| sheet_name := [109]; sheet_columns := [];
                                      sheet_rows := []; parsedExpaAreaSizePerRow := 0 |}))).
  - apply Hfield. vm_compute. split; congruence.
Defined.

Lemma pool_entries_point_at_placeholders_witness :
  {| targetExpaAbsoluteFileOffset := 40; encodedBytes := [104; 105] |}
    ∈ sortByOffset (run_chnkRawStrings
                      (generateMbeFile_run decimalNumber decimalString sampleFile)) /\
  slice (generateMbeFile decimalNumber decimalString sampleFile) 40 8 = replicate 8 0.
Proof.
  assert ({| targetExpaAbsoluteFileOffset := 40; encodedBytes := [104; 105] |}
            ∈ sortByOffset (run_chnkRawStrings
                              (generateMbeFile_run decimalNumber decimalString sampleFile)))
    as Hin by (vm_compute; apply list_elem_of_here).
  split; [exact Hin|].
  exact (proj1 (proj2 (proj2
           (pool_entries_point_at_placeholders decimalNumber decimalString sampleFile _ Hin)))).
Defined.

Lemma pool_offsets_strictly_increasing_witness :
  byteLength (generateMbeFile decimalNumber decimalString sampleFile) < 2 ^ 32 /\
  StronglySorted Z.lt
    (map (fun e => le32_value (le32 (targetExpaAbsoluteFileOffset e)) 0)
       (sortByOffset (run_chnkRawStrings
                        (generateMbeFile_run decimalNumber decimalString sampleFile)))).
Proof.
  refine (conj sample_small _).
  exact (proj2 (proj2 (proj2
           (pool_offsets_strictly_increasing decimalNumber decimalString sampleFile)))
           sample_small).
Defined.

Lemma pool_holds_the_non_empty_strings_witness :
  model_invariants sampleFile /\
  map encodedBytes
    (run_chnkRawStrings (generateMbeFile_run decimalNumber decimalString sampleFile))
  = map TextEncoder_encode (poolStrings sampleFile).
Proof.
  refine (conj sample_invariants _).
  exact (proj1 (pool_holds_the_non_empty_strings decimalNumber decimalString sampleFile
                  sample_invariants)).
Defined.

Lemma output_ignores_ids_and_parsed_size_witness :
  same_wire_content sampleFile sampleFileRetagged /\
  generateMbeFile decimalNumber decimalString sampleFile
  = generateMbeFile decimalNumber decimalString sampleFileRetagged.
Proof.
  assert (same_wire_content sampleFile sampleFileRetagged) as Hsame.
  { unfold same_wire_content, sampleFile, sampleFileRetagged. cbn.
    constructor; [|constructor]. repeat split. }
  split; [exact Hsame|].
  exact (proj1 (output_ignores_ids_and_parsed_size decimalNumber decimalString
                  sampleFile sampleFileRetagged Hsame)).
Defined.

(** * Further properties of the codec *)

(** ** The search of a magic *)



Lemma magicAt_true_inv (view magicBytes : list Z) (i : Z) :
  0 <= i -> i + byteLength magicBytes <= byteLength view ->
  magicAt view magicBytes i = ret true -> has_at view i magicBytes.
Proof.
  revert i. induction magicBytes as [|m rest IH]; intros i H0 Hlen H.
  - apply has_at_empty; [done|]. rewrite byteLength_nil in Hlen. lia.
  - rewrite byteLength_cons in Hlen. pose proof (byteLength_nonneg rest).
    cbn [magicAt] in H. rewrite getUint8_in, bind_ret_l in H by lia.
    destruct (Z.eqb_spec (byteAt view i) m) as [Hb|Hb]; [|discriminate].
    apply has_at_cons; [lia|lia|done|]. apply IH; [lia|lia|done].
Qed.

Lemma findMagicLoop_first (positions : nat) (view magicBytes : list Z) (i : Z) :
  0 <= i ->
  Z.of_nat positions <= byteLength view - byteLength magicBytes - i + 1 ->
  exists m, findMagicLoop positions view magicBytes i = ret m /\
    ((m = -1 /\
      forall j, i <= j < i + Z.of_nat positions -> ~ has_at view j magicBytes) \/
     (i <= m < i + Z.of_nat positions /\ has_at view m magicBytes /\
      forall j, i <= j < m -> ~ has_at view j magicBytes)).
Proof.
  revert i. induction positions as [|p IH]; intros i H0 Hp.
  - exists (-1). split; [done|]. left. split; [done|]. intros j Hj. lia.
  - cbn [findMagicLoop].
    destruct (magicAt_in_view view magicBytes i) as [found Hfound]; [lia|lia|].
    rewrite Hfound, bind_ret_l. destruct found.
    + exists i. split; [done|]. right. split; [lia|]. split.
      * apply magicAt_true_inv; [lia|lia|done].
      * intros j Hj. lia.
    + assert (~ has_at view i magicBytes) as Hnot.
      { intros Hat. rewrite (magicAt_has_at _ _ _ Hat) in Hfound. discriminate. }
      destruct (IH (i + 1)) as (m & -> & Hm); [lia|lia|].
      exists m. split; [done|].
      destruct Hm as [[-> Hnone]|(Hrange & Hat & Hnone)].
      * left. split; [done|]. intros j Hj.
        destruct (decide (j = i)) as [->|Hne]; [done|]. apply Hnone. lia.
      * right. split; [lia|]. split; [done|]. intros j Hj.
        destruct (decide (j = i)) as [->|Hne]; [done|]. apply Hnone. lia.
Qed.

(** X1: [findMagic] returns the first offset at or after [startOffset] at
    which the buffer holds the magic bytes, and -1 exactly when the
    buffer holds them at no such offset.  It logs nothing and does not
    throw. *)
Theorem findMagic_first_match (view magicBytes : list Z) (startOffset : Z) :
  0 <= startOffset ->
  exists m, findMagic view magicBytes startOffset = ret m /\
    ((m = -1 /\ forall j, startOffset <= j -> ~ has_at view j magicBytes) \/
     (startOffset <= m /\ has_at view m magicBytes /\
      forall j, startOffset <= j < m -> ~ has_at view j magicBytes)).
Proof.
  intros H0. unfold findMagic.
  set (n := byteLength view - byteLength magicBytes - startOffset + 1).
  destruct (Z.le_gt_cases 0 n) as [Hn|Hn]; cycle 1.
  { replace (Z.to_nat n) with 0%nat by lia. exists (-1). split; [done|].
    left. split; [done|]. intros j Hj Hat.
    pose proof (has_at_bounds _ _ _ Hat) as [_ Hb]. lia. }
  destruct (findMagicLoop_first (Z.to_nat n) view magicBytes startOffset)
    as (m & Hm & Hcases); [done|lia|].
  exists m. split; [done|].
  destruct Hcases as [[-> Hnone]|(Hrange & Hat & Hnone)].
  - left. split; [done|]. intros j Hj Hat.
    pose proof (has_at_bounds _ _ _ Hat) as [_ Hb].
    apply (Hnone j); [lia|done].
  - right. split; [lia|]. split; [done|]. exact Hnone.
Qed.

(** ** Strings read from the view *)


Lemma untilNul_no_nul (buffer : list Z) : 0 ∉ untilNul buffer.
Proof.
  induction buffer as [|b rest IH]; cbn [untilNul]; [apply not_elem_of_nil|].
  destruct (Z.eqb_spec b 0); [apply not_elem_of_nil|].
  apply not_elem_of_cons. split; [congruence|done].
Qed.

Lemma untilNul_app_nul (a rest : list Z) :
  0 ∉ a -> untilNul (a ++ 0 :: rest) = a.
Proof.
  induction a as [|b a IH]; intros H; [done|].
  apply not_elem_of_cons in H as [Hb H]. cbn [app untilNul].
  destruct (Z.eqb_spec b 0); [congruence|]. by rewrite IH.
Qed.

(** X2: what [readString] returns.  A zero length gives the empty string.
    A read that starts before the view or ends after it gives the empty
    string and logs one warning.  Any other read of positive length logs
    nothing and decodes the bytes of [offset, offset + length) that come
    before the first NUL among them: no byte after that NUL and no byte
    outside the range is looked at.  A negative length inside the view
    gives the empty string.  So [readString] never throws. *)
Theorem readString_cases (view : list Z) (offset len : Z) :
  (len = 0 -> readString view offset len = ([], Returned [])) /\
  (len <> 0 -> offset < 0 \/ byteLength view < offset + len ->
   readString view offset len
   = ([ReadStringOutOfBounds offset len (byteLength view)], Returned [])) /\
  (0 < len -> 0 <= offset -> offset + len <= byteLength view ->
   readString view offset len
   = ([], Returned (TextDecoder_decode (untilNul (slice view offset len)))) /\
   0 ∉ untilNul (slice view offset len)) /\
  (len < 0 -> 0 <= offset -> offset + len <= byteLength view ->
   readString view offset len = ([], Returned [])).
Proof.
  unfold readString. repeat split.
  - intros ->. reflexivity.
  - intros Hne Hout. destruct (Z.eqb_spec len 0); [done|].
    replace ((offset <? 0) || (byteLength view <? offset + len)) with true; [done|].
    symmetry. apply orb_true_iff.
    destruct Hout; [left; by apply Z.ltb_lt|right; by apply Z.ltb_lt].
  - destruct (Z.eqb_spec len 0); [lia|].
    replace (offset <? 0) with false by (symmetry; apply Z.ltb_ge; lia).
    replace (byteLength view <? offset + len) with false
      by (symmetry; apply Z.ltb_ge; lia).
    cbn [orb]. rewrite Z.min_l by lia.
    destruct (Z.leb_spec len 0); [lia|].
    by rewrite untilNul_actualLength.
  - apply untilNul_no_nul.
  - intros Hneg H0 Hin. destruct (Z.eqb_spec len 0); [lia|].
    replace (offset <? 0) with false by (symmetry; apply Z.ltb_ge; lia).
    replace (byteLength view <? offset + len) with false
      by (symmetry; apply Z.ltb_ge; lia).
    cbn [orb]. rewrite Z.min_l by lia.
    by destruct (Z.leb_spec len 0); [|lia].
Qed.

(** ** The writer *)

Lemma callWriter_pushChunk (w : ArrayBufferWriter) (call : WriterCall) :
  exists k, callWriter w call = pushChunk w k (writtenBytes call).
Proof. destruct call; by eexists. Qed.

Lemma fold_callWriter (calls : list WriterCall) (w : ArrayBufferWriter) :
  writer_ok w ->
  let w' := fold_left callWriter calls w in
  writer_ok w' /\
  toArrayBuffer w' = toArrayBuffer w ++ concat (map writtenBytes calls) /\
  length (buffers w') = (length (buffers w) + length calls)%nat.
Proof.
  revert w. induction calls as [|call calls IH]; intros w Hok; cbn [fold_left].
  - cbn. by rewrite app_nil_r, Nat.add_0_r.
  - destruct (callWriter_pushChunk w call) as [k Hk].
    destruct (IH (callWriter w call)) as (IH1 & IH2 & IH3).
    { rewrite Hk. by apply writer_ok_pushChunk. }
    split; [done|]. split.
    + rewrite IH2, Hk, toArrayBuffer_pushChunk. cbn [map concat].
      by rewrite <- app_assoc.
    + rewrite IH3, Hk. unfold pushChunk. cbn [buffers length].
      rewrite length_app. cbn [length]. lia.
Qed.

(** X3: the writer holds what was written.  After any sequence of calls
    of [writeBytes], [writeUint32] and [writeInt32] on a new writer,
    [toArrayBuffer] is the concatenation, in call order, of the bytes of
    each call (the argument of [writeBytes], the four little-endian bytes
    of an integer), [getCurrentOffset] is the length of that output, and
    one buffer was pushed for each call. *)
Theorem writer_holds_what_was_written (calls : list WriterCall) :
  let w := fold_left callWriter calls newWriter in
  toArrayBuffer w = concat (map writtenBytes calls) /\
  getCurrentOffset w = byteLength (toArrayBuffer w) /\
  length (buffers w) = length calls.
Proof.
  intros w. destruct (fold_callWriter calls newWriter writer_ok_new) as (H1 & H2 & H3).
  fold w in H1, H2, H3. repeat split; done.
Qed.

(** ** Integers written and read back *)

Lemma toInt32_wrap (value : Z) :
  toInt32 (value mod 2 ^ 32) = (value + 2 ^ 31) mod 2 ^ 32 - 2 ^ 31.
Proof.
  unfold toInt32. change (2 ^ 31) with 2147483648. change (2 ^ 32) with 4294967296.
  destruct (Z.ltb_spec (value mod 4294967296) 2147483648);
    Z.div_mod_to_equations; lia.
Qed.

Lemma has_at_written (w : ArrayBufferWriter) (k : chunk_kind) (bytes more : list Z) :
  writer_ok w ->
  has_at (toArrayBuffer (pushChunk w k bytes) ++ more) (getCurrentOffset w) bytes.
Proof.
  intros Hok. rewrite toArrayBuffer_pushChunk, <- app_assoc.
  unfold getCurrentOffset. rewrite Hok. apply has_at_app_mid.
Qed.

(** X4: an integer written by the writer and read back through the view.
    The four bytes [writeUint32] pushes read back by [getUint32], at the
    offset the writer stood at, as the value modulo 2^32; those of
    [writeInt32] read back by [getInt32] as the value wrapped into
    [-2^31, 2^31).  A value in range reads back unchanged; whatever is
    written afterwards does not change this. *)
Theorem integers_read_back (w : ArrayBufferWriter) (value : Z) (more : list Z) :
  writer_ok w ->
  getUint32 (toArrayBuffer (writeUint32 w value) ++ more) (getCurrentOffset w)
    = ret (value mod 2 ^ 32) /\
  getInt32 (toArrayBuffer (writeInt32 w value) ++ more) (getCurrentOffset w)
    = ret ((value + 2 ^ 31) mod 2 ^ 32 - 2 ^ 31) /\
  (0 <= value < 2 ^ 32 ->
   getUint32 (toArrayBuffer (writeUint32 w value) ++ more) (getCurrentOffset w)
   = ret value) /\
  (- 2 ^ 31 <= value < 2 ^ 31 ->
   getInt32 (toArrayBuffer (writeInt32 w value) ++ more) (getCurrentOffset w)
   = ret value).
Proof.
  intros Hok.
  pose proof (has_at_written w Uint32Field (le32 value) more Hok) as Hu.
  pose proof (has_at_written w Int32Field (le32 value) more Hok) as Hi.
  assert (getInt32 (toArrayBuffer (writeInt32 w value) ++ more) (getCurrentOffset w)
          = ret (toInt32 (value mod 2 ^ 32))) as Hint.
  { pose proof (has_at_bounds _ _ _ Hi) as [H0 Hlen]. rewrite byteLength_le32 in Hlen.
    unfold writeInt32. rewrite getInt32_in by done.
    by rewrite (le32_value_has_at _ _ _ Hi). }
  repeat split.
  - by apply getUint32_has_at_mod.
  - by rewrite Hint, toInt32_wrap.
  - intros Hv. by apply getUint32_has_at.
  - intros Hv. by rewrite Hint, toInt32_le32.
Qed.

(** ** The padding loop always finds its alignment *)

(** X5: the padding loop of the generator never falls back on its
    default.  Whatever the offset [base] before the data (aligned or
    not), the encoded length and the default, the loop over 2..5 NUL
    bytes returns the length [sLen + N] with
    [N = 2 + (2 - base - sLen) mod 4], and the offset after the padded
    data is a multiple of 4. *)
Theorem padding_never_defaults (base sLen dflt : Z) :
  let final := paddingLoop [2; 3; 4; 5] base sLen dflt in
  final = lengthWithPadding base sLen /\
  final = sLen + 2 + (2 - base - sLen) mod 4 /\
  (base + final) mod 4 = 0.
Proof.
  intros final. subst final. unfold lengthWithPadding, paddingLoop.
  destruct (Z.eqb_spec ((base + (sLen + 2)) mod 4) 0) as [H2|H2].
  { repeat split; [|done]. Z.div_mod_to_equations. lia. }
  destruct (Z.eqb_spec ((base + (sLen + 3)) mod 4) 0) as [H3|H3].
  { repeat split; [|done]. Z.div_mod_to_equations. lia. }
  destruct (Z.eqb_spec ((base + (sLen + 4)) mod 4) 0) as [H4|H4].
  { repeat split; [|done]. Z.div_mod_to_equations. lia. }
  destruct (Z.eqb_spec ((base + (sLen + 5)) mod 4) 0) as [H5|H5].
  { repeat split; [|done]. Z.div_mod_to_equations. lia. }
  exfalso. clear -H2 H3 H4 H5. Z.div_mod_to_equations. lia.
Qed.

Section CodecExtras.

Variable Number_of_string : jsstring -> Z.
Variable String_of_number : Z -> jsstring.
Variable Date_now : Z -> Z -> Z.

Local Abbreviation generate := (generateMbeFile Number_of_string String_of_number).
Local Abbreviation generate_run := (generateMbeFile_run Number_of_string String_of_number).
Local Abbreviation parse := (parseMbeFile String_of_number Date_now).

(** ** The frame of the output *)

(** X6: the frame of every generated buffer.  It starts with the EXPA
    magic, followed by the number of sheets as a little-endian u32; it is
    at least 8 bytes long and its length is a multiple of 4. *)
Theorem output_frame (mbeFile : MbeFile) :
  take 4 (generate mbeFile) = EXPA_MAGIC_BYTES /\
  getUint32 (generate mbeFile) 4
    = ret (Z.of_nat (length (sheets mbeFile)) mod 2 ^ 32) /\
  8 <= byteLength (generate mbeFile) /\
  byteLength (generate mbeFile) mod 4 = 0.
Proof.
  pose proof (headerEnd_ge mbeFile) as HH.
  pose proof (expaSize_nonneg (sheets mbeFile)) as He.
  pose proof (expaEnd_le_length Number_of_string String_of_number mbeFile) as HP.
  unfold expaEnd in HP.
  assert (has_at (generate mbeFile) 0
            (EXPA_MAGIC_BYTES ++ le32 (Z.of_nat (length (sheets mbeFile))))) as Hat.
  { rewrite generate_blocks. unfold headerBlock, preambleChunks.
    rewrite bytesOf_app, !bytesOf_cons, bytesOf_nil. cbn [chunk_bytes mkChunk].
    rewrite app_nil_r, <- !app_assoc.
    rewrite (app_assoc EXPA_MAGIC_BYTES). apply has_at_here. }
  apply has_at_split in Hat as [Hmagic Hcount].
  repeat split.
  - apply has_at_slice in Hmagic. unfold slice in Hmagic. by rewrite drop_0 in Hmagic.
  - by apply getUint32_has_at_mod.
  - lia.
  - destruct (wAligned4_run_writer Number_of_string String_of_number mbeFile)
      as [[Hok _] Hal].
    unfold generateMbeFile. by rewrite <- Hok.
Qed.

(** ** The start offsets recorded in phase 2 *)

Lemma run_sheetExpaDataStartOffsets_spec mbeFile :
  run_sheetExpaDataStartOffsets (generate_run mbeFile)
  = sheetStarts (headerEnd mbeFile) (sheets mbeFile).
Proof.
  pose proof (run_totalHeaderSize_spec Number_of_string String_of_number mbeFile) as HH.
  unfold generateMbeFile_run in *.
  cbn [run_sheetExpaDataStartOffsets run_totalHeaderSize] in *.
  rewrite zip_structureInfo, phase2_fold.
  cbn [p2_sheetExpaDataStartOffsets p2_runningExpaOffsetTracker app]. by rewrite HH.
Qed.

Lemma length_sheetStarts off sheets : length (sheetStarts off sheets) = length sheets.
Proof.
  revert off. induction sheets as [|sheet sheets IH]; intros off; [done|].
  cbn [sheetStarts length]. by rewrite IH.
Qed.

Lemma sheetStarts_has_at (view : list Z) (sheets : list MbeSheet) (off : Z)
    (i : nat) (start : Z) (sheet : MbeSheet) :
  has_at view off (bytesOf (sheetsChunks Number_of_string sheets)) ->
  sheetStarts off sheets !! i = Some start -> sheets !! i = Some sheet ->
  has_at view start
    (bytesOf (rowsChunks Number_of_string (sheet_columns sheet) (sheet_rows sheet))).
Proof.
  revert off i. induction sheets as [|s sheets IH]; intros off i H Hstart Hsheet;
    [done|].
  unfold sheetsChunks in H. cbn [map concat] in H.
  fold (sheetsChunks Number_of_string sheets) in H.
  rewrite bytesOf_app in H. apply has_at_split in H as [Hs Hrest].
  rewrite byteLength_bytesOf, chunksLength_rowsChunks in Hrest.
  cbn [sheetStarts] in Hstart. destruct i as [|i].
  - cbn in Hstart, Hsheet. by injection Hstart as <-; injection Hsheet as <-.
  - cbn in Hstart, Hsheet. by eapply IH.
Qed.

(** X7: the start offsets recorded in phase 2, before any structural
    byte is written, are the true ones.  One offset is recorded for each
    sheet; the first is the total header size of the dry run; and at the
    offset recorded for a sheet the output holds the bytes phase 3 writes
    for the rows of that sheet. *)
Theorem recorded_sheet_starts (mbeFile : MbeFile) :
  let run := generate_run mbeFile in
  length (run_sheetExpaDataStartOffsets run) = length (sheets mbeFile) /\
  (forall start, run_sheetExpaDataStartOffsets run !! 0%nat = Some start ->
                 start = run_totalHeaderSize run) /\
  (forall (i : nat) (start : Z) (sheet : MbeSheet),
     run_sheetExpaDataStartOffsets run !! i = Some start ->
     sheets mbeFile !! i = Some sheet ->
     has_at (generate mbeFile) start
       (toArrayBuffer (writeSheetRows Number_of_string newWriter sheet))).
Proof.
  intros run. subst run. rewrite run_sheetExpaDataStartOffsets_spec.
  split; [apply length_sheetStarts|]. split.
  - intros start Hstart.
    rewrite (run_totalHeaderSize_spec Number_of_string String_of_number).
    destruct (sheets mbeFile); [done|]. cbn in Hstart. by injection Hstart.
  - intros i start sheet Hstart Hsheet.
    rewrite writeSheetRows_appendChunks, toArrayBuffer_appendChunks.
    change (toArrayBuffer newWriter) with (@nil Z). cbn [app].
    fold (bytesOf (rowsChunks Number_of_string (sheet_columns sheet) (sheet_rows sheet))).
    destruct (generated_has_blocks Number_of_string String_of_number mbeFile)
      as (_ & Hexpa & _).
    by eapply sheetStarts_has_at.
Qed.

(** ** The output depends on the types of the columns, not on their labels *)

Lemma rowWidth_types columns columns' :
  map col_type columns = map col_type columns' -> rowWidth columns = rowWidth columns'.
Proof.
  revert columns'. induction columns as [|c columns IH]; intros [|c' columns'] H;
    try discriminate; [done|].
  injection H as Hc H. cbn [rowWidth]. by rewrite Hc, (IH columns').
Qed.

Lemma rowChunks_types columns columns' c cells :
  map col_type columns = map col_type columns' ->
  rowChunks Number_of_string columns c cells = rowChunks Number_of_string columns' c cells.
Proof.
  revert columns' c. induction columns as [|col columns IH]; intros [|col' columns'] c H;
    try discriminate; [done|].
  injection H as Hc H. cbn [rowChunks]. by rewrite Hc, (IH columns').
Qed.

Lemma placeholdersRow_types off columns columns' c cells :
  map col_type columns = map col_type columns' ->
  placeholdersRow String_of_number off columns c cells
  = placeholdersRow String_of_number off columns' c cells.
Proof.
  revert off columns' c.
  induction columns as [|col columns IH]; intros off [|col' columns'] c H;
    try discriminate; [done|].
  injection H as Hc H. cbn [placeholdersRow]. rewrite Hc.
  destruct (col_type col'); by rewrite (IH _ columns').
Qed.

Lemma rowsChunks_types columns columns' rows rows' :
  map col_type columns = map col_type columns' ->
  map row_cells rows = map row_cells rows' ->
  rowsChunks Number_of_string columns rows = rowsChunks Number_of_string columns' rows'.
Proof.
  intros Hc Hr. rewrite !rowsChunks_cells, Hr. f_equal. apply map_ext.
  intros cells. by apply rowChunks_types.
Qed.

Lemma placeholdersRows_types off columns columns' rows rows' :
  map col_type columns = map col_type columns' ->
  map row_cells rows = map row_cells rows' ->
  placeholdersRows String_of_number off columns rows
  = placeholdersRows String_of_number off columns' rows'.
Proof.
  intros Hc. revert off rows'. induction rows as [|row rows IH]; intros off [|row' rows'] H;
    try discriminate; [done|].
  injection H as Hrow Hrows. cbn [placeholdersRows]. rewrite Hrow.
  rewrite (placeholdersRow_types _ _ _ _ _ Hc), (rowWidth_types _ _ Hc).
  f_equal. by apply IH.
Qed.

Lemma same_types_structureInfo s s' :
  sheet_name s = sheet_name s' ->
  map col_type (sheet_columns s) = map col_type (sheet_columns s') ->
  map row_cells (sheet_rows s) = map row_cells (sheet_rows s') ->
  structureInfo s = structureInfo s'.
Proof.
  intros Hn Hc Hr. unfold structureInfo.
  rewrite !calculatedExpaAreaSizePerRow_rowWidth, Hn, Hc, (rowWidth_types _ _ Hc).
  apply (f_equal length) in Hr. rewrite !length_map in Hr. by rewrite Hr.
Qed.

Lemma generate_same_types_and_cells (mbeFile mbeFile' : MbeFile) :
  same_types_and_cells mbeFile mbeFile' ->
  generate mbeFile = generate mbeFile' /\
  run_chnkRawStrings (generate_run mbeFile) = run_chnkRawStrings (generate_run mbeFile').
Proof.
  intros H.
  assert (length (sheets mbeFile) = length (sheets mbeFile') /\
          map structureInfo (sheets mbeFile) = map structureInfo (sheets mbeFile') /\
          sheetsChunks Number_of_string (sheets mbeFile)
            = sheetsChunks Number_of_string (sheets mbeFile') /\
          expaSize (sheets mbeFile) = expaSize (sheets mbeFile') /\
          forall off, placeholdersSheets String_of_number off (sheets mbeFile)
                      = placeholdersSheets String_of_number off (sheets mbeFile'))
    as (H1 & H2 & H3 & H4 & H5).
  { unfold same_types_and_cells in H. revert H.
    generalize (sheets mbeFile) (sheets mbeFile'). intros l l' H.
    induction H as [|s s' l l' (Hn & Hc & Hr) H (IH1 & IH2 & IH3 & IH4 & IH5)]; [done|].
    assert (length (sheet_rows s) = length (sheet_rows s')) as Hlen.
    { apply (f_equal length) in Hr. by rewrite !length_map in Hr. }
    repeat split.
    - simpl. by rewrite IH1.
    - cbn [map]. by rewrite IH2, (same_types_structureInfo s s').
    - unfold sheetsChunks in *. cbn [map concat]. rewrite IH3.
      by rewrite (rowsChunks_types _ _ _ _ Hc Hr).
    - cbn [expaSize]. by rewrite IH4, (rowWidth_types _ _ Hc), Hlen.
    - intros off. cbn [placeholdersSheets].
      rewrite IH5, (rowWidth_types _ _ Hc), Hlen.
      f_equal. by apply placeholdersRows_types. }
  assert (headerEnd mbeFile = headerEnd mbeFile') as HH.
  { unfold headerEnd. by rewrite H2. }
  assert (run_chnkRawStrings (generate_run mbeFile)
          = run_chnkRawStrings (generate_run mbeFile')) as Hc.
  { by rewrite !run_chnkRawStrings_spec, HH, H5. }
  split; [|done].
  rewrite !generate_blocks.
  unfold headerBlock, expaBlockOf, chnkBlockOf, preambleChunks, expaEnd.
  by rewrite H1, H2, H3, H4, HH, Hc.
Qed.

(** X8: the generator never reads the label [typeName] of a column.  Two
    files with the same sheet names, the same column types and the same
    cells produce the same buffer and collect the same pool entries,
    whatever the labels of their columns. *)
Theorem output_ignores_column_labels (mbeFile mbeFile' : MbeFile) :
  same_types_and_cells mbeFile mbeFile' ->
  generate mbeFile = generate mbeFile' /\
  run_chnkRawStrings (generate_run mbeFile) = run_chnkRawStrings (generate_run mbeFile').
Proof. apply generate_same_types_and_cells. Qed.

(** ** Saving again what was loaded *)

Lemma parse_generated (mbeFile : MbeFile) :
  model_invariants mbeFile ->
  file_roundtrips mbeFile ->
  byteLength (generate mbeFile) < 2 ^ 32 ->
  exists mbeFile',
    returns (parse (generate mbeFile)) mbeFile' /\
    Forall2 (fun s' s => sheet_equiv s' s /\
                         map col_type (sheet_columns s') = map col_type (sheet_columns s))
      (sheets mbeFile') (sheets mbeFile).
Proof.
  intros Hinv Hrt Hsmall.
  destruct (readChnk_generated Number_of_string String_of_number mbeFile Hinv Hrt Hsmall)
    as (M & HM & Htexts).
  destruct (generated_has_blocks Number_of_string String_of_number mbeFile)
    as (_ & Hexpa & _ & Hlen).
  pose proof (headerEnd_ge mbeFile) as HH.
  pose proof (expaSize_nonneg (sheets mbeFile)) as He.
  pose proof (byteLength_nonneg (chnkBlockOf Number_of_string String_of_number mbeFile))
    as Hc.
  assert (Forall sheet_fits (sheets mbeFile)) as Hfit.
  { apply expaSize_fits. unfold expaEnd in Hlen. lia. }
  exists {| sheets := parsedSheets String_of_number Date_now (generate mbeFile) M
                        (startedHeaders (headerEnd mbeFile) (sheets mbeFile)) 0 |}.
  split.
  - rewrite parse_headerPass, headerPass_generated, bind_ret_l by done.
    unfold parseRest. rewrite assignStartOffsets_generated by done.
    fold (expaEnd mbeFile).
    eapply returns_bind; [exact HM|].
    eapply returns_bind.
    + apply readSheets_returns, startedHeaders_started. lia.
    + apply returns_ret.
  - cbn [sheets].
    apply (parsedSheets_generated Number_of_string String_of_number Date_now
             (generate mbeFile) M (sheets mbeFile) (headerEnd mbeFile) 0 Hinv Hrt Hfit Hexpa).
    intros O s Hin. by eapply lookupText_generated.
Qed.

(** X9: saving again what was loaded changes nothing.  For a file that
    survives the round trip (model invariants, names and strings
    encodable and free of NUL, INT cells in the signed 32-bit range,
    output smaller than 4 GiB), the file that [parseMbeFile] returns for
    the generated buffer generates that same buffer again, byte for
    byte. *)
Theorem resave_is_stable (mbeFile : MbeFile) :
  model_invariants mbeFile ->
  file_roundtrips mbeFile ->
  byteLength (generate mbeFile) < 2 ^ 32 ->
  exists mbeFile',
    returns (parse (generate mbeFile)) mbeFile' /\
    generate mbeFile' = generate mbeFile.
Proof.
  intros Hinv Hrt Hsmall.
  destruct (parse_generated mbeFile Hinv Hrt Hsmall) as (mbeFile' & Hret & Hsame).
  exists mbeFile'. split; [done|].
  apply generate_same_types_and_cells. unfold same_types_and_cells.
  eapply Forall2_impl; [exact Hsame|].
  intros s' s [(Hname & _ & Hrows) Htypes]. repeat split; [done|done|].
  clear -Hrows. induction Hrows as [|r' r rows' rows Hr Hrows IH]; [done|].
  cbn [map]. unfold row_equiv in Hr. by rewrite Hr, IH.
Qed.

End CodecExtras.

(** ** The file the parser returns *)

Lemma parsedCells_agrees view M columns base off :
  Forall2 cell_agrees columns (parsedCells view M columns base off).
Proof.
  revert off. induction columns as [|col columns IH]; intros off; [constructor|].
  cbn [parsedCells]. constructor; [|apply IH].
  unfold cell_agrees, parsedCell. by destruct (col_type col).
Qed.

Lemma columnOfType_labelled typeVal sheetName j column :
  returns (columnOfType typeVal sheetName j) column -> column_labelled column.
Proof.
  unfold columnOfType, returns.
  destruct (typeVal =? 2); [by intros [= <-]|].
  destruct (typeVal =? 7); [by intros [= <-]|].
  destruct (typeVal =? 8); [by intros [= <-]|]. discriminate.
Qed.

Lemma readColumns_labelled n view sheetName j offset columns columns' offset' :
  Forall column_labelled columns ->
  returns (readColumns n view sheetName j offset columns) (columns', offset') ->
  Forall column_labelled columns'.
Proof.
  revert j offset columns. induction n as [|n IH]; intros j offset columns Hacc H.
  - unfold returns in H. simpl in H. by injection H as <- _.
  - cbn [readColumns] in H.
    apply returns_bind_inv in H as (typeVal & _ & H).
    apply returns_bind_inv in H as (column & Hcol & H).
    apply IH in H; [done|]. apply Forall_app. split; [done|].
    constructor; [|constructor]. by eapply columnOfType_labelled.
Qed.

Lemma readSheetHeader_shape view offset h offset' :
  buffer_ok view ->
  returns (readSheetHeader view offset) (h, offset') -> header_shape h.
Proof.
  intros Hok H. unfold readSheetHeader in H.
  apply returns_bind_inv in H as (sheetNameLength & _ & H).
  apply returns_bind_inv in H as (sheetName & _ & H).
  apply returns_bind_inv in H as (columnCount & _ & H).
  apply returns_bind_inv in H as ([columns o] & Hcols & H).
  apply readColumns_labelled in Hcols; [|constructor].
  apply returns_bind_inv in H as (size & Hsize & H).
  apply getUint32_returns_inv in Hsize as (-> & _ & _).
  apply returns_bind_inv in H as (rows & Hrows & H).
  apply getUint32_returns_inv in Hrows as (-> & _ & _).
  unfold returns in H. simpl in H. injection H as <- _.
  pose proof (le32_value_range view o Hok).
  pose proof (le32_value_range view (o + 4) Hok).
  unfold header_shape. simpl. done.
Qed.

Lemma readSheetHeaders_shape n view offset acc hs offset' :
  buffer_ok view -> Forall header_shape acc ->
  returns (readSheetHeaders n view offset acc) (hs, offset') ->
  Forall header_shape hs /\ length hs = (length acc + n)%nat.
Proof.
  intros Hok. revert offset acc. induction n as [|n IH]; intros offset acc Hacc H.
  - unfold returns in H. simpl in H. injection H as <- _. split; [done|lia].
  - cbn [readSheetHeaders] in H.
    apply returns_bind_inv in H as ([h o] & Hh & H).
    apply readSheetHeader_shape in Hh; [|done].
    apply IH in H as [Hhs Hlen].
    + split; [done|]. rewrite Hlen, length_app. simpl. lia.
    + apply Forall_app. split; [done|]. by constructor.
Qed.

Lemma assignStartOffsets_shape hs offset :
  Forall header_shape hs -> Forall header_shape (fst (assignStartOffsets hs offset)).
Proof.
  intros H. revert offset. induction H as [|h hs Hh H IH]; intros offset; [constructor|].
  cbn [assignStartOffsets].
  specialize (IH (offset + h_expaAreaSizePerRow h * h_expaRowCount h)).
  destruct (assignStartOffsets hs _) as [rest final]. simpl in *.
  constructor; [|done]. exact Hh.
Qed.

Lemma length_assignStartOffsets hs offset :
  length (fst (assignStartOffsets hs offset)) = length hs.
Proof.
  revert offset. induction hs as [|h hs IH]; intros offset; [done|].
  cbn [assignStartOffsets].
  specialize (IH (offset + h_expaAreaSizePerRow h * h_expaRowCount h)).
  destruct (assignStartOffsets hs _) as [rest final]. simpl in *. by rewrite IH.
Qed.

Section ParsedShape.

Variable String_of_number : Z -> jsstring.
Variable Date_now : Z -> Z -> Z.

Local Abbreviation parse := (parseMbeFile String_of_number Date_now).

Lemma parsedRows_ok n view M i h start r :
  Forall (row_ok (h_columns h))
    (parsedRows String_of_number Date_now n view M i h start r) /\
  length (parsedRows String_of_number Date_now n view M i h start r) = n.
Proof.
  revert r. induction n as [|n IH]; intros r; [by split; [constructor|]|].
  cbn [parsedRows]. destruct (IH (r + 1)) as [IH1 IH2]. split.
  - constructor; [|done]. unfold row_ok. cbn [row_cells]. apply parsedCells_agrees.
  - cbn [length]. by rewrite IH2.
Qed.

Lemma parsedSheets_shape view M hs i :
  Forall header_shape hs ->
  Forall (fun sheet => sheet_ok sheet /\ sheet_shape sheet)
    (parsedSheets String_of_number Date_now view M hs i) /\
  length (parsedSheets String_of_number Date_now view M hs i) = length hs.
Proof.
  intros H. revert i. induction H as [|h hs (Hcols & Hsize & Hrows) H IH]; intros i;
    [by split; [constructor|]|].
  cbn [parsedSheets]. destruct (IH (i + 1)) as [IH1 IH2].
  split; [|cbn [length]; by rewrite IH2].
  constructor; [|done]. unfold parsedSheet, sheet_ok, sheet_shape.
  cbn [sheet_columns sheet_rows parsedExpaAreaSizePerRow].
  destruct (parsedRows_ok (Z.to_nat (h_expaRowCount h)) view M i h
              (default 0 (h_sheetExpaDataStartOffset h)) 0) as [Hok Hlen].
  split; [done|]. split; [done|]. split; [done|]. rewrite Hlen. lia.
Qed.

Lemma parse_returns_inv view mbeFile :
  buffer_ok view -> returns (parse view) mbeFile ->
  exists hs offset M,
    returns (headerPass view) (hs, offset) /\
    returns (readChnk view (chnkSearchStart hs offset)) M /\
    mbeFile = {| sheets := parsedSheets String_of_number Date_now view M
                             (fst (assignStartOffsets hs offset)) 0 |}.
Proof.
  intros Hok H. rewrite parse_headerPass in H.
  apply returns_bind_inv in H as ([hs offset] & Hpass & H).
  pose proof (headerPass_returns_inv _ _ _ Hok Hpass) as [Hhs H8].
  exists hs, offset.
  assert (exists M, returns (readChnk view (chnkSearchStart hs offset)) M) as [M HM].
  { unfold parseRest, chnkSearchStart in *.
    destruct (assignStartOffsets hs offset) as [hs' P]. simpl.
    apply returns_bind_inv in H as (M & HM & _). by exists M. }
  exists M. split; [done|]. split; [done|].
  eapply returns_inj; [exact H|].
  apply rest_returns; [done|done|lia|done].
Qed.

(** X10: the file [parseMbeFile] returns is always well formed.  Whatever
    the buffer, a file that is returned satisfies the model invariants
    (every row has one cell per column, a number under an INT column and
    a string under a STR or STRID column); it has as many sheets as the
    sheet count of the buffer says; every column carries the label of its
    type; and [parsedExpaAreaSizePerRow] and the number of rows of every
    sheet are unsigned 32-bit values. *)
Theorem parsed_file_is_well_formed (view : list Z) (mbeFile : MbeFile) :
  buffer_ok view ->
  returns (parse view) mbeFile ->
  model_invariants mbeFile /\
  Z.of_nat (length (sheets mbeFile)) = le32_value view 4 /\
  Forall sheet_shape (sheets mbeFile).
Proof.
  intros Hok H.
  apply parse_returns_inv in H as (hs & offset & M & Hpass & _ & ->); [|done].
  unfold headerPass in Hpass.
  apply returns_bind_inv in Hpass as (u & _ & Hpass).
  apply returns_bind_inv in Hpass as (sheetCount & Hcount & Hpass).
  apply getUint32_returns_inv in Hcount as (-> & _ & _).
  apply readSheetHeaders_shape in Hpass as [Hshape Hlen]; [|done|constructor].
  pose proof (le32_value_range view (0 + byteLength EXPA_MAGIC_BYTES) Hok) as Hrange.
  change (0 + byteLength EXPA_MAGIC_BYTES) with 4 in *.
  destruct (parsedSheets_shape view M (fst (assignStartOffsets hs offset)) 0)
    as [Hsheets Hn]; [by apply assignStartOffsets_shape|].
  unfold model_invariants. cbn [sheets]. split; [|split].
  - eapply Forall_impl; [exact Hsheets|]. by intros s [? _].
  - rewrite Hn, length_assignStartOffsets, Hlen. simpl. lia.
  - eapply Forall_impl; [exact Hsheets|]. by intros s [_ ?].
Qed.

End ParsedShape.

(** * What is read back from a generated file, in general *)

Lemma untilNul_padded (enc : list Z) (N : nat) :
  (0 < N)%nat -> untilNul (enc ++ replicate N 0) = untilNul enc.
Proof.
  intros HN. induction enc as [|b enc IH].
  - destruct N; [lia|]. reflexivity.
  - cbn [app untilNul]. destruct (b =? 0); [done|]. by rewrite IH.
Qed.

Lemma readString_padded_any (view : list Z) (o : Z) (enc : list Z) (N : nat) :
  has_at view o (enc ++ replicate N 0) -> (0 < N)%nat ->
  readString view o (byteLength enc + Z.of_nat N)
  = ret (TextDecoder_decode (untilNul enc)).
Proof.
  intros H HN. pose proof (has_at_bounds _ _ _ H) as [H0 Hlen].
  pose proof (has_at_slice _ _ _ H) as Hslice.
  rewrite byteLength_app, byteLength_replicate in *.
  pose proof (byteLength_nonneg enc) as Hpos.
  unfold readString.
  destruct (Z.eqb_spec (byteLength enc + Z.of_nat N) 0); [lia|].
  replace (o <? 0) with false by (symmetry; apply Z.ltb_ge; lia).
  replace (byteLength view <? o + (byteLength enc + Z.of_nat N)) with false
    by (symmetry; apply Z.ltb_ge; lia).
  cbn [orb].
  rewrite Z.min_l by lia.
  destruct (Z.leb_spec (byteLength enc + Z.of_nat N) 0); [lia|].
  by rewrite Hslice, untilNul_actualLength, untilNul_padded.
Qed.

Lemma readSheetHeader_generated_any (view : list Z) (off : Z) (sheet : MbeSheet) :
  has_at view off
    (bytesOf (sheetHeaderChunks (realNameData (structureInfo sheet)) off
                (structureInfo sheet))) ->
  byteLength view < 2 ^ 32 ->
  Z.of_nat (length (sheet_rows sheet)) < 2 ^ 32 ->
  readSheetHeader view off
  = ret (headerOf None (renamed sheet), off + sheetHeaderSize off (structureInfo sheet)).
Proof.
  intros H Hsmall Hrows.
  unfold sheetHeaderChunks, sheetHeaderSize in *.
  cbn [structureInfo encodedNameBytes columnTypes expaAreaSizePerRow rowCount
       realNameData] in *.
  set (enc := TextEncoder_encode (sheet_name sheet)) in *.
  set (L := byteLength enc) in *.
  set (final := lengthWithPadding (off + 4) L) in *.
  set (types := map col_type (sheet_columns sheet)) in *.
  pose proof (lengthWithPadding_bounds (off + 4) L) as Hfinal. fold final in Hfinal.
  pose proof (byteLength_nonneg enc) as HL. fold L in HL.
  pose proof (has_at_bounds _ _ _ H) as [H0 _].
  rewrite !bytesOf_app, !bytesOf_cons, bytesOf_nil in H.
  cbn [chunk_bytes mkChunk] in H. rewrite app_nil_r, <- !app_assoc in H.
  unfold realNameData in H. cbn [structureInfo encodedNameBytes] in H. fold enc in H.
  apply has_at_split in H as [H1 H]. rewrite byteLength_le32 in H.
  apply has_at_split in H as [H2 H].
  rewrite byteLength_paddedBytes in H by (fold L; lia).
  apply has_at_split in H as [H3 H]. rewrite byteLength_le32 in H.
  apply has_at_split in H as [H4 H].
  rewrite byteLength_bytesOf, chunksLength_types in H.
  apply has_at_split in H as [H5 H6]. rewrite byteLength_le32 in H6.
  pose proof (has_at_bounds _ _ _ H2) as [_ Hb2].
  rewrite byteLength_paddedBytes in Hb2 by (fold L; lia).
  pose proof (has_at_bounds _ _ _ H4) as [_ Hb4].
  rewrite byteLength_bytesOf, chunksLength_types in Hb4.
  unfold readSheetHeader.
  rewrite (getUint32_has_at _ _ _ H1), bind_ret_l by lia.
  unfold paddedBytes in H2. fold L in H2.
  replace final with (L + Z.of_nat (Z.to_nat (final - L))) at 1 2 by lia.
  unfold L at 1. rewrite (readString_padded_any _ _ _ _ H2), bind_ret_l by lia.
  replace (L + Z.of_nat (Z.to_nat (final - L))) with final by lia.
  rewrite (getUint32_has_at _ _ _ H3), bind_ret_l by lia.
  rewrite Nat2Z.id, (readColumns_generated _ _ _ _ _ _ H4), bind_ret_l.
  rewrite (getUint32_has_at_mod _ _ _ H5), bind_ret_l.
  rewrite (getUint32_has_at _ _ _ H6), bind_ret_l by lia.
  unfold headerOf, renamed, readBack.
  cbn [sheet_name sheet_columns sheet_rows]. fold enc.
  rewrite calculatedExpaAreaSizePerRow_rowWidth. subst types.
  rewrite map_map. cbn [app]. do 2 f_equal. lia.
Qed.

Lemma readSheetHeaders_generated_any (view : list Z) (sheets : list MbeSheet)
    (off : Z) (acc : list SheetHeader) :
  has_at view off (bytesOf (headersChunks off (map structureInfo sheets))) ->
  byteLength view < 2 ^ 32 ->
  Forall (fun sheet => Z.of_nat (length (sheet_rows sheet)) < 2 ^ 32) sheets ->
  readSheetHeaders (length sheets) view off acc
  = ret (acc ++ map (headerOf None) (map renamed sheets),
         headersEnd off (map structureInfo sheets)).
Proof.
  intros H Hsmall Hrt. revert off acc H.
  induction Hrt as [|sheet sheets Hrows Hrt IH]; intros off acc H.
  - simpl. by rewrite app_nil_r.
  - cbn [map headersChunks headersEnd length readSheetHeaders] in *.
    rewrite bytesOf_app in H. apply has_at_split in H as [Hh Hrest].
    rewrite byteLength_bytesOf, chunksLength_sheetHeaderChunks in Hrest
      by apply byteLength_realNameData.
    rewrite (readSheetHeader_generated_any _ _ _ Hh), bind_ret_l by done.
    rewrite IH by done. rewrite <- app_assoc. done.
Qed.

Lemma expaSize_renamed (sheets : list MbeSheet) :
  expaSize (map renamed sheets) = expaSize sheets.
Proof. induction sheets as [|s sheets IH]; [done|]. cbn. by rewrite IH. Qed.

Lemma sheet_fits_renamed (sheets : list MbeSheet) :
  Forall sheet_fits sheets -> Forall sheet_fits (map renamed sheets).
Proof. induction 1; constructor; done. Qed.

Lemma readChnkEntries_generated_any (view : list Z) (num : Z)
    (entries : list ChnkRawString) (i o : Z) (m : gmap Z ChnkEntry) :
  has_at view o (bytesOf (entriesChunks o entries)) ->
  byteLength view < 2 ^ 32 ->
  Forall (fun e => 0 <= targetExpaAbsoluteFileOffset e < 2 ^ 32) entries ->
  exists M, readChnkEntries (length entries) view num i o m = ret M /\
            chnk_text <$> M = fold_left insertReadText entries (chnk_text <$> m).
Proof.
  intros H Hsmall Hok. revert i o m H.
  induction Hok as [|e entries Htarget Hok IH]; intros i o m H.
  - exists m. split; [done|done].
  - cbn [entriesChunks length fold_left] in *.
    rewrite bytesOf_app in H. apply has_at_split in H as [He Hrest].
    rewrite byteLength_bytesOf, chunksLength_entryChunks in Hrest.
    rewrite bytesOf_entryChunks in He. unfold entrySize in Hrest.
    set (L := byteLength (encodedBytes e)) in *.
    set (final := lengthWithPadding (o + 8) L) in *.
    pose proof (lengthWithPadding_bounds (o + 8) L) as Hfinal. fold final in Hfinal.
    pose proof (byteLength_nonneg (encodedBytes e)) as HL. fold L in HL.
    apply has_at_split in He as [H1 He]. rewrite byteLength_le32 in He.
    apply has_at_split in He as [H2 H3]. rewrite byteLength_le32 in H3.
    pose proof (has_at_bounds _ _ _ H1) as [H0 _].
    pose proof (has_at_bounds _ _ _ H3) as [_ Hb3].
    rewrite byteLength_paddedBytes in Hb3 by (fold L; lia).
    destruct (IH (i + 1) (o + (8 + final))
                (<[ targetExpaAbsoluteFileOffset e :=
                      {| chnk_text := TextDecoder_decode (untilNul (encodedBytes e));
                         originalChnkLength := final |} ]> m) Hrest)
      as (M & HM & Htexts).
    exists M. split.
    + cbn [readChnkEntries].
      replace (byteLength view <? o + 8) with false by (symmetry; apply Z.ltb_ge; lia).
      rewrite (getUint32_has_at _ _ _ H1), bind_ret_l by done.
      rewrite (getUint32_has_at _ _ _ H2), bind_ret_l by lia.
      replace (byteLength view <? o + 8 + final) with false
        by (symmetry; apply Z.ltb_ge; lia).
      unfold paddedBytes in H3. fold L in H3.
      replace (o + 4 + 4) with (o + 8) in H3 by lia.
      replace final with (L + Z.of_nat (Z.to_nat (final - L))) at 1 by lia.
      unfold L at 1. rewrite (readString_padded_any _ _ _ _ H3), bind_ret_l by lia.
      exact HM.
    + rewrite Htexts. f_equal. unfold insertReadText. by rewrite fmap_insert.
Qed.

Lemma fold_insertReadText_notin (l : list ChnkRawString) (m : gmap Z jsstring) (k : Z) :
  k ∉ map targetExpaAbsoluteFileOffset l -> fold_left insertReadText l m !! k = m !! k.
Proof.
  revert m. induction l as [|e l IH]; intros m Hk; [done|].
  cbn [map fold_left] in *. apply not_elem_of_cons in Hk as [Hne Hk].
  rewrite IH by done. unfold insertReadText. by rewrite lookup_insert_ne.
Qed.

Lemma fold_insertReadText_in (l : list ChnkRawString) (m : gmap Z jsstring)
    (e : ChnkRawString) :
  NoDup (map targetExpaAbsoluteFileOffset l) -> e ∈ l ->
  fold_left insertReadText l m !! targetExpaAbsoluteFileOffset e
  = Some (TextDecoder_decode (untilNul (encodedBytes e))).
Proof.
  revert m. induction l as [|x l IH]; intros m Hnd He; [by apply elem_of_nil in He|].
  cbn [map fold_left] in *. apply NoDup_cons in Hnd as [Hx Hnd].
  apply elem_of_cons in He as [->|He].
  - rewrite fold_insertReadText_notin by done. unfold insertReadText.
    by rewrite lookup_insert_eq.
  - by apply IH.
Qed.

Section ReadBack.

Variable Number_of_string : jsstring -> Z.
Variable String_of_number : Z -> jsstring.
Variable Date_now : Z -> Z -> Z.

Local Abbreviation generate := (generateMbeFile Number_of_string String_of_number).
Local Abbreviation generate_run := (generateMbeFile_run Number_of_string String_of_number).
Local Abbreviation parse := (parseMbeFile String_of_number Date_now).
Local Abbreviation readBackRow := (rowReadBack Number_of_string String_of_number).

Lemma parsedCells_generated_any (view : list Z) (M : gmap Z ChnkEntry)
    (columns : list MbeColumn) (c : nat) (cells : list cell) (base off : Z) :
  has_at view (base + off) (bytesOf (rowChunks Number_of_string columns c cells)) ->
  (forall O s, (O, s) ∈ placeholdersRow String_of_number (base + off) columns c cells ->
               lookupText M O = readBack s) ->
  parsedCells view M (map (fun column => columnOf (col_type column)) columns) base off
  = readBackRow columns c cells.
Proof.
  revert c off. induction columns as [|col columns IH]; intros c off H HM; [done|].
  cbn [map parsedCells rowChunks placeholdersRow rowReadBack] in *.
  rewrite bytesOf_app in H. apply has_at_split in H as [Hcell Hrest].
  unfold parsedCell in *. cbn [columnOf col_type] in *.
  destruct (col_type col); cbn [cellWidth] in *.
  - rewrite bytesOf_cons, bytesOf_nil, app_nil_r in Hcell, Hrest.
    cbn [chunk_bytes mkChunk] in *. rewrite byteLength_le32 in Hrest.
    pose proof (has_at_bounds _ _ _ Hcell) as [H0 Hb]. rewrite byteLength_le32 in Hb.
    replace (byteLength view <? base + off + 4) with false
      by (symmetry; apply Z.ltb_ge; lia).
    rewrite (le32_value_has_at _ _ _ Hcell), toInt32_wrap.
    f_equal. apply IH.
    + by replace (base + (off + 4)) with (base + off + 4) by lia.
    + intros O s HO. apply HM.
      by replace (base + off + 4) with (base + (off + 4)) by lia.
  - fold (lookupText M (base + off)).
    rewrite (HM (base + off) _ (list_elem_of_here _ _)).
    f_equal. apply IH.
    + replace (base + (off + 8)) with (base + off + 8) by lia.
      rewrite !bytesOf_cons, bytesOf_nil, app_nil_r in Hrest.
      cbn [chunk_bytes mkChunk] in Hrest.
      by rewrite byteLength_app, !byteLength_le32 in Hrest.
    + intros O s' HO. apply HM. apply list_elem_of_further.
      by replace (base + off + 8) with (base + (off + 8)) by lia.
  - fold (lookupText M (base + off)).
    rewrite (HM (base + off) _ (list_elem_of_here _ _)).
    f_equal. apply IH.
    + replace (base + (off + 8)) with (base + off + 8) by lia.
      rewrite !bytesOf_cons, bytesOf_nil, app_nil_r in Hrest.
      cbn [chunk_bytes mkChunk] in Hrest.
      by rewrite byteLength_app, !byteLength_le32 in Hrest.
    + intros O s' HO. apply HM. apply list_elem_of_further.
      by replace (base + off + 8) with (base + (off + 8)) by lia.
Qed.

Lemma parsedRows_generated_any (view : list Z) (M : gmap Z ChnkEntry) (i : Z)
    (h : SheetHeader) (columns : list MbeColumn) (rows : list MbeRow) (start r : Z) :
  h_columns h = map (fun column => columnOf (col_type column)) columns ->
  (rows <> [] -> h_expaAreaSizePerRow h = rowWidth columns) ->
  has_at view (start + r * rowWidth columns)
    (bytesOf (rowsChunks Number_of_string columns rows)) ->
  (forall O s,
     (O, s) ∈ placeholdersRows String_of_number (start + r * rowWidth columns)
               columns rows ->
     lookupText M O = readBack s) ->
  map row_cells (parsedRows String_of_number Date_now (length rows) view M i h start r)
  = map (fun row => readBackRow columns 0 (row_cells row)) rows.
Proof.
  intros Hcols Hsize. revert r.
  induction rows as [|row rows IH]; intros r H HM; [done|].
  specialize (Hsize ltac:(discriminate)).
  cbn [length parsedRows placeholdersRows map] in *.
  unfold rowsChunks in H. cbn [map concat] in H.
  fold (rowsChunks Number_of_string columns rows) in H.
  rewrite bytesOf_app in H. apply has_at_split in H as [Hr Hrest].
  rewrite byteLength_bytesOf, chunksLength_rowChunks in Hrest.
  f_equal.
  - cbn [row_cells]. rewrite Hcols, Hsize.
    apply parsedCells_generated_any.
    + by replace (start + r * rowWidth columns + 0) with (start + r * rowWidth columns)
        by lia.
    + intros O s HO. apply HM. apply elem_of_app. left.
      by replace (start + r * rowWidth columns + 0) with (start + r * rowWidth columns)
        in HO by lia.
  - apply IH; [by intros _| |].
    + by replace (start + (r + 1) * rowWidth columns)
        with (start + r * rowWidth columns + rowWidth columns) by lia.
    + intros O s HO. apply HM. apply elem_of_app. right.
      by replace (start + (r + 1) * rowWidth columns)
        with (start + r * rowWidth columns + rowWidth columns) in HO by lia.
Qed.

Lemma parsedSheets_generated_any (view : list Z) (M : gmap Z ChnkEntry)
    (sheets : list MbeSheet) (off i : Z) :
  Forall sheet_fits sheets ->
  has_at view off (bytesOf (sheetsChunks Number_of_string sheets)) ->
  (forall O s, (O, s) ∈ placeholdersSheets String_of_number off sheets ->
               lookupText M O = readBack s) ->
  Forall2 (fun s' s =>
             sheet_name s' = readBack (sheet_name s) /\
             sheet_columns s'
               = map (fun column => columnOf (col_type column)) (sheet_columns s) /\
             map row_cells (sheet_rows s')
               = map (fun row => readBackRow (sheet_columns s) 0 (row_cells row))
                   (sheet_rows s))
    (parsedSheets String_of_number Date_now view M
       (startedHeaders off (map renamed sheets)) i)
    sheets.
Proof.
  intros Hfit. revert off i.
  induction Hfit as [|sheet sheets Hsfit Hfit IH]; intros off i H HM; [constructor|].
  cbn [map startedHeaders parsedSheets placeholdersSheets] in *.
  unfold sheetsChunks in H. cbn [map concat] in H.
  fold (sheetsChunks Number_of_string sheets) in H.
  rewrite bytesOf_app in H. apply has_at_split in H as [Hs Hrest].
  rewrite byteLength_bytesOf, chunksLength_rowsChunks in Hrest.
  constructor.
  - unfold parsedSheet, renamed at 1 2 3 4.
    cbn [headerOf h_name h_columns h_expaAreaSizePerRow
      h_expaRowCount h_sheetExpaDataStartOffset default sheet_name sheet_columns
      sheet_rows]. unfold id.
    split; [done|]. split; [done|]. rewrite Nat2Z.id.
    apply (parsedRows_generated_any view M i _ (sheet_columns sheet)).
    + done.
    + cbn [h_expaAreaSizePerRow]. intros Hne.
      destruct Hsfit as [Hnil|Hlt]; [done|].
      pose proof (rowWidth_nonneg (sheet_columns sheet)).
      unfold headerOf. cbn [h_expaAreaSizePerRow sheet_columns renamed].
      by rewrite Z.mod_small by lia.
    + by replace (off + 0 * rowWidth (sheet_columns sheet)) with off by lia.
    + intros O s HO. apply HM. apply elem_of_app. left.
      by replace (off + 0 * rowWidth (sheet_columns sheet)) with off in HO by lia.
  - apply IH; [done|].
    intros O s HO. apply HM. apply elem_of_app. by right.
Qed.

Lemma headerPass_generated_any mbeFile :
  Forall (fun sheet => Z.of_nat (length (sheet_rows sheet)) < 2 ^ 32) (sheets mbeFile) ->
  byteLength (generate mbeFile) < 2 ^ 32 ->
  headerPass (generate mbeFile)
  = ret (map (headerOf None) (map renamed (sheets mbeFile)), headerEnd mbeFile).
Proof.
  intros Hrt Hsmall.
  destruct (generated_has_blocks Number_of_string String_of_number mbeFile)
    as (Hh & _ & _ & _).
  pose proof (has_at_bounds _ _ _ Hh) as [_ Hlen].
  rewrite byteLength_headerBlock in Hlen.
  pose proof (headersEnd_count 8 (map structureInfo (sheets mbeFile))) as Hcount.
  fold (headerEnd mbeFile) in Hcount. rewrite length_map in Hcount.
  unfold headerBlock, preambleChunks in Hh.
  rewrite bytesOf_app, !bytesOf_cons, bytesOf_nil in Hh.
  cbn [chunk_bytes mkChunk] in Hh. rewrite app_nil_r, <- app_assoc in Hh.
  apply has_at_split in Hh as [Hmagic Hh].
  apply has_at_split in Hh as [Hn Hheaders]. rewrite byteLength_le32 in Hheaders.
  unfold headerPass.
  rewrite (verifyMagic_has_at _ _ _ Hmagic), bind_ret_l.
  rewrite (getUint32_has_at _ _ _ Hn), bind_ret_l by lia.
  rewrite Nat2Z.id.
  change (0 + byteLength EXPA_MAGIC_BYTES + 4) with 8 in *.
  by rewrite (readSheetHeaders_generated_any _ _ _ _ Hheaders) by done.
Qed.

Lemma readChnk_generated_any mbeFile :
  byteLength (generate mbeFile) < 2 ^ 32 ->
  exists M,
    readChnk (generate mbeFile) (expaEnd mbeFile)
    = (if decide (run_chnkRawStrings (generate_run mbeFile) = [])
       then [ChnkMagicNotFound (expaEnd mbeFile)] else [],
       Returned M) /\
    chnk_text <$> M
    = fold_left insertReadText (run_chnkRawStrings (generate_run mbeFile)) ∅.
Proof.
  intros Hsmall.
  assert (Forall (fun e => 0 <= targetExpaAbsoluteFileOffset e < 2 ^ 32)
            (run_chnkRawStrings (generate_run mbeFile))) as Hok.
  { apply Forall_forall. intros e He.
    pose proof (collected_target_bounds _ _ mbeFile e He) as [Hlo Hhi].
    pose proof (headerEnd_ge mbeFile) as HH.
    pose proof (expaEnd_le_length Number_of_string String_of_number mbeFile) as HP.
    lia. }
  destruct (generated_has_blocks Number_of_string String_of_number mbeFile)
    as (_ & _ & Hc & Hlen).
  pose proof (headerEnd_ge mbeFile) as HH.
  pose proof (expaSize_nonneg (sheets mbeFile)) as He.
  assert (8 <= expaEnd mbeFile) as HP by (unfold expaEnd; lia).
  unfold chnkBlockOf, chnkChunks in Hc, Hlen.
  rewrite sortByOffset_collected in Hc, Hlen.
  unfold readChnk.
  destruct (run_chnkRawStrings (generate_run mbeFile)) as [|e l] eqn:E.
  - rewrite bytesOf_nil, byteLength_nil in Hlen.
    rewrite findMagic_at_end, bind_ret_l
      by (change (byteLength CHNK_MAGIC_BYTES) with 4; lia).
    cbn [Z.eqb]. rewrite bind_warn. exists ∅. split; [done|].
    by rewrite fmap_empty.
  - rewrite decide_False by done.
    rewrite bytesOf_app, !bytesOf_cons, bytesOf_nil in Hc, Hlen.
    cbn [chunk_bytes mkChunk] in Hc, Hlen. rewrite app_nil_r, <- app_assoc in Hc, Hlen.
    rewrite !byteLength_app, byteLength_le32, byteLength_bytesOf in Hlen.
    change (byteLength CHNK_MAGIC_BYTES) with 4 in *.
    pose proof (entriesChunks_count (expaEnd mbeFile + 8) (e :: l)) as Hcount.
    apply has_at_split in Hc as [Hmagic Hc].
    apply has_at_split in Hc as [Hn Hentries]. rewrite byteLength_le32 in Hentries.
    change (byteLength CHNK_MAGIC_BYTES) with 4 in *.
    rewrite (findMagic_here _ _ _ Hmagic), bind_ret_l.
    destruct (Z.eqb_spec (expaEnd mbeFile) (-1)); [lia|].
    rewrite (getUint32_has_at _ _ _ Hn), bind_ret_l by lia.
    rewrite Nat2Z.id.
    replace (expaEnd mbeFile + 4 + 4) with (expaEnd mbeFile + 8) in * by lia.
    destruct (readChnkEntries_generated_any (generate mbeFile)
                (Z.of_nat (length (e :: l))) (e :: l) 0 (expaEnd mbeFile + 8) ∅
                Hentries Hsmall Hok) as (M & HM & Htexts).
    exists M. split; [done|]. by rewrite Htexts, fmap_empty.
Qed.

Lemma lookupText_generated_any mbeFile (M : gmap Z ChnkEntry) O s :
  chnk_text <$> M
  = fold_left insertReadText (run_chnkRawStrings (generate_run mbeFile)) ∅ ->
  (O, s) ∈ placeholdersSheets String_of_number (headerEnd mbeFile) (sheets mbeFile) ->
  lookupText M O = readBack s.
Proof.
  intros HM Hin. rewrite lookupText_fmap, HM.
  pose proof (collected_NoDup Number_of_string String_of_number mbeFile) as Hnd.
  destruct (decide (s = [])) as [->|Hne].
  - rewrite fold_insertReadText_notin; [by rewrite lookup_empty|].
    intros (e & HO & He)%list_elem_of_fmap.
    apply elem_of_collected in He as (O' & s' & Hin' & Hne' & ->).
    cbn [rawOfPlaceholder targetExpaAbsoluteFileOffset fst] in HO. subst O'.
    pose proof (placeholdersSheets_spaced String_of_number (headerEnd mbeFile)
                  (sheets mbeFile)) as Hsp.
    pose proof (spaced_fst_inj _ _ _ _ _ Hsp Hin Hin' eq_refl) as Heq.
    by injection Heq as <-.
  - assert (rawOfPlaceholder (O, s) ∈ run_chnkRawStrings (generate_run mbeFile)) as He.
    { apply elem_of_collected. by exists O, s. }
    pose proof (fold_insertReadText_in _ ∅ _ Hnd He) as Hl.
    cbn [rawOfPlaceholder targetExpaAbsoluteFileOffset encodedBytes fst snd] in Hl.
    by rewrite Hl.
Qed.

Lemma rowReadBack_agrees (columns : list MbeColumn) (cells : list cell) (c : nat)
    (before : list cell) :
  length before = c -> Forall2 cell_agrees columns cells ->
  readBackRow columns c (before ++ cells) = map cellReadBack cells.
Proof.
  intros Hc Hag. revert c before Hc.
  induction Hag as [|col x columns cells Hx Hag IH]; intros c before Hc; [done|].
  cbn [rowReadBack map]. rewrite lookup_app_r by lia.
  replace (c - length before)%nat with 0%nat by lia. cbn [lookup list_lookup].
  f_equal.
  - unfold cell_agrees in Hx.
    by destruct (col_type col), x; try (exfalso; exact Hx).
  - replace (before ++ x :: cells) with ((before ++ [x]) ++ cells)
      by (by rewrite <- app_assoc).
    apply IH. rewrite length_app. simpl. lia.
Qed.

Lemma text_roundtrips_readBack (s : jsstring) : text_roundtrips s -> readBack s = s.
Proof.
  intros [Henc Hnul]. unfold readBack.
  assert (untilNul (TextEncoder_encode s) = TextEncoder_encode s) as ->; [|done].
  clear Henc. induction (TextEncoder_encode s) as [|b l IH]; [done|].
  apply not_elem_of_cons in Hnul as [Hb Hnul]. cbn [untilNul].
  destruct (Z.eqb_spec b 0); [congruence|]. by rewrite IH.
Qed.

(** X18: what is read back from a generated file, whatever the file
    holds.  When every sheet has fewer than 2^32 rows and the generated
    buffer is smaller than 4 GiB, [parseMbeFile] returns for it a file
    with the same number of sheets, in which each sheet has the columns
    of the same types, its name encoded, cut at the first NUL and
    decoded, and for each row one cell per column: under an INT column
    the number the cell gives wrapped into [-2^31, 2^31), under a STR or
    STRID column the string the cell gives, cut and decoded like the
    name.  On a row that agrees with its columns these are the cells of
    the row, each read back in that way; a cell in the signed 32-bit
    range, or encodable and free of NUL, is read back unchanged. *)
Theorem what_is_read_back (mbeFile : MbeFile) :
  Forall (fun sheet => Z.of_nat (length (sheet_rows sheet)) < 2 ^ 32) (sheets mbeFile) ->
  byteLength (generate mbeFile) < 2 ^ 32 ->
  (exists mbeFile',
     returns (parse (generate mbeFile)) mbeFile' /\
     Forall2 (fun s' s =>
                sheet_name s' = readBack (sheet_name s) /\
                map col_type (sheet_columns s') = map col_type (sheet_columns s) /\
                map row_cells (sheet_rows s')
                  = map (fun row => readBackRow (sheet_columns s) 0 (row_cells row))
                      (sheet_rows s))
       (sheets mbeFile') (sheets mbeFile)) /\
  (forall columns cells,
     Forall2 cell_agrees columns cells ->
     readBackRow columns 0 cells = map cellReadBack cells) /\
  (forall c, cell_roundtrips c -> cellReadBack c = c).
Proof.
  intros Hrows Hsmall. split; [|split].
  - destruct (readChnk_generated_any mbeFile Hsmall) as (M & HMeq & Htexts).
    assert (returns (readChnk (generate mbeFile) (expaEnd mbeFile)) M) as HM
      by (unfold returns; by rewrite HMeq).
    destruct (generated_has_blocks Number_of_string String_of_number mbeFile)
      as (_ & Hexpa & _ & Hlen).
    pose proof (headerEnd_ge mbeFile) as HH.
    pose proof (expaSize_nonneg (sheets mbeFile)) as He.
    pose proof (byteLength_nonneg
                  (chnkBlockOf Number_of_string String_of_number mbeFile)) as Hc.
    assert (Forall sheet_fits (sheets mbeFile)) as Hfit.
    { apply expaSize_fits. unfold expaEnd in Hlen. lia. }
    exists {| sheets := parsedSheets String_of_number Date_now (generate mbeFile) M
                          (startedHeaders (headerEnd mbeFile)
                             (map renamed (sheets mbeFile))) 0 |}.
    split.
    + rewrite parse_headerPass, headerPass_generated_any, bind_ret_l by done.
      unfold parseRest.
      rewrite assignStartOffsets_generated by (by apply sheet_fits_renamed).
      rewrite expaSize_renamed. fold (expaEnd mbeFile).
      eapply returns_bind; [exact HM|].
      eapply returns_bind.
      * apply readSheets_returns, startedHeaders_started. lia.
      * apply returns_ret.
    + cbn [sheets].
      eapply Forall2_impl.
      * apply (parsedSheets_generated_any (generate mbeFile) M (sheets mbeFile)
                 (headerEnd mbeFile) 0 Hfit Hexpa).
        intros O s Hin. by eapply lookupText_generated_any.
      * intros s' s (Hname & Hcols & Hcells). split; [done|]. split; [|done].
        rewrite Hcols, map_map. by apply map_ext.
  - intros columns cells Hag. by apply (rowReadBack_agrees columns cells 0 []).
  - intros [n|s] Hc; cbn [cellReadBack cell_roundtrips] in *.
    + f_equal. unfold wrapInt32. rewrite <- toInt32_wrap. by apply toInt32_le32.
    + f_equal. by apply text_roundtrips_readBack.
Qed.

(** ** A generated file is read without a warning *)

Lemma readCells_generated (view : list Z) (M : gmap Z ChnkEntry) (name : jsstring)
    (r : Z) (columns : list MbeColumn) (c : nat) (cells : list cell) (cIdx base off : Z)
    (acc : list cell) :
  has_at view (base + off) (bytesOf (rowChunks Number_of_string columns c cells)) ->
  readCells view M name r (map (fun column => columnOf (col_type column)) columns)
    cIdx base off acc
  = ret (acc ++ parsedCells view M
                  (map (fun column => columnOf (col_type column)) columns) base off).
Proof.
  revert c cIdx off acc. induction columns as [|col columns IH];
    intros c cIdx off acc H.
  - simpl. by rewrite app_nil_r.
  - cbn [map readCells parsedCells rowChunks] in *.
    rewrite bytesOf_app in H. apply has_at_split in H as [Hcell Hrest].
    unfold parsedCell. cbn [columnOf col_type].
    destruct (col_type col); cbn [cellWidth].
    + rewrite bytesOf_cons, bytesOf_nil, app_nil_r in Hcell, Hrest.
      cbn [chunk_bytes mkChunk] in *. rewrite byteLength_le32 in Hrest.
      pose proof (has_at_bounds _ _ _ Hcell) as [H0 Hb]. rewrite byteLength_le32 in Hb.
      replace (byteLength view <? base + off + 4) with false
        by (symmetry; apply Z.ltb_ge; lia).
      rewrite getInt32_in, bind_ret_l by lia.
      rewrite (IH (S c))
        by (by replace (base + (off + 4)) with (base + off + 4) by lia).
      by rewrite <- app_assoc.
    + rewrite !bytesOf_cons, bytesOf_nil, app_nil_r in Hrest.
      cbn [chunk_bytes mkChunk] in Hrest.
      rewrite byteLength_app, !byteLength_le32 in Hrest.
      rewrite (IH (S c))
        by (by replace (base + (off + 8)) with (base + off + (4 + 4)) by lia).
      by rewrite <- app_assoc.
    + rewrite !bytesOf_cons, bytesOf_nil, app_nil_r in Hrest.
      cbn [chunk_bytes mkChunk] in Hrest.
      rewrite byteLength_app, !byteLength_le32 in Hrest.
      rewrite (IH (S c))
        by (by replace (base + (off + 8)) with (base + off + (4 + 4)) by lia).
      by rewrite <- app_assoc.
Qed.

Lemma readRows_generated (view : list Z) (M : gmap Z ChnkEntry) (i : Z)
    (h : SheetHeader) (columns : list MbeColumn) (rows : list MbeRow) (start r : Z)
    (acc : list MbeRow) :
  h_columns h = map (fun column => columnOf (col_type column)) columns ->
  (rows <> [] -> h_expaAreaSizePerRow h = rowWidth columns) ->
  has_at view (start + r * rowWidth columns)
    (bytesOf (rowsChunks Number_of_string columns rows)) ->
  readRows String_of_number Date_now (length rows) view M i h start r acc
  = ret (acc ++ parsedRows String_of_number Date_now (length rows) view M i h start r).
Proof.
  intros Hcols Hsize. revert r acc.
  induction rows as [|row rows IH]; intros r acc H.
  - simpl. by rewrite app_nil_r.
  - specialize (Hsize ltac:(discriminate)).
    cbn [length readRows parsedRows] in *.
    unfold rowsChunks in H. cbn [map concat] in H.
    fold (rowsChunks Number_of_string columns rows) in H.
    rewrite bytesOf_app in H. apply has_at_split in H as [Hr Hrest].
    rewrite byteLength_bytesOf, chunksLength_rowChunks in Hrest.
    assert (readCells view M (h_name h) r (h_columns h) 0
              (start + r * h_expaAreaSizePerRow h) 0 []
            = ret (parsedCells view M (h_columns h)
                     (start + r * h_expaAreaSizePerRow h) 0)) as Hcells.
    { rewrite Hcols, Hsize.
      apply (readCells_generated _ _ _ _ columns 0 (row_cells row) _ _ _ []).
      by replace (start + r * rowWidth columns + 0)
        with (start + r * rowWidth columns) by lia. }
    rewrite Hcells, bind_ret_l, IH.
    + by rewrite <- app_assoc.
    + by intros _.
    + by replace (start + (r + 1) * rowWidth columns)
        with (start + r * rowWidth columns + rowWidth columns) by lia.
Qed.

Lemma readSheets_generated (view : list Z) (M : gmap Z ChnkEntry)
    (sheets : list MbeSheet) (off i : Z) (acc : list MbeSheet) :
  Forall sheet_fits sheets ->
  has_at view off (bytesOf (sheetsChunks Number_of_string sheets)) ->
  readSheets String_of_number Date_now view M
    (startedHeaders off (map renamed sheets)) i acc
  = ret (acc ++ parsedSheets String_of_number Date_now view M
                  (startedHeaders off (map renamed sheets)) i).
Proof.
  intros Hfit. revert off i acc.
  induction Hfit as [|sheet sheets Hsfit Hfit IH]; intros off i acc H.
  - simpl. by rewrite app_nil_r.
  - cbn [map startedHeaders readSheets parsedSheets] in *.
    unfold sheetsChunks in H. cbn [map concat] in H.
    fold (sheetsChunks Number_of_string sheets) in H.
    rewrite bytesOf_app in H. apply has_at_split in H as [Hs Hrest].
    rewrite byteLength_bytesOf, chunksLength_rowsChunks in Hrest.
    unfold parsedSheet.
    cbn [headerOf h_name h_columns h_expaAreaSizePerRow h_expaRowCount
         h_sheetExpaDataStartOffset default renamed sheet_name sheet_columns
         sheet_rows]. unfold id. rewrite Nat2Z.id.
    rewrite (readRows_generated view M i _ (sheet_columns sheet)), bind_ret_l.
    + cbn [app]. rewrite IH by done. by rewrite <- app_assoc.
    + done.
    + intros Hne. destruct Hsfit as [Hnil|Hlt]; [done|].
      pose proof (rowWidth_nonneg (sheet_columns sheet)).
      unfold headerOf, renamed. cbn [h_expaAreaSizePerRow sheet_columns].
      by rewrite Z.mod_small by lia.
    + by replace (off + 0 * rowWidth (sheet_columns sheet)) with off by lia.
Qed.

(** X20: a generated file is read without a warning of its own making.
    When every sheet has fewer than 2^32 rows and the generated buffer is
    smaller than 4 GiB, [parseMbeFile] returns a file for it and logs
    nothing, except for the one warning that the CHNK magic was not
    found, searched from the end of the structural block, when the file
    has no string cell that is not empty, for which no pool is
    written. *)
Theorem generated_file_is_read_quietly (mbeFile : MbeFile) :
  Forall (fun sheet => Z.of_nat (length (sheet_rows sheet)) < 2 ^ 32) (sheets mbeFile) ->
  byteLength (generate mbeFile) < 2 ^ 32 ->
  exists mbeFile',
    parse (generate mbeFile)
    = (if decide (run_chnkRawStrings (generate_run mbeFile) = [])
       then [ChnkMagicNotFound
               (run_totalHeaderSize (generate_run mbeFile) + expaSize (sheets mbeFile))]
       else [],
       Returned mbeFile').
Proof.
  intros Hrows Hsmall.
  destruct (readChnk_generated_any mbeFile Hsmall) as (M & HMeq & _).
  destruct (generated_has_blocks Number_of_string String_of_number mbeFile)
    as (_ & Hexpa & _ & Hlen).
  pose proof (headerEnd_ge mbeFile) as HH.
  pose proof (expaSize_nonneg (sheets mbeFile)) as He.
  pose proof (byteLength_nonneg
                (chnkBlockOf Number_of_string String_of_number mbeFile)) as Hc.
  assert (Forall sheet_fits (sheets mbeFile)) as Hfit.
  { apply expaSize_fits. unfold expaEnd in Hlen. lia. }
  rewrite (run_totalHeaderSize_spec Number_of_string String_of_number).
  fold (expaEnd mbeFile).
  eexists.
  rewrite parse_headerPass, headerPass_generated_any, bind_ret_l by done.
  unfold parseRest.
  rewrite assignStartOffsets_generated by (by apply sheet_fits_renamed).
  rewrite expaSize_renamed. fold (expaEnd mbeFile).
  rewrite HMeq. unfold bind at 1.
  rewrite readSheets_generated by done. rewrite bind_ret_l.
  cbn [app ret]. by rewrite app_nil_r.
Qed.

End ReadBack.

(** * The editor's operations keep the model well formed *)

Lemma sheet_eta (sheet : MbeSheet) :
  {| sheet_name := sheet_name sheet; sheet_columns := sheet_columns sheet;
     sheet_rows := sheet_rows sheet;
     parsedExpaAreaSizePerRow := parsedExpaAreaSizePerRow sheet |} = sheet.
Proof. by destruct sheet. Qed.

Lemma filterRows_delete (rows : list MbeRow) (idx rowIndex : nat) :
  (idx <= rowIndex)%nat ->
  filterRows rows idx rowIndex = delete (rowIndex - idx)%nat rows.
Proof.
  revert idx. induction rows as [|row rows IH]; intros idx Hle; [done|].
  cbn [filterRows]. destruct (decide (idx <> rowIndex)) as [Hne|Heq].
  - rewrite IH by lia.
    replace (rowIndex - idx)%nat with (S (rowIndex - S idx)) by lia. done.
  - assert (idx = rowIndex) as -> by lia. rewrite Nat.sub_diag. cbn [delete list_delete].
    clear IH Heq Hle. generalize (S rowIndex) (Nat.lt_succ_diag_r rowIndex).
    induction rows as [|r rows IH]; intros k Hk; [done|].
    cbn [filterRows]. destruct (decide (k <> rowIndex)); [|lia].
    f_equal. apply IH. lia.
Qed.

Lemma delete_last {A} (l : list A) (x : A) : delete (length l) (l ++ [x]) = l.
Proof. induction l as [|a l IH]; [done|]. simpl. by rewrite IH. Qed.

Section EditorExtras.

Variable String_of_number : Z -> jsstring.
Variable parseInt10 : jsstring -> option Z.

Local Abbreviation addRow := (addRow String_of_number).
Local Abbreviation handleCellChange := (handleCellChange parseInt10).
Local Abbreviation changedCell := (changedCell parseInt10).

(** X11: [addRow] appends one row and changes nothing else: the name,
    the columns and [parsedExpaAreaSizePerRow] stay.  The new row has one
    cell per column, 0 under an INT column and the empty string under a
    STR or STRID column, so it agrees with the columns and adds no string
    to the pool; a sheet that satisfies the model invariants still
    satisfies them. *)
Theorem addRow_appends_a_default_row (now : Z) (sheet : MbeSheet) :
  exists newRow,
    sheet_rows (addRow now sheet) = sheet_rows sheet ++ [newRow] /\
    sheet_name (addRow now sheet) = sheet_name sheet /\
    sheet_columns (addRow now sheet) = sheet_columns sheet /\
    parsedExpaAreaSizePerRow (addRow now sheet) = parsedExpaAreaSizePerRow sheet /\
    row_ok (sheet_columns sheet) newRow /\
    Forall (fun c => c = CellNum 0 \/ c = CellStr []) (row_cells newRow) /\
    rowStrings (sheet_columns sheet) (row_cells newRow) = [] /\
    (sheet_ok sheet -> sheet_ok (addRow now sheet)).
Proof.
  eexists. split; [reflexivity|]. cbn [row_cells].
  assert (Forall2 cell_agrees (sheet_columns sheet)
            (map (fun col => match col_type col with
                             | INT => CellNum 0
                             | STR | STRID => CellStr []
                             end) (sheet_columns sheet))) as Hok.
  { induction (sheet_columns sheet) as [|col columns IH]; constructor; [|done].
    unfold cell_agrees. by destruct (col_type col). }
  repeat split; try done.
  - apply Forall_fmap, Forall_forall. intros col _. simpl.
    destruct (col_type col); auto.
  - induction (sheet_columns sheet) as [|col columns IH]; [done|].
    cbn [map rowStrings]. apply Forall2_cons in Hok as [_ Hok]. rewrite (IH Hok).
    by destruct (col_type col).
  - intros Hsheet. unfold sheet_ok, addRow. cbn [sheet_columns sheet_rows].
    apply Forall_app. split; [done|]. by constructor.
Qed.

(** X12: [deleteRow] removes the row at [rowIndex] and keeps the others
    in order; an index past the last row changes nothing; the model
    invariants are kept; and deleting the row that [addRow] has just
    added gives the sheet back. *)
Theorem deleteRow_removes_one_row (rowIndex : nat) (sheet : MbeSheet) :
  sheet_rows (deleteRow rowIndex sheet) = delete rowIndex (sheet_rows sheet) /\
  sheet_name (deleteRow rowIndex sheet) = sheet_name sheet /\
  sheet_columns (deleteRow rowIndex sheet) = sheet_columns sheet /\
  ((length (sheet_rows sheet) <= rowIndex)%nat -> deleteRow rowIndex sheet = sheet) /\
  (sheet_ok sheet -> sheet_ok (deleteRow rowIndex sheet)) /\
  (forall now, deleteRow (length (sheet_rows sheet)) (addRow now sheet) = sheet).
Proof.
  assert (sheet_rows (deleteRow rowIndex sheet) = delete rowIndex (sheet_rows sheet))
    as Hrows.
  { unfold deleteRow. cbn [sheet_rows]. rewrite filterRows_delete by lia.
    by rewrite Nat.sub_0_r. }
  repeat split; try done.
  - intros Hout. rewrite <- (sheet_eta sheet) at 2. unfold deleteRow. f_equal.
    change (filterRows (sheet_rows sheet) 0 rowIndex)
      with (sheet_rows (deleteRow rowIndex sheet)).
    rewrite Hrows. clear Hrows. revert rowIndex Hout.
    induction (sheet_rows sheet) as [|r rows IH]; intros [|i] Hout; simpl in *;
      try done; try lia.
    f_equal. apply IH. lia.
  - intros Hsheet. unfold sheet_ok in *. rewrite Hrows.
    change (sheet_columns (deleteRow rowIndex sheet)) with (sheet_columns sheet).
    by apply Forall_delete.
  - intros now. rewrite <- (sheet_eta sheet) at 3. unfold deleteRow, addRow.
    cbn [sheet_name sheet_columns sheet_rows parsedExpaAreaSizePerRow]. f_equal.
    rewrite filterRows_delete by lia. rewrite Nat.sub_0_r. apply delete_last.
Qed.

Lemma changedCell_agrees (column : MbeColumn) (valueText : jsstring) :
  cell_agrees column (changedCell (col_type column) valueText).
Proof. unfold cell_agrees, changedCell. by destruct (col_type column). Qed.

Lemma changeRows_other columns rows rIdx rowIndex cellIndex valueText :
  (rowIndex < rIdx)%nat ->
  changeRows parseInt10 columns rows rIdx rowIndex cellIndex valueText = Edited rows.
Proof.
  revert rIdx. induction rows as [|row rows IH]; intros rIdx Hlt; [done|].
  cbn [changeRows]. destruct (decide (rIdx = rowIndex)); [lia|].
  cbn [edit_bind]. by rewrite IH by lia.
Qed.

Lemma changeRows_missing columns rows rIdx rowIndex cellIndex valueText :
  (rIdx <= rowIndex)%nat -> rows !! (rowIndex - rIdx)%nat = None ->
  changeRows parseInt10 columns rows rIdx rowIndex cellIndex valueText = Edited rows.
Proof.
  revert rIdx. induction rows as [|row rows IH]; intros rIdx Hle Hnone; [done|].
  cbn [changeRows]. destruct (decide (rIdx = rowIndex)) as [->|Hne].
  { rewrite Nat.sub_diag in Hnone. discriminate. }
  cbn [edit_bind]. rewrite IH; [done|lia|].
  replace (rowIndex - rIdx)%nat with (S (rowIndex - S rIdx)) in Hnone by lia. done.
Qed.

Lemma changeRows_found columns rows rIdx rowIndex cellIndex valueText row :
  (rIdx <= rowIndex)%nat -> rows !! (rowIndex - rIdx)%nat = Some row ->
  changeRows parseInt10 columns rows rIdx rowIndex cellIndex valueText
  = match columns !! cellIndex with
    | None => EditTypeError
    | Some column =>
        edit_bind
          (assignCell (row_cells row) cellIndex (changedCell (col_type column) valueText))
          (fun newCells =>
             Edited (<[(rowIndex - rIdx)%nat :=
                         {| row_id := row_id row; row_cells := newCells |}]> rows))
    end.
Proof.
  revert rIdx. induction rows as [|r rows IH]; intros rIdx Hle Hrow; [done|].
  cbn [changeRows]. destruct (decide (rIdx = rowIndex)) as [->|Hne].
  - rewrite Nat.sub_diag in *. cbn in Hrow. injection Hrow as ->.
    destruct (columns !! cellIndex) as [column|]; [|done]. cbn [edit_bind].
    destruct (assignCell _ _ _) as [newCells| |]; [|done|done]. cbn [edit_bind].
    by rewrite changeRows_other by lia.
  - replace (rowIndex - rIdx)%nat with (S (rowIndex - S rIdx)) in * by lia.
    cbn in Hrow. cbn [edit_bind]. rewrite (IH (S rIdx)) by (lia || done).
    destruct (columns !! cellIndex) as [column|]; [|done].
    by destruct (assignCell _ _ _).
Qed.

(** X13: what [handleCellChange] does.  When the row and the cell exist
    it replaces that one cell, by the integer [parseInt] reads from the
    text (0 when it reads none) under an INT column and by the text
    itself under a STR or STRID column, and leaves every other cell, the
    identity token of the row, the name and the columns as they are.  A
    row index past the last row changes nothing, even when the column
    does not exist; an existing row with a column that does not exist
    throws.  On a sheet that satisfies the model invariants an edit that
    goes through gives a sheet that satisfies them. *)
Theorem handleCellChange_cases (sheet : MbeSheet) (rowIndex cellIndex : nat)
    (valueText : jsstring) :
  (forall row column,
     sheet_rows sheet !! rowIndex = Some row ->
     sheet_columns sheet !! cellIndex = Some column ->
     (cellIndex < length (row_cells row))%nat ->
     handleCellChange sheet rowIndex cellIndex valueText
     = Edited {| sheet_name := sheet_name sheet;
                 sheet_columns := sheet_columns sheet;
                 sheet_rows :=
                   <[rowIndex :=
                       {| row_id := row_id row;
                          row_cells :=
                            <[cellIndex := changedCell (col_type column) valueText]>
                              (row_cells row) |}]> (sheet_rows sheet);
                 parsedExpaAreaSizePerRow := parsedExpaAreaSizePerRow sheet |}) /\
  (sheet_rows sheet !! rowIndex = None ->
   handleCellChange sheet rowIndex cellIndex valueText = Edited sheet) /\
  (is_Some (sheet_rows sheet !! rowIndex) ->
   sheet_columns sheet !! cellIndex = None ->
   handleCellChange sheet rowIndex cellIndex valueText = EditTypeError) /\
  (sheet_ok sheet ->
   handleCellChange sheet rowIndex cellIndex valueText <> EditSparse /\
   forall sheet',
     handleCellChange sheet rowIndex cellIndex valueText = Edited sheet' ->
     sheet_ok sheet' /\ sheet_columns sheet' = sheet_columns sheet /\
     length (sheet_rows sheet') = length (sheet_rows sheet)).
Proof.
  unfold handleCellChange. split; [|split; [|split]].
  - intros row column Hrow Hcol Hlt.
    rewrite (changeRows_found _ _ 0 rowIndex _ _ row) by (lia || by rewrite Nat.sub_0_r).
    rewrite Hcol. unfold assignCell. rewrite decide_True by done.
    cbn [edit_bind]. by rewrite Nat.sub_0_r.
  - intros Hnone.
    rewrite changeRows_missing by (lia || by rewrite Nat.sub_0_r).
    cbn [edit_bind]. by rewrite sheet_eta.
  - intros [row Hrow] Hcol.
    rewrite (changeRows_found _ _ 0 rowIndex _ _ row) by (lia || by rewrite Nat.sub_0_r).
    by rewrite Hcol.
  - intros Hsheet.
    destruct (sheet_rows sheet !! rowIndex) as [row|] eqn:Hrow; cycle 1.
    { rewrite changeRows_missing by (lia || by rewrite Nat.sub_0_r).
      cbn [edit_bind]. split; [done|]. intros sheet' [= <-]. done. }
    rewrite (changeRows_found _ _ 0 rowIndex _ _ row) by (lia || by rewrite Nat.sub_0_r).
    destruct (sheet_columns sheet !! cellIndex) as [column|] eqn:Hcol; cycle 1.
    { split; [done|]. intros sheet' Hs. discriminate. }
    assert (row_ok (sheet_columns sheet) row) as Hok.
    { unfold sheet_ok in Hsheet. rewrite Forall_forall in Hsheet.
      apply Hsheet. by eapply list_elem_of_lookup_2. }
    assert (cellIndex < length (row_cells row))%nat as Hlt.
    { unfold row_ok in Hok. apply Forall2_length in Hok. rewrite <- Hok.
      by eapply lookup_lt_Some. }
    unfold assignCell. rewrite decide_True by done. cbn [edit_bind].
    split; [done|]. intros sheet' [= <-].
    cbn [sheet_columns sheet_rows]. rewrite Nat.sub_0_r, length_insert.
    split; [|done]. unfold sheet_ok. cbn [sheet_columns sheet_rows].
    apply Forall_insert; [done|]. unfold row_ok. cbn [row_cells].
    apply Forall2_same_length_lookup_2.
    { rewrite length_insert. by eapply Forall2_length. }
    intros i col c Hi Hc.
    destruct (decide (i = cellIndex)) as [->|Hne].
    + rewrite list_lookup_insert_eq in Hc by done. injection Hc as <-.
      rewrite Hcol in Hi. injection Hi as <-. apply changedCell_agrees.
    + rewrite list_lookup_insert_ne in Hc by done.
      unfold row_ok in Hok. by eapply Forall2_lookup_lr.
Qed.

End EditorExtras.

Lemma imap_replace {A} (l : list A) (i : nat) (x : A) :
  imap (fun index a => if decide (index = i) then x else a) l = <[i := x]> l.
Proof.
  apply list_eq. intros j. rewrite list_lookup_imap.
  destruct (decide (j = i)) as [->|Hne].
  - destruct (l !! i) as [a|] eqn:E; cbn.
    + destruct (decide (i = i)); [|done].
      by rewrite list_lookup_insert_eq by (by eapply lookup_lt_Some).
    + symmetry. apply lookup_ge_None. rewrite length_insert.
      by apply lookup_ge_None.
  - rewrite list_lookup_insert_ne by done.
    destruct (l !! j); cbn; [|done]. by destruct (decide (j = i)).
Qed.

(** X14: [handleSheetDataChange] replaces the sheet at the active index
    by the updated sheet and keeps all others; with no file in the state
    it does nothing; an index past the last sheet leaves the sheets as
    they are; and a file that satisfies the model invariants still
    satisfies them when the updated sheet does. *)
Theorem handleSheetDataChange_replaces_one_sheet (activeSheetIndex : nat)
    (updatedSheet : MbeSheet) :
  handleSheetDataChange activeSheetIndex updatedSheet None = None /\
  forall prevMbeFile,
    handleSheetDataChange activeSheetIndex updatedSheet (Some prevMbeFile)
    = Some {| sheets := <[activeSheetIndex := updatedSheet]> (sheets prevMbeFile) |} /\
    ((length (sheets prevMbeFile) <= activeSheetIndex)%nat ->
     handleSheetDataChange activeSheetIndex updatedSheet (Some prevMbeFile)
     = Some prevMbeFile) /\
    (model_invariants prevMbeFile -> sheet_ok updatedSheet ->
     model_invariants
       {| sheets := <[activeSheetIndex := updatedSheet]> (sheets prevMbeFile) |}).
Proof.
  split; [done|]. intros prevMbeFile. unfold handleSheetDataChange.
  rewrite imap_replace. split; [done|]. split.
  - intros Hout. rewrite list_insert_ge by done. by destruct prevMbeFile.
  - intros Hinv Hok. unfold model_invariants in *. cbn [sheets].
    by apply Forall_insert.
Qed.

Lemma replaced_is_safe (name : jsstring) :
  Forall (fun u => isSafeNameChar u = true)
    (map (fun u => if isSafeNameChar u then u else 95) name).
Proof.
  induction name as [|u name IH]; [constructor|]. cbn [map]. constructor; [|done].
  by destruct (isSafeNameChar u) eqn:E.
Qed.

(** X19: the name [handleExportCsv] gives the exported file.  It is never
    empty and holds only letters, digits, underscores, dots and hyphens;
    for a sheet name that is not empty it has the length of the name,
    every other code unit being replaced by an underscore, and a name
    made of such characters only is kept as it is. *)
Theorem safeSheetName_is_safe (name : jsstring) :
  safeSheetName name <> [] /\
  Forall (fun u => isSafeNameChar u = true) (safeSheetName name) /\
  (name <> [] -> length (safeSheetName name) = length name) /\
  (name <> [] -> Forall (fun u => isSafeNameChar u = true) name ->
   safeSheetName name = name).
Proof.
  unfold safeSheetName. destruct name as [|u name].
  - split; [done|]. split; [by repeat constructor|]. split; done.
  - pose proof (replaced_is_safe (u :: name)) as Hsafe. cbn [map] in *.
    split; [done|]. split; [done|]. split.
    + intros _. cbn [length]. by rewrite length_map.
    + intros _ Hname. clear Hsafe.
      change ((if isSafeNameChar u then u else 95)
              :: map (fun u => if isSafeNameChar u then u else 95) name)
        with (map (fun u => if isSafeNameChar u then u else 95) (u :: name)).
      induction Hname as [|x l Hx Hl IH]; [done|]. cbn [map]. by rewrite Hx, IH.
Qed.

(** * The CSV functions *)

(** ** Quoting *)

Lemma includes_false (s : jsstring) (ch : Z) : includes s ch = false -> ch ∉ s.
Proof.
  unfold includes. induction s as [|u s IH]; intros H; [apply not_elem_of_nil|].
  cbn [existsb] in H. apply orb_false_iff in H as [Hu H].
  apply not_elem_of_cons. split; [|by apply IH].
  intros ->. by rewrite Z.eqb_refl in Hu.
Qed.

Lemma includes_true (s : jsstring) (ch : Z) : includes s ch = true -> ch ∈ s.
Proof.
  unfold includes. induction s as [|u s IH]; intros H; [discriminate|].
  cbn [existsb] in H. apply orb_true_iff in H as [Hu|H].
  - apply Z.eqb_eq in Hu as ->. apply list_elem_of_here.
  - apply list_elem_of_further. by apply IH.
Qed.

Section CsvExtras.

Variable String_of_number : Z -> jsstring.
Variable parseInt10 : jsstring -> option Z.

Local Abbreviation formatCell := (formatCsvCell String_of_number).
Local Abbreviation textOf := (String_of_cell String_of_number).
Local Abbreviation lineOf := (csvLine String_of_number).
Local Abbreviation tableOf := (csvText String_of_number).
Local Abbreviation textsOf := (exportedTexts String_of_number).
Local Abbreviation exportCsv := (handleExportCsv String_of_number).

(** ** The loop on the text of one cell *)

Lemma parseCsvLoop_plain (s rest : jsstring) rows currentRow currentValue :
  quoteChar ∉ s -> commaChar ∉ s -> lfChar ∉ s -> crChar ∉ s ->
  parseCsvLoop (s ++ rest) rows currentRow false currentValue
  = parseCsvLoop rest rows currentRow false (currentValue ++ s).
Proof.
  revert currentValue. induction s as [|u s IH]; intros v Hq Hc Hl Hr.
  - by rewrite app_nil_r.
  - apply not_elem_of_cons in Hq as [Hq1 Hq], Hc as [Hc1 Hc], Hl as [Hl1 Hl],
      Hr as [Hr1 Hr].
    cbn [app parseCsvLoop].
    destruct (Z.eqb_spec u quoteChar); [congruence|].
    destruct (Z.eqb_spec u commaChar); [congruence|].
    destruct (Z.eqb_spec u lfChar); [congruence|].
    destruct (Z.eqb_spec u crChar); [congruence|].
    cbn [andb orb]. rewrite IH by done. by rewrite <- app_assoc.
Qed.

Lemma parseCsvLoop_open (text : jsstring) rows currentRow currentValue :
  parseCsvLoop (quoteChar :: text) rows currentRow false currentValue
  = parseCsvLoop text rows currentRow true currentValue.
Proof. by destruct text. Qed.

Lemma parseCsvLoop_quoted (s rest : jsstring) rows currentRow currentValue :
  head rest <> Some quoteChar ->
  parseCsvLoop (doubleQuotes s ++ quoteChar :: rest) rows currentRow true currentValue
  = parseCsvLoop rest rows currentRow false (currentValue ++ s).
Proof.
  intros Hrest. revert currentValue. induction s as [|u s IH]; intros v.
  - rewrite app_nil_r. cbn [doubleQuotes app parseCsvLoop].
    change (quoteChar =? quoteChar) with true. cbn iota.
    destruct rest as [|next rest']; [done|].
    destruct (Z.eqb_spec next quoteChar) as [->|Hne]; [by destruct Hrest|]. done.
  - cbn [doubleQuotes]. destruct (Z.eqb_spec u quoteChar) as [->|Hne].
    + cbn [app parseCsvLoop]. change (quoteChar =? quoteChar) with true. cbn iota.
      cbn [andb]. rewrite IH. by rewrite <- app_assoc.
    + cbn [app parseCsvLoop]. destruct (Z.eqb_spec u quoteChar); [congruence|].
      rewrite !andb_false_r. rewrite IH. by rewrite <- app_assoc.
Qed.

Lemma parseCsvLoop_cell (s rest : jsstring) rows currentRow currentValue :
  crSafe s -> head rest <> Some quoteChar ->
  parseCsvLoop (formatCell (CellStr s) ++ rest) rows currentRow false currentValue
  = parseCsvLoop rest rows currentRow false (currentValue ++ s).
Proof.
  intros Hsafe Hrest. unfold formatCsvCell. cbn [String_of_cell].
  destruct (includes s commaChar) eqn:Hc; cbn [orb].
  { rewrite <- !app_assoc. cbn [app]. rewrite parseCsvLoop_open.
    by apply parseCsvLoop_quoted. }
  destruct (includes s lfChar) eqn:Hl; cbn [orb].
  { rewrite <- !app_assoc. cbn [app]. rewrite parseCsvLoop_open.
    by apply parseCsvLoop_quoted. }
  destruct (includes s quoteChar) eqn:Hq.
  { rewrite <- !app_assoc. cbn [app]. rewrite parseCsvLoop_open.
    by apply parseCsvLoop_quoted. }
  apply includes_false in Hc, Hl, Hq.
  apply parseCsvLoop_plain; try done.
  intros Hcr. destruct (Hsafe Hcr) as [?|[?|?]]; done.
Qed.

Lemma parseCsvLoop_comma (text : jsstring) rows currentRow currentValue :
  parseCsvLoop (commaChar :: text) rows currentRow false currentValue
  = parseCsvLoop text rows (currentRow ++ [trim currentValue]) false [].
Proof. reflexivity. Qed.

Lemma parseCsvLoop_crlf (text : jsstring) rows currentRow currentValue :
  parseCsvLoop (crChar :: lfChar :: text) rows currentRow false currentValue
  = parseCsvLoop text (pushRow rows currentRow currentValue) [] false [].
Proof. reflexivity. Qed.

(** ** The loop on a line and on a table *)

Lemma join_cons2 (sep part part' : jsstring) (parts : list jsstring) :
  join sep (part :: part' :: parts) = part ++ sep ++ join sep (part' :: parts).
Proof. reflexivity. Qed.

Lemma parseCsvLoop_line (texts : list jsstring) (rest : jsstring) rows currentRow :
  Forall crSafe texts -> head rest <> Some quoteChar ->
  parseCsvLoop (lineOf texts ++ rest) rows currentRow false []
  = parseCsvLoop rest rows (fst (lineEnd currentRow texts)) false
      (snd (lineEnd currentRow texts)).
Proof.
  intros Hsafe Hrest. revert currentRow.
  induction Hsafe as [|text texts Htext Hsafe IH]; intros currentRow; [done|].
  destruct texts as [|text' texts].
  - unfold csvLine. cbn [map join lineEnd fst snd].
    by rewrite parseCsvLoop_cell.
  - unfold csvLine in *. cbn [map]. rewrite join_cons2. cbn [map] in IH.
    rewrite <- !app_assoc. rewrite parseCsvLoop_cell by done.
    cbn [app]. rewrite parseCsvLoop_comma. rewrite IH. done.
Qed.

Lemma lineEnd_pushRow (texts : list jsstring) (currentRow : list jsstring) rows :
  texts <> [] ->
  pushRow rows (fst (lineEnd currentRow texts)) (snd (lineEnd currentRow texts))
  = if linePushed texts || (0 <? Z.of_nat (length currentRow))
    then rows ++ [currentRow ++ map trim texts] else rows.
Proof.
  revert currentRow. induction texts as [|text texts IH]; intros currentRow Hne; [done|].
  destruct texts as [|text' texts].
  - reflexivity.
  - change (lineEnd currentRow (text :: text' :: texts))
      with (lineEnd (currentRow ++ [trim text]) (text' :: texts)).
    rewrite IH by done. rewrite length_app. cbn [length].
    replace (0 <? Z.of_nat (length currentRow + 1)) with true
      by (symmetry; apply Z.ltb_lt; lia).
    rewrite orb_true_r. cbn [linePushed orb map]. by rewrite <- app_assoc.
Qed.

Lemma lineEnd_pushRow_start (texts : list jsstring) rows :
  pushRow rows (fst (lineEnd [] texts)) (snd (lineEnd [] texts))
  = rows ++ (if linePushed texts then [map trim texts] else []).
Proof.
  destruct texts as [|text texts]; [by rewrite app_nil_r|].
  rewrite lineEnd_pushRow by done. cbn [length]. rewrite orb_false_r.
  destruct (linePushed (text :: texts)); [done|by rewrite app_nil_r].
Qed.

Lemma parseCsvLoop_table (lines : list (list jsstring)) rows :
  Forall (Forall crSafe) lines ->
  exists rows' currentRow currentValue,
    parseCsvLoop (tableOf lines) rows [] false [] = (rows', currentRow, currentValue) /\
    pushRow rows' currentRow currentValue = rows ++ pushedRows lines.
Proof.
  intros Hsafe. revert rows.
  induction Hsafe as [|texts lines Htexts Hsafe IH]; intros rows.
  - exists rows, [], []. split; [done|]. by rewrite app_nil_r.
  - destruct lines as [|texts' lines].
    + unfold csvText. cbn [map join].
      rewrite <- (app_nil_r (lineOf texts)).
      rewrite parseCsvLoop_line by done. cbn [parseCsvLoop].
      eexists _, _, _. split; [reflexivity|].
      rewrite lineEnd_pushRow_start. unfold pushedRows. cbn [map concat].
      by rewrite app_nil_r.
    + unfold csvText in *. cbn [map]. rewrite join_cons2. cbn [map] in IH.
      rewrite parseCsvLoop_line by done. cbn [app].
      rewrite parseCsvLoop_crlf, lineEnd_pushRow_start.
      destruct (IH (rows ++ (if linePushed texts then [map trim texts] else [])))
        as (rows' & cur & v & Hloop & Hpush).
      exists rows', cur, v. split; [done|]. rewrite Hpush.
      unfold pushedRows. cbn [map concat]. by rewrite <- app_assoc.
Qed.

Lemma filter_pushedRows (lines : list (list jsstring)) :
  List.filter rowHasData (pushedRows lines)
  = List.filter rowHasData (map (map trim) lines).
Proof.
  induction lines as [|texts lines IH]; [done|].
  unfold pushedRows in *. cbn [map concat]. rewrite List.filter_app, IH.
  cbn [List.filter]. destruct (linePushed texts) eqn:Hp.
  - cbn [List.filter app]. by destruct (rowHasData (map trim texts)).
  - cbn [List.filter app].
    assert (rowHasData (map trim texts) = false) as ->; [|done].
    destruct texts as [|text [|text' texts]]; [done| |discriminate].
    cbn [linePushed] in Hp. destruct text; [done|]. cbn in Hp. discriminate.
Qed.

Lemma parseCsvContent_csvText (lines : list (list jsstring)) :
  Forall (Forall crSafe) lines ->
  parseCsvContent (tableOf lines) = List.filter rowHasData (map (map trim) lines).
Proof.
  intros Hsafe.
  destruct (parseCsvLoop_table lines [] Hsafe) as (rows' & cur & v & Hloop & Hpush).
  unfold parseCsvContent. rewrite Hloop.
  change (if (0 <? Z.of_nat (length v)) || (0 <? Z.of_nat (length cur))
          then rows' ++ [cur ++ [trim v]] else rows') with (pushRow rows' cur v).
  rewrite Hpush. cbn [app]. apply filter_pushedRows.
Qed.

Lemma handleExportCsv_csvText (sheet : MbeSheet) :
  exportCsv sheet = tableOf (textsOf sheet).
Proof.
  assert (forall row : MbeRow,
            join [commaChar] (map formatCell (row_cells row))
            = lineOf (map textOf (row_cells row))) as Hrow.
  { intros row. unfold csvLine. by rewrite map_map. }
  unfold handleExportCsv, csvText, exportedTexts. cbn [map]. rewrite map_map.
  by rewrite (map_ext _ _ Hrow).
Qed.

(** X15: what [parseCsvContent] reads from the text [exportCsv]
    writes.  When every carriage return in a label or in the text of a
    cell comes with a comma, a line feed or a double quote in the same
    text (so that [formatCell] quotes it), the rows read back are the
    exported rows, label row first, each text trimmed of the white space
    at its ends, without the rows that are empty or hold only empty
    texts.  Commas, line feeds and double quotes inside a text are read
    back as they were. *)
Theorem exported_csv_reads_back (sheet : MbeSheet) :
  Forall (Forall crSafe) (textsOf sheet) ->
  parseCsvContent (exportCsv sheet)
  = List.filter rowHasData (map (map trim) (textsOf sheet)).
Proof.
  intros Hsafe. rewrite handleExportCsv_csvText. by apply parseCsvContent_csvText.
Qed.

(** ** Importing *)

Local Abbreviation importCsv := (handleCsvImport String_of_number parseInt10).
Local Abbreviation rowsOf := (importedRows String_of_number parseInt10).

Lemma imap_agrees (columns : list MbeColumn) (f : nat -> MbeColumn -> cell) :
  (forall i column, cell_agrees column (f i column)) ->
  Forall2 cell_agrees columns (imap f columns).
Proof.
  revert f. induction columns as [|column columns IH]; intros f Hf; [constructor|].
  rewrite imap_cons. constructor; [apply Hf|]. apply IH. intros i c. apply Hf.
Qed.

Lemma importedCell_agrees (column : MbeColumn) (csvCell : option jsstring) :
  cell_agrees column (importedCell parseInt10 column csvCell).
Proof. unfold cell_agrees, importedCell. by destruct (col_type column). Qed.

Lemma importedRows_ok now columns dataRows :
  Forall (row_ok columns) (rowsOf now columns dataRows) /\
  length (rowsOf now columns dataRows) = length dataRows.
Proof.
  unfold importedRows. split; [|apply length_imap].
  apply Forall_forall. intros row Hrow.
  apply elem_of_lookup_imap_1 in Hrow as (rIdx & csvRow & -> & _).
  unfold row_ok. cbn [row_cells]. apply imap_agrees.
  intros i column. apply importedCell_agrees.
Qed.

Lemma withRows_lookup mbeFile i rows sheet :
  sheets mbeFile !! i = Some sheet ->
  sheets (withRows mbeFile i rows) !! i
  = Some {| sheet_name := sheet_name sheet; sheet_columns := sheet_columns sheet;
            sheet_rows := rows;
            parsedExpaAreaSizePerRow := parsedExpaAreaSizePerRow sheet |}.
Proof. intros H. unfold withRows. cbn [sheets]. by rewrite list_lookup_alter_eq, H. Qed.

Lemma withRows_invariants mbeFile i rows sheet :
  sheets mbeFile !! i = Some sheet ->
  Forall (row_ok (sheet_columns sheet)) rows ->
  model_invariants mbeFile -> model_invariants (withRows mbeFile i rows).
Proof.
  intros Hsheet Hrows Hinv. unfold model_invariants, withRows in *. cbn [sheets].
  apply Forall_alter; [done|]. intros x Hx _. rewrite Hsheet in Hx.
  injection Hx as <-. exact Hrows.
Qed.

(** X16: what [handleCsvImport] leaves behind.  Whatever the text of the
    CSV file, only the rows of the active sheet may change: the other
    sheets, and the name, the columns and [parsedExpaAreaSizePerRow] of
    the active sheet, stay.  The rows are either kept or replaced by
    rows that have one cell per column, a number under an INT column and
    a string under a STR or STRID column (a CSV row that is too short is
    filled with 0 and the empty string, one that is too long is cut), so
    a file that satisfies the model invariants still satisfies them.
    When no error is reported there is one row for each data row of the
    CSV, and its cell under a column is what the text of the CSV row at
    that column gives: the integer [parseInt] reads or 0, or the text or
    the empty string.  When the CSV holds a header row only, the rows
    are cleared and an error or a notice is reported; they are cleared
    also when the error is that the header has the wrong number of
    columns. *)
Theorem handleCsvImport_keeps_the_model (now : nat -> Z) (mbeFile : MbeFile)
    (activeSheetIndex : nat) (text : jsstring) (sheet : MbeSheet) :
  sheets mbeFile !! activeSheetIndex = Some sheet ->
  exists mbeFile' error,
    importCsv now (Some mbeFile) activeSheetIndex text = ImportFinished mbeFile' error /\
    length (sheets mbeFile') = length (sheets mbeFile) /\
    (forall j, j <> activeSheetIndex -> sheets mbeFile' !! j = sheets mbeFile !! j) /\
    (exists sheet',
       sheets mbeFile' !! activeSheetIndex = Some sheet' /\
       sheet_name sheet' = sheet_name sheet /\
       sheet_columns sheet' = sheet_columns sheet /\
       parsedExpaAreaSizePerRow sheet' = parsedExpaAreaSizePerRow sheet /\
       (sheet_rows sheet' = sheet_rows sheet \/
        Forall (row_ok (sheet_columns sheet)) (sheet_rows sheet')) /\
       (error = None ->
        exists header dataRows,
          parseCsvContent text = header :: dataRows /\ dataRows <> [] /\
          length (sheet_rows sheet') = length dataRows /\
          forall r c row csvRow col,
            sheet_rows sheet' !! r = Some row -> dataRows !! r = Some csvRow ->
            sheet_columns sheet !! c = Some col ->
            row_cells row !! c
            = Some (filledCell parseInt10 (col_type col) (csvRow !! c))) /\
       (forall header,
          parseCsvContent text = [header] ->
          sheet_rows sheet' = [] /\ error <> None /\
          (length header <> length (sheet_columns sheet) ->
           error = Some (NoticeError
                           (CsvHeaderColumnCount (length header)
                              (length (sheet_columns sheet))))))) /\
    (model_invariants mbeFile -> model_invariants mbeFile').
Proof.
  intros Hsheet. unfold handleCsvImport. rewrite Hsheet.
  assert (forall rows error,
            (rows = [] \/ Forall (row_ok (sheet_columns sheet)) rows) ->
            (error = None ->
             exists header dataRows,
               parseCsvContent text = header :: dataRows /\ dataRows <> [] /\
               length rows = length dataRows /\
               forall r c row csvRow col,
                 rows !! r = Some row -> dataRows !! r = Some csvRow ->
                 sheet_columns sheet !! c = Some col ->
                 row_cells row !! c
                 = Some (filledCell parseInt10 (col_type col) (csvRow !! c))) ->
            (forall header,
               parseCsvContent text = [header] ->
               rows = [] /\ error <> None /\
               (length header <> length (sheet_columns sheet) ->
                error = Some (NoticeError
                                (CsvHeaderColumnCount (length header)
                                   (length (sheet_columns sheet)))))) ->
            length (sheets (withRows mbeFile activeSheetIndex rows))
              = length (sheets mbeFile) /\
            (forall j, j <> activeSheetIndex ->
                       sheets (withRows mbeFile activeSheetIndex rows) !! j
                       = sheets mbeFile !! j) /\
            (exists sheet',
               sheets (withRows mbeFile activeSheetIndex rows) !! activeSheetIndex
                 = Some sheet' /\
               sheet_name sheet' = sheet_name sheet /\
               sheet_columns sheet' = sheet_columns sheet /\
               parsedExpaAreaSizePerRow sheet' = parsedExpaAreaSizePerRow sheet /\
               (sheet_rows sheet' = sheet_rows sheet \/
                Forall (row_ok (sheet_columns sheet)) (sheet_rows sheet')) /\
               (error = None ->
                exists header dataRows,
                  parseCsvContent text = header :: dataRows /\ dataRows <> [] /\
                  length (sheet_rows sheet') = length dataRows /\
                  forall r c row csvRow col,
                    sheet_rows sheet' !! r = Some row -> dataRows !! r = Some csvRow ->
                    sheet_columns sheet !! c = Some col ->
                    row_cells row !! c
                    = Some (filledCell parseInt10 (col_type col) (csvRow !! c))) /\
               (forall header,
                  parseCsvContent text = [header] ->
                  sheet_rows sheet' = [] /\ error <> None /\
                  (length header <> length (sheet_columns sheet) ->
                   error = Some (NoticeError
                                   (CsvHeaderColumnCount (length header)
                                      (length (sheet_columns sheet))))))) /\
            (model_invariants mbeFile ->
             model_invariants (withRows mbeFile activeSheetIndex rows))) as Hreplaced.
  { intros rows error Hrows Herr Hheader.
    assert (Forall (row_ok (sheet_columns sheet)) rows) as Hok.
    { destruct Hrows as [->|?]; [constructor|done]. }
    split; [unfold withRows; cbn [sheets]; apply length_alter|].
    split; [intros j Hj; unfold withRows; cbn [sheets];
            by rewrite list_lookup_alter_ne|].
    split; [|by apply (withRows_invariants _ _ _ sheet)].
    eexists. split; [by apply withRows_lookup|].
    cbn [sheet_name sheet_columns sheet_rows parsedExpaAreaSizePerRow].
    split; [done|]. split; [done|]. split; [done|]. split; [by right|].
    split; [done|]. exact Hheader. }
  assert (forall error,
            error <> None ->
            (forall header, parseCsvContent text <> [header]) ->
            length (sheets mbeFile) = length (sheets mbeFile) /\
            (forall j, j <> activeSheetIndex -> sheets mbeFile !! j = sheets mbeFile !! j) /\
            (exists sheet',
               sheets mbeFile !! activeSheetIndex = Some sheet' /\
               sheet_name sheet' = sheet_name sheet /\
               sheet_columns sheet' = sheet_columns sheet /\
               parsedExpaAreaSizePerRow sheet' = parsedExpaAreaSizePerRow sheet /\
               (sheet_rows sheet' = sheet_rows sheet \/
                Forall (row_ok (sheet_columns sheet)) (sheet_rows sheet')) /\
               (error = None ->
                exists header dataRows,
                  parseCsvContent text = header :: dataRows /\ dataRows <> [] /\
                  length (sheet_rows sheet') = length dataRows /\
                  forall r c row csvRow col,
                    sheet_rows sheet' !! r = Some row -> dataRows !! r = Some csvRow ->
                    sheet_columns sheet !! c = Some col ->
                    row_cells row !! c
                    = Some (filledCell parseInt10 (col_type col) (csvRow !! c))) /\
               (forall header,
                  parseCsvContent text = [header] ->
                  sheet_rows sheet' = [] /\ error <> None /\
                  (length header <> length (sheet_columns sheet) ->
                   error = Some (NoticeError
                                   (CsvHeaderColumnCount (length header)
                                      (length (sheet_columns sheet))))))) /\
            (model_invariants mbeFile -> model_invariants mbeFile)) as Hkept.
  { intros error Herr Hnot. split; [done|]. split; [done|]. split; [|done].
    exists sheet. split; [done|]. split; [done|]. split; [done|]. split; [done|].
    split; [by left|]. split; [intros H; by destruct Herr|].
    intros header Hh. by destruct (Hnot header). }
  destruct (parseCsvContent text) as [|header [|first more]] eqn:Hparsed.
  - eexists _, _. split; [reflexivity|]. by apply Hkept.
  - eexists _, _. split; [reflexivity|]. apply Hreplaced.
    + by left.
    + by destruct (decide _).
    + intros header' [= <-]. split; [done|]. split; [by destruct (decide _)|].
      intros Hne. by rewrite decide_True.
  - destruct (decide (length first <> length (sheet_columns sheet))) as [Hne|Heq].
    + eexists _, _. split; [reflexivity|]. by apply Hkept.
    + eexists _, _. split; [reflexivity|].
      destruct (importedRows_ok now (sheet_columns sheet) (first :: more))
        as [Hok Hlen].
      apply Hreplaced.
      * by right.
      * intros _. exists header, (first :: more).
        split; [done|]. split; [done|]. split; [done|].
        intros r c row csvRow col Hrow Hcsv Hcol.
        unfold importedRows in Hrow. rewrite list_lookup_imap, Hcsv in Hrow.
        injection Hrow as <-. cbn [row_cells].
        rewrite list_lookup_imap, Hcol. cbn [fmap option_fmap option_map].
        f_equal. unfold importedCell, filledCell.
        by destruct (col_type col), (csvRow !! c).
      * intros header' Hh. discriminate.
Qed.

(** ** Exporting a sheet and importing it again *)

Lemma trim_label (idx : nat) (col : MbeColumn) :
  trim (columnLabel String_of_number idx col) = columnLabel String_of_number idx col /\
  columnLabel String_of_number idx col <> [].
Proof.
  unfold columnLabel, trim. split; [|done].
  change (trimStart (col_prefix ++ ?x)) with (col_prefix ++ x).
  unfold trimEnd.
  rewrite !app_assoc. unfold col_close. rewrite reverse_snoc.
  cbn [trimStart]. change (isWhiteSpace 41) with false. cbn iota.
  by rewrite <- reverse_snoc, reverse_involutive.
Qed.

Lemma rowHasData_true (texts : list jsstring) :
  Exists (fun text => text <> []) texts -> rowHasData texts = true.
Proof.
  intros H. unfold rowHasData. apply andb_true_iff. split.
  - destruct H; cbn [length]; apply Z.ltb_lt; lia.
  - apply existsb_exists. apply Exists_exists in H as (text & Hin & Hne).
    exists text. split; [by apply list_elem_of_In|].
    destruct text; [done|]. cbn [length]. apply Z.ltb_lt. lia.
Qed.

Lemma filter_all {A} (f : A -> bool) (l : list A) :
  Forall (fun x => f x = true) l -> List.filter f l = l.
Proof.
  induction 1 as [|x l Hx H IH]; [done|]. cbn [List.filter]. by rewrite Hx, IH.
Qed.

Lemma imported_cells (columns : list MbeColumn) (cells : list cell) :
  Forall2 cell_agrees columns cells ->
  Forall (cell_exports String_of_number parseInt10) cells ->
  imap (fun cIdx colSchema =>
          importedCell parseInt10 colSchema (map textOf cells !! cIdx)) columns
  = cells.
Proof.
  intros Hag. induction Hag as [|column c columns cells Hc Hag IH]; intros Hex; [done|].
  apply Forall_cons in Hex as [[_ Hread] Hex].
  rewrite imap_cons. cbn [map]. f_equal.
  - unfold importedCell, cell_agrees in *. cbn [lookup list_lookup].
    destruct (col_type column), c as [n|s]; try (exfalso; exact Hc); cbn.
    + by rewrite Hread.
    + done.
    + done.
  - etrans; [|exact (IH Hex)]. apply imap_ext. intros i col _. done.
Qed.

Lemma trim_labels (columns : list MbeColumn) :
  map trim (imap (columnLabel String_of_number) columns)
  = imap (columnLabel String_of_number) columns.
Proof.
  apply list_eq. intros i.
  change (map trim ?l) with (trim <$> l).
  rewrite list_lookup_fmap, !list_lookup_imap.
  destruct (columns !! i) as [col|]; [|done]. cbn. f_equal. apply trim_label.
Qed.

Lemma labels_have_data (columns : list MbeColumn) :
  columns <> [] -> rowHasData (imap (columnLabel String_of_number) columns) = true.
Proof.
  intros Hne. apply rowHasData_true. destruct columns as [|col columns]; [done|].
  rewrite imap_cons. apply Exists_cons_hd. apply trim_label.
Qed.

Lemma row_cells_importedRows now columns dataRows :
  map row_cells (rowsOf now columns dataRows)
  = map (fun csvRow =>
           imap (fun cIdx colSchema => importedCell parseInt10 colSchema (csvRow !! cIdx))
             columns)
      dataRows.
Proof.
  unfold importedRows. apply list_eq. intros i.
  change (map ?f ?l) with (f <$> l).
  rewrite !list_lookup_fmap, list_lookup_imap.
  by destruct (dataRows !! i).
Qed.

Lemma exported_rows_read_back (columns : list MbeColumn) (rows : list MbeRow) :
  Forall (row_ok columns) rows ->
  Forall (row_exports String_of_number parseInt10) rows ->
  map (map trim) (map (fun row => map textOf (row_cells row)) rows)
    = map (fun row => map textOf (row_cells row)) rows /\
  Forall (fun texts => rowHasData texts = true)
    (map (fun row => map textOf (row_cells row)) rows) /\
  map (fun csvRow =>
         imap (fun cIdx colSchema => importedCell parseInt10 colSchema (csvRow !! cIdx))
           columns)
    (map (fun row => map textOf (row_cells row)) rows)
  = map row_cells rows.
Proof.
  intros Hok. induction Hok as [|row rows Hrow Hok IH]; intros Hexp;
    [by repeat split|].
  apply Forall_cons in Hexp as [[Hcells Hdata] Hexp].
  destruct (IH Hexp) as (IH1 & IH2 & IH3).
  cbn [map]. split; [|split].
  - rewrite IH1. f_equal. clear -Hcells.
    induction Hcells as [|c cells [Hc _] Hcells IH]; [done|].
    cbn [map]. by rewrite Hc, IH.
  - constructor; [|done]. apply rowHasData_true. clear -Hdata.
    induction Hdata as [c cells Hc|c cells Hdata IH]; cbn [map].
    + by apply Exists_cons_hd.
    + by apply Exists_cons_tl.
  - rewrite IH3. f_equal. by apply imported_cells.
Qed.

(** X17: a sheet exported to CSV and imported again into itself comes
    back with the same cells.  This holds for a sheet with at least one
    row that satisfies the model invariants, when every carriage return
    in a label or a text comes with a character that makes
    [formatCsvCell] quote the text, no text of a cell has white space at
    its ends, [parseInt] reads every INT cell back from its text, and
    every row has a cell whose text is not empty.  The import then
    reports no error, and the file differs from the one before at most
    in the identity tokens of the rows of that sheet. *)
Theorem csv_export_then_import (now : nat -> Z) (mbeFile : MbeFile)
    (activeSheetIndex : nat) (sheet : MbeSheet) :
  sheets mbeFile !! activeSheetIndex = Some sheet ->
  sheet_ok sheet ->
  sheet_rows sheet <> [] ->
  Forall (Forall crSafe) (textsOf sheet) ->
  Forall (row_exports String_of_number parseInt10) (sheet_rows sheet) ->
  exists mbeFile',
    importCsv now (Some mbeFile) activeSheetIndex (exportCsv sheet)
      = ImportFinished mbeFile' None /\
    same_wire_content mbeFile' mbeFile.
Proof.
  intros Hsheet Hok Hrows Hsafe Hexp. unfold sheet_ok in Hok.
  destruct (exported_rows_read_back _ _ Hok Hexp) as (Htrim & Hdata & Hback).
  destruct (sheet_rows sheet) as [|row rows] eqn:Erows; [done|].
  assert (sheet_columns sheet <> []) as Hcols.
  { pose proof Hok as Hok'. pose proof Hexp as Hexp'.
    apply Forall_cons in Hok' as [Hrow _], Hexp' as [[_ Hd] _].
    unfold row_ok in Hrow. intros Hnil. rewrite Hnil in Hrow.
    apply Forall2_nil_inv_l in Hrow. rewrite Hrow in Hd.
    by apply Exists_nil in Hd. }
  assert (parseCsvContent (exportCsv sheet) = textsOf sheet) as Hparsed.
  { rewrite handleExportCsv_csvText, parseCsvContent_csvText by done.
    unfold exportedTexts in *. rewrite Erows. cbn [map] in *.
    rewrite trim_labels, Htrim. apply filter_all.
    constructor; [by apply labels_have_data|done]. }
  unfold handleCsvImport. rewrite Hsheet, Hparsed.
  unfold exportedTexts. rewrite Erows. cbn [map].
  assert (length (map textOf (row_cells row)) = length (sheet_columns sheet)) as Hlen.
  { apply Forall_cons in Hok as [Hrow _]. unfold row_ok in Hrow.
    apply Forall2_length in Hrow. by rewrite length_map. }
  rewrite decide_False by (intros Hne; by apply Hne).
  eexists. split; [reflexivity|].
  unfold same_wire_content, withRows. cbn [sheets].
  apply Forall2_alter_l.
  { apply Forall_Forall2_diag, Forall_forall. by intros s _. }
  intros x y Hx Hy _. rewrite Hsheet in Hx, Hy. injection Hx as <-. injection Hy as <-.
  cbn [sheet_name sheet_columns sheet_rows]. split; [done|]. split; [done|].
  rewrite row_cells_importedRows, Erows.
  exact Hback.
Qed.

(** ** A carriage return on its own *)

Lemma includes_notin (s : jsstring) (ch : Z) : ch ∉ s -> includes s ch = false.
Proof.
  intros H. destruct (includes s ch) eqn:E; [|done].
  by apply includes_true in E.
Qed.

Lemma parseCsvLoop_cr (rest : jsstring) rows currentRow currentValue :
  head rest <> Some lfChar ->
  parseCsvLoop (crChar :: rest) rows currentRow false currentValue
  = parseCsvLoop rest (pushRow rows currentRow currentValue) [] false [].
Proof.
  intros Hrest. destruct rest as [|next rest']; [done|].
  cbn [parseCsvLoop]. change (crChar =? quoteChar) with false.
  change (crChar =? commaChar) with false. change (crChar =? lfChar) with false.
  change (crChar =? crChar) with true. cbn [andb orb negb]. cbn iota.
  destruct (Z.eqb_spec next lfChar) as [->|Hne]; [by destruct Hrest|]. done.
Qed.

(** X21: a carriage return on its own splits a cell.  A text that holds
    a carriage return but no comma, line feed or double quote is written
    by [formatCsvCell] without quotes, and [parseCsvContent] reads the
    part before the carriage return and the part after it as two rows of
    one cell each (a part that is empty or white space only gives no
    row): such a cell does not survive an export followed by an
    import. *)
Theorem lone_carriage_return_splits_the_cell (before after : jsstring) :
  plainText before -> plainText after ->
  formatCell (CellStr (before ++ crChar :: after)) = before ++ crChar :: after /\
  parseCsvContent (formatCell (CellStr (before ++ crChar :: after)))
  = List.filter rowHasData [[trim before]; [trim after]].
Proof.
  intros (Hq1 & Hc1 & Hl1 & Hr1) (Hq2 & Hc2 & Hl2 & Hr2).
  assert (formatCell (CellStr (before ++ crChar :: after))
          = before ++ crChar :: after) as Hfmt.
  { unfold formatCsvCell. cbn [String_of_cell].
    rewrite !includes_notin; [done| | |];
      (apply not_elem_of_app; split; [done|]);
      (apply not_elem_of_cons; split; [done|done]). }
  split; [done|]. rewrite Hfmt. unfold parseCsvContent.
  rewrite parseCsvLoop_plain by done.
  rewrite parseCsvLoop_cr; cycle 1.
  { destruct after as [|u after]; [done|]. cbn. intros [= ->].
    by apply not_elem_of_cons in Hl2 as [? _]. }
  rewrite <- (app_nil_r after) at 1. rewrite parseCsvLoop_plain by done.
  cbn [parseCsvLoop app]. unfold pushRow. cbn [length app].
  destruct before as [|x before], after as [|y after]; done.
Qed.

End CsvExtras.

(** * Further properties on the samples *)

Lemma crSafe_without_cr (s : jsstring) : crChar ∉ s -> crSafe s.
Proof. intros H Hcr. by destruct H. Qed.

Lemma crSafe_checked (texts : list (list jsstring)) :
  forallb (forallb (fun s => negb (includes s crChar))) texts = true ->
  Forall (Forall crSafe) texts.
Proof.
  intros H. apply Forall_forall. intros row Hrow. apply Forall_forall. intros s Hs.
  apply crSafe_without_cr, includes_false.
  rewrite forallb_forall in H. specialize (H row (proj1 (list_elem_of_In _ _) Hrow)).
  rewrite forallb_forall in H. specialize (H s (proj1 (list_elem_of_In _ _) Hs)).
  by apply negb_true_iff in H.
Qed.

Lemma sampleSheet_texts_safe : Forall (Forall crSafe) (exportedTexts decimalString sampleSheet).
Proof. apply crSafe_checked. vm_compute. reflexivity. Qed.

Lemma sampleSheet_exports :
  Forall (row_exports decimalString decimalParseInt) (sheet_rows sampleSheet).
Proof.
  constructor; [|constructor]. split.
  - repeat (constructor; [split; vm_compute; done|]). constructor.
  - apply Exists_cons_hd. vm_compute. discriminate.
Qed.

Lemma sampleSheet_ok : sheet_ok sampleSheet.
Proof.
  unfold sheet_ok, sampleSheet, row_ok. cbn. repeat (constructor; try exact I).
Qed.

Lemma wrapping_rows :
  Forall (fun sheet => Z.of_nat (length (sheet_rows sheet)) < 2 ^ 32)
    (sheets wrappingFile).
Proof. repeat constructor. Qed.

Lemma wrapping_small :
  byteLength (generateMbeFile decimalNumber decimalString wrappingFile) < 2 ^ 32.
Proof. vm_compute. reflexivity. Qed.

(** ** The codec *)

Lemma findMagic_first_match_witness :
  0 <= 36 /\
  exists m, findMagic sampleBuffer CHNK_MAGIC_BYTES 36 = ret m /\ m = 48.
Proof.
  assert (0 <= 36) as H0 by lia. split; [exact H0|].
  destruct (findMagic_first_match sampleBuffer CHNK_MAGIC_BYTES 36 H0) as (m & Hm & _).
  exists m. split; [exact Hm|]. vm_compute in Hm. by injection Hm.
Defined.

Lemma integers_read_back_witness :
  writer_ok newWriter /\
  getInt32 (toArrayBuffer (writeInt32 newWriter (-1)) ++ []) (getCurrentOffset newWriter)
  = ret (-1) /\
  getInt32 (toArrayBuffer (writeInt32 newWriter (2 ^ 31)) ++ []) (getCurrentOffset newWriter)
  = ret (- 2 ^ 31).
Proof.
  split; [exact writer_ok_new|]. split.
  - apply (integers_read_back newWriter (-1) [] writer_ok_new). lia.
  - exact (proj1 (proj2 (integers_read_back newWriter (2 ^ 31) [] writer_ok_new))).
Defined.

Lemma output_ignores_column_labels_witness :
  same_types_and_cells sampleFile sampleFileRelabelled /\
  generateMbeFile decimalNumber decimalString sampleFile
  = generateMbeFile decimalNumber decimalString sampleFileRelabelled.
Proof.
  assert (same_types_and_cells sampleFile sampleFileRelabelled) as Hsame.
  { unfold same_types_and_cells, sampleFile, sampleFileRelabelled. cbn.
    constructor; [|constructor]. repeat split. }
  split; [exact Hsame|].
  exact (proj1 (output_ignores_column_labels decimalNumber decimalString
                  sampleFile sampleFileRelabelled Hsame)).
Defined.

Lemma resave_is_stable_witness :
  model_invariants sampleFile /\ file_roundtrips sampleFile /\
  byteLength (generateMbeFile decimalNumber decimalString sampleFile) < 2 ^ 32 /\
  exists mbeFile',
    returns (parseMbeFile decimalString fixedClock
               (generateMbeFile decimalNumber decimalString sampleFile)) mbeFile' /\
    generateMbeFile decimalNumber decimalString mbeFile'
    = generateMbeFile decimalNumber decimalString sampleFile.
Proof.
  exact (conj sample_invariants (conj sample_roundtrips (conj sample_small
           (resave_is_stable decimalNumber decimalString fixedClock sampleFile
              sample_invariants sample_roundtrips sample_small)))).
Defined.

Lemma parsed_file_is_well_formed_witness :
  buffer_ok truncatedPool /\
  exists mbeFile,
    returns (parseMbeFile decimalString fixedClock truncatedPool) mbeFile /\
    model_invariants mbeFile /\ Forall sheet_shape (sheets mbeFile).
Proof.
  split; [exact truncatedPool_ok|].
  destruct (parseMbeFile decimalString fixedClock truncatedPool) as [log [mbeFile|e]]
    eqn:E.
  - rewrite <- E.
    assert (returns (parseMbeFile decimalString fixedClock truncatedPool) mbeFile)
      as Hret by (unfold returns; by rewrite E).
    exists mbeFile. split; [exact Hret|].
    destruct (parsed_file_is_well_formed decimalString fixedClock truncatedPool mbeFile
                truncatedPool_ok Hret) as (Hinv & _ & Hshape).
    split; [exact Hinv|exact Hshape].
  - exfalso. vm_compute in E. discriminate E.
Defined.

Lemma what_is_read_back_witness :
  Forall (fun sheet => Z.of_nat (length (sheet_rows sheet)) < 2 ^ 32)
    (sheets wrappingFile) /\
  byteLength (generateMbeFile decimalNumber decimalString wrappingFile) < 2 ^ 32 /\
  exists mbeFile',
    returns (parseMbeFile decimalString fixedClock
               (generateMbeFile decimalNumber decimalString wrappingFile)) mbeFile' /\
    map (fun sheet => map row_cells (sheet_rows sheet)) (sheets mbeFile')
    = [ [ [CellNum (- 2 ^ 31); CellStr [97]] ] ].
Proof.
  split; [exact wrapping_rows|]. split; [exact wrapping_small|].
  destruct (what_is_read_back decimalNumber decimalString fixedClock wrappingFile
              wrapping_rows wrapping_small) as ((mbeFile' & Hret & Hsheets) & _ & _).
  exists mbeFile'. split; [exact Hret|].
  unfold wrappingFile in Hsheets. cbn [sheets] in Hsheets.
  inversion Hsheets as [|s' s rest' rest (_ & _ & Hcells) Hrest Hs' Hs].
  inversion Hrest. cbn [map]. rewrite Hcells. reflexivity.
Defined.

Lemma generated_file_is_read_quietly_witness :
  Forall (fun sheet => Z.of_nat (length (sheet_rows sheet)) < 2 ^ 32) (sheets intFile) /\
  byteLength (generateMbeFile decimalNumber decimalString intFile) < 2 ^ 32 /\
  exists mbeFile',
    parseMbeFile decimalString fixedClock
      (generateMbeFile decimalNumber decimalString intFile)
    = ([ChnkMagicNotFound 40], Returned mbeFile').
Proof.
  assert (Forall (fun sheet => Z.of_nat (length (sheet_rows sheet)) < 2 ^ 32)
            (sheets intFile)) as Hrows by repeat constructor.
  assert (byteLength (generateMbeFile decimalNumber decimalString intFile) < 2 ^ 32)
    as Hsmall by (vm_compute; reflexivity).
  split; [exact Hrows|]. split; [exact Hsmall|].
  exact (generated_file_is_read_quietly decimalNumber decimalString fixedClock intFile
           Hrows Hsmall).
Defined.

(** ** The CSV functions *)

Lemma exported_csv_reads_back_witness :
  Forall (Forall crSafe) (exportedTexts decimalString sampleSheet) /\
  parseCsvContent (handleExportCsv decimalString sampleSheet)
  = [ [ [67; 111; 108; 32; 49; 32; 40; 105; 110; 116; 41];
        [67; 111; 108; 32; 50; 32; 40; 115; 116; 114; 73; 68; 41] ];
      [ [55]; [104; 105] ] ].
Proof.
  split; [exact sampleSheet_texts_safe|].
  rewrite (exported_csv_reads_back decimalString sampleSheet sampleSheet_texts_safe).
  vm_compute. reflexivity.
Defined.

Lemma handleCsvImport_keeps_the_model_witness :
  sheets sampleFile !! 0%nat = Some sampleSheet /\
  exists mbeFile',
    handleCsvImport decimalString decimalParseInt importClock (Some sampleFile) 0
      sampleCsv = ImportFinished mbeFile' None /\
    map (fun sheet => map row_cells (sheet_rows sheet)) (sheets mbeFile')
    = [ [ [CellNum 0; CellStr [121]] ] ] /\
    model_invariants mbeFile'.
Proof.
  assert (sheets sampleFile !! 0%nat = Some sampleSheet) as Hsheet by reflexivity.
  split; [exact Hsheet|].
  destruct (handleCsvImport_keeps_the_model decimalString decimalParseInt importClock
              sampleFile 0 sampleCsv sampleSheet Hsheet)
    as (mbeFile' & error & Himport & _ & _ & _ & Hinv).
  exists mbeFile'. vm_compute in Himport. injection Himport as <- <-.
  split; [reflexivity|]. split; [reflexivity|]. exact (Hinv sample_invariants).
Defined.

Lemma csv_export_then_import_witness :
  sheets sampleFile !! 0%nat = Some sampleSheet /\
  sheet_ok sampleSheet /\ sheet_rows sampleSheet <> [] /\
  Forall (Forall crSafe) (exportedTexts decimalString sampleSheet) /\
  Forall (row_exports decimalString decimalParseInt) (sheet_rows sampleSheet) /\
  exists mbeFile',
    handleCsvImport decimalString decimalParseInt importClock (Some sampleFile) 0
      (handleExportCsv decimalString sampleSheet) = ImportFinished mbeFile' None /\
    same_wire_content mbeFile' sampleFile.
Proof.
  assert (sheets sampleFile !! 0%nat = Some sampleSheet) as Hsheet by reflexivity.
  assert (sheet_rows sampleSheet <> []) as Hrows by discriminate.
  exact (conj Hsheet (conj sampleSheet_ok (conj Hrows (conj sampleSheet_texts_safe
           (conj sampleSheet_exports
              (csv_export_then_import decimalString decimalParseInt importClock
                 sampleFile 0 sampleSheet Hsheet sampleSheet_ok Hrows
                 sampleSheet_texts_safe sampleSheet_exports)))))).
Defined.

Lemma lone_carriage_return_splits_the_cell_witness :
  plainText [97] /\ plainText [98] /\
  parseCsvContent (formatCsvCell decimalString (CellStr ([97] ++ crChar :: [98])))
  = [ [ [97] ]; [ [98] ] ].
Proof.
  assert (forall u, u <> 34 -> u <> 44 -> u <> 10 -> u <> 13 -> plainText [u]) as Hplain.
  { intros u H1 H2 H3 H4. unfold plainText, quoteChar, commaChar, lfChar, crChar.
    repeat split; (apply not_elem_of_cons; split; [congruence|apply not_elem_of_nil]). }
  assert (plainText [97]) as Ha by (apply Hplain; discriminate).
  assert (plainText [98]) as Hb by (apply Hplain; discriminate).
  split; [exact Ha|]. split; [exact Hb|].
  rewrite (proj2 (lone_carriage_return_splits_the_cell decimalString [97] [98] Ha Hb)).
  reflexivity.
Defined.
